(** * Cratejoy -> Shopify migrator: the core, embedded and verified

    A shallow embedding of the core of the migrator (rate limiter, API
    clients, paginated collectors, staging store, auditor and migration
    orchestrator) with the properties its specification states about it.

    Conventions of the embedding.
    - Python [int] is [Z]; Python [float] is modelled by the rational it
      denotes ([Q], exact arithmetic: no rounding, no infinities, no NaN).
      The properties proved about rates are order comparisons, which
      rounding to nearest preserves.
    - A Python [set] of ids is a [gset Z]; a Python [list] is a [list].
    - A database table is the list of its rows; the UNIQUE constraint on the
      natural id is an invariant of that list, not a property of its type.
    - The outside world (HTTP servers, the database engine, the caller's
      callbacks) is deterministic input to the model: a server is a
      function from the number of the attempt, or from the history of
      calls, to its answer.  A SQL statement is modelled by its meaning on
      the table, a transaction by what the database (PostgreSQL) does with
      it, and [session.execute] by what it accepts as parameters.
    - Code that raises returns a sum: [inl e] is the exception, [inr v] the
      value.  Loops that have no bound in the source take fuel; locks and
      logging other than the lines the properties mention are left out. *)

From Stdlib Require Import ZArith QArith Lqa List Lia String.
From stdpp Require Import gmap list sorting.

Local Open Scope Z_scope.

(** ** Python helpers *)

Module Py.

(** [min(a, b)] of Python: the first argument unless the second is smaller. *)
Definition min (a b : Q) : Q := if Qlt_le_dec b a then b else a.

(** [max(a, b)] of Python: the first argument unless the second is larger. *)
Definition max (a b : Q) : Q := if Qlt_le_dec a b then b else a.

(** [range(0, stop, step)] as the list of its elements, for [step > 0]. *)
Fixpoint range_from (start step count : nat) : list nat :=
  match count with
  | O => []
  | S k => start :: range_from (start + step) step k
  end.

Definition range_step (stop step : nat) : list nat :=
  range_from 0 step (Nat.div (stop + step - 1) step).

(** [l[i:j]] for [0 <= i <= j]: out-of-range bounds are clipped. *)
Definition slice {A} (l : list A) (i j : nat) : list A :=
  take (j - i) (drop i l).

(** Truth value of an optional integer: [None] and [0] are false. *)
Definition truthy (o : option Z) : bool :=
  match o with
  | Some n => negb (n =? 0)
  | None => false
  end.

End Py.

(** ** utils/rate_limiter.py *)

Module RateLimiter.

Local Open Scope Q_scope.

(** [class RateLimiter]: the fields its methods read and write. *)
Record RateLimiter := mkRateLimiter {
  requests_per_second : Q;
  min_interval : Q;
  last_request_time : Q
}.

Definition interval_of (rps : Q) : Q :=
  if Qlt_le_dec 0 rps then 1 / rps else 0.

Definition RateLimiter_init (rps : Q) : RateLimiter :=
  {| requests_per_second := rps;
     min_interval := interval_of rps;
     last_request_time := 0 |}.

Definition update_rate (rps : Q) (r : RateLimiter) : RateLimiter :=
  {| requests_per_second := rps;
     min_interval := interval_of rps;
     last_request_time := last_request_time r |}.

(** [class AdaptiveRateLimiter]. *)
Record AdaptiveRateLimiter := mkAdaptive {
  current_rate : Q;
  min_rate : Q;
  max_rate : Q;
  base_limiter : RateLimiter
}.

Definition AdaptiveRateLimiter_init (initial_requests_per_second : Q)
  : AdaptiveRateLimiter :=
  {| current_rate := initial_requests_per_second;
     min_rate := 0.1;
     max_rate := 10.0;
     base_limiter := RateLimiter_init initial_requests_per_second |}.

Definition set_rate (new_rate : Q) (l : AdaptiveRateLimiter)
  : AdaptiveRateLimiter :=
  {| current_rate := new_rate;
     min_rate := min_rate l;
     max_rate := max_rate l;
     base_limiter := update_rate new_rate (base_limiter l) |}.

Definition on_success (l : AdaptiveRateLimiter) : AdaptiveRateLimiter :=
  let new_rate := Py.min (max_rate l) (current_rate l * 1.1) in
  if negb (Qeq_bool new_rate (current_rate l)) then set_rate new_rate l else l.

Definition on_rate_limit_error (retry_after : option Z)
    (l : AdaptiveRateLimiter) : AdaptiveRateLimiter :=
  let new_rate :=
    if Py.truthy retry_after
    then 1.0 / inject_Z (default 0%Z retry_after)
    else Py.max (min_rate l) (current_rate l * 0.5) in
  set_rate new_rate l.

Definition on_error (l : AdaptiveRateLimiter) : AdaptiveRateLimiter :=
  let new_rate := Py.max (min_rate l) (current_rate l * 0.8) in
  if negb (Qeq_bool new_rate (current_rate l)) then set_rate new_rate l else l.

Definition get_current_rate (l : AdaptiveRateLimiter) : Q := current_rate l.

(** A caller's feedback to the limiter, one constructor per method. *)
Inductive call :=
| OnSuccess
| OnError
| OnRateLimited (retry_after : option Z).

Definition step (l : AdaptiveRateLimiter) (c : call) : AdaptiveRateLimiter :=
  match c with
  | OnSuccess => on_success l
  | OnError => on_error l
  | OnRateLimited ra => on_rate_limit_error ra l
  end.

Definition run (cs : list call) (l : AdaptiveRateLimiter)
  : AdaptiveRateLimiter := fold_left step cs l.

(** The call passes no server-supplied retry-after. *)
Definition no_retry_after (c : call) : Prop :=
  match c with
  | OnRateLimited (Some _) => False
  | _ => True
  end.

(** The call is a back-off without a retry-after: [on_error()] or
    [on_rate_limit_error()]. *)
Definition is_backoff (c : call) : Prop :=
  match c with
  | OnError | OnRateLimited None => True
  | _ => False
  end.

End RateLimiter.

(** ** Exceptions raised by the modelled code *)

Inductive exn :=
| HTTPError (status_code : Z)
| RequestException
| ValueError
| RecursionError
| DatabaseError
| ArgumentError.

(** ** utils/shopify_client.py and utils/cratejoy_client.py: [_make_request] *)

Module Client.

(** The [Retry-After] header as [int(...)] sees it. *)
Inductive header :=
| HAbsent
| HInt (n : Z)
| HBad.

(** [response.content], and whether [response.json()] can decode it. *)
Inductive content :=
| Empty
| Json (v : string)
| Garbage.

Record response := mkResponse {
  status_code : Z;
  retry_after : header;
  body : content
}.

(** What [session.request] does: it raises a transport error or it returns
    a response. *)
Inductive outcome :=
| Transport
| Resp (r : response).

Record request := mkRequest {
  method : string;
  endpoint : string;
  kwargs : string
}.

(** The observable effects of a client: the requests it has sent and the
    sleeps it has taken on rate-limit answers, oldest first. *)
Record io := mkIo {
  sent : list request;
  slept : list Z
}.

Definition io0 : io := {| sent := []; slept := [] |}.

Definition send (rq : request) (st : io) : io :=
  {| sent := sent st ++ [rq]; slept := slept st |}.

Definition sleep (d : Z) (st : io) : io :=
  {| sent := sent st; slept := slept st ++ [d] |}.

(** A server answers the n-th request it receives (counted from 0). *)
Definition server := nat -> outcome.

(** [response.raise_for_status()]. *)
Definition raise_for_status (r : response) : exn + unit :=
  if (400 <=? status_code r) && (status_code r <? 600)
  then inl (HTTPError (status_code r))
  else inr tt.

(** The tail both clients share: decode the body, [{}] when it is empty. *)
Definition decode (r : response) : exn + string :=
  match body r with
  | Empty => inr "{}"%string
  | Json v => inr v
  | Garbage => inl RequestException
  end.

(** [_make_request] calls itself after a 429; [depth] is the number of
    frames the interpreter still has for it.  The wait on the rate limiter
    that precedes every attempt only delays it and is left out; [slept]
    holds the sleeps of the 429 handling. *)

Module ShopifyClient.

Fixpoint _make_request (depth : nat) (srv : server) (rq : request)
    (st : io) : (exn + string) * io :=
  match depth with
  | O => (inl RecursionError, st)
  | S depth' =>
    let n := length (sent st) in
    let st := send rq st in
    match srv n with
    | Transport => (inl RequestException, st)
    | Resp r =>
      if status_code r =? 429 then
        match retry_after r with
        | HBad => (inl ValueError, st)
        | h =>
          let retry_after := match h with HInt v => v | _ => 2 end in
          if retry_after <? 0 then (inl ValueError, st)
          else _make_request depth' srv rq (sleep retry_after st)
        end
      else
        match raise_for_status r with
        | inl e => (inl e, st)
        | inr _ => (decode r, st)
        end
    end
  end.

End ShopifyClient.

Module CratejoyClient.

Fixpoint _make_request (depth : nat) (srv : server) (rq : request)
    (st : io) : (exn + string) * io :=
  match depth with
  | O => (inl RecursionError, st)
  | S depth' =>
    let n := length (sent st) in
    let st := send rq st in
    match srv n with
    | Transport => (inl RequestException, st)
    | Resp r =>
      match raise_for_status r with
      | inl e =>
        if status_code r =? 429
        then _make_request depth' srv rq (sleep 60 st)
        else (inl e, st)
      | inr _ => (decode r, st)
      end
    end
  end.

End CratejoyClient.

(** What a single attempt yields from an answer that is not a 429. *)
Definition final_result (o : outcome) : exn + string :=
  match o with
  | Transport => inl RequestException
  | Resp r =>
    match raise_for_status r with
    | inl e => inl e
    | inr _ => decode r
    end
  end.

(** The answer is a 429 that [ShopifyClient] can sleep on, for [d] seconds. *)
Definition shopify_limited (o : outcome) (d : Z) : Prop :=
  match o with
  | Transport => False
  | Resp r =>
    status_code r = 429 /\ 0 <= d /\
    match retry_after r with
    | HAbsent => d = 2
    | HInt n => d = n
    | HBad => False
    end
  end.

(** The answer is a 429 that [ShopifyClient] cannot sleep on: its
    [Retry-After] is not an integer for [int(...)], or it is negative for
    [time.sleep]. *)
Definition shopify_rejected (o : outcome) : Prop :=
  match o with
  | Transport => False
  | Resp r =>
    status_code r = 429 /\
    match retry_after r with
    | HAbsent => False
    | HInt n => n < 0
    | HBad => True
    end
  end.

Definition is_429 (o : outcome) : Prop :=
  match o with
  | Transport => False
  | Resp r => status_code r = 429
  end.

(** The answers to requests [n], [n+1], ... are 429s that [ShopifyClient]
    sleeps on for the durations [ds], in this order. *)
Fixpoint shopify_limited_from (srv : server) (n : nat) (ds : list Z) : Prop :=
  match ds with
  | [] => True
  | d :: ds' => shopify_limited (srv n) d /\ shopify_limited_from srv (S n) ds'
  end.

(** The answers to the [k] requests from [n] on are 429s. *)
Fixpoint limited_from (srv : server) (n k : nat) : Prop :=
  match k with
  | O => True
  | S k' => is_429 (srv n) /\ limited_from srv (S n) k'
  end.

(** Concrete servers and a request for the examples. *)
Definition get_shop : request :=
  {| method := "GET"; endpoint := "/shop.json"; kwargs := "{}" |}.

Definition r429 : outcome :=
  Resp {| status_code := 429; retry_after := HInt 1; body := Empty |}.

Definition r200 : outcome :=
  Resp {| status_code := 200; retry_after := HAbsent; body := Json "{}" |}.

(** A 429 whose [Retry-After] is an HTTP date. *)
Definition r429_dated : outcome :=
  Resp {| status_code := 429; retry_after := HBad; body := Empty |}.

(** A 429 with one second to wait, then 429s with a date. *)
Definition limited_then_dated : server :=
  fun n => match n with 0%nat => r429 | _ => r429_dated end.

(** Two 429 answers, then a 200. *)
Definition twice_limited : server :=
  fun n => match n with 0%nat | 1%nat => r429 | _ => r200 end.

End Client.

(** ** Source records and the staging tables *)

Module Staging.

(** A customer as the source API returns it: the fields the core reads,
    and the rest of the document. *)
Record Customer := mkCustomer {
  c_id : option Z;
  c_email : option string;
  c_subscription_status : option string;
  c_rest : string
}.

(** An order as the source API returns it. *)
Record Order := mkOrder {
  o_id : option Z;
  o_customer_id : option Z;
  o_rest : string
}.

(** One entity kind: its source records, the natural id they carry and the
    indexed attribute stored next to the payload ([email] for customers,
    [cratejoy_customer_id] for orders). *)
Record EntityKind := mkKind {
  record : Type;
  rec_id : record -> option Z;
  attr : Type;
  rec_attr : record -> attr
}.

Definition CustomerKind : EntityKind :=
  {| record := Customer;
     rec_id := c_id;
     attr := string;
     rec_attr := fun c => default EmptyString (c_email c) |}.

Definition OrderKind : EntityKind :=
  {| record := Order;
     rec_id := o_id;
     attr := option Z;
     rec_attr := o_customer_id |}.

(** A staging row: [(cratejoy_id, email | cratejoy_customer_id, raw_data,
    fetched_at)]. *)
Record row (K : EntityKind) := mkRow {
  cratejoy_id : Z;
  attr_col : attr K;
  raw_data : record K;
  fetched_at : Z
}.
Arguments mkRow {K}.
Arguments cratejoy_id {K}.
Arguments attr_col {K}.
Arguments raw_data {K}.
Arguments fetched_at {K}.

Section Table.
Context {K : EntityKind}.

(** [DO UPDATE SET raw_data = EXCLUDED.raw_data, ..., fetched_at =
    EXCLUDED.fetched_at]: the row keeps its key. *)
Definition do_update (old excluded : row K) : row K :=
  {| cratejoy_id := cratejoy_id old;
     attr_col := attr_col excluded;
     raw_data := raw_data excluded;
     fetched_at := fetched_at excluded |}.

(** [INSERT ... ON CONFLICT (cratejoy_id) DO UPDATE ...]. *)
Fixpoint upsert (r : row K) (t : list (row K)) : list (row K) :=
  match t with
  | [] => [r]
  | x :: t' =>
    if cratejoy_id x =? cratejoy_id r
    then do_update x r :: t'
    else x :: upsert r t'
  end.

Definition upsert_all (rs : list (row K)) (t : list (row K)) : list (row K) :=
  fold_left (fun t r => upsert r t) rs t.

(** The rows whose natural id is [i]. *)
Definition rows_with (i : Z) (t : list (row K)) : list (row K) :=
  filter (fun r => cratejoy_id r = i) t.

(** [SELECT ... WHERE cratejoy_id = :cid ... .first()]. *)
Definition lookup_row (i : Z) (t : list (row K)) : option (row K) :=
  head (rows_with i t).

(** The UNIQUE constraint on [cratejoy_id]. *)
Definition unique_ids (t : list (row K)) : Prop :=
  NoDup (map cratejoy_id t).

(** What happens around one session: whether the statement for the k-th
    record executes when the transaction is still alive, whether the
    progress callback returns normally when it is called at a count of
    collected records (always, when there is no callback), whether
    [session.commit()] returns ([false]: it raises), and [NOW()]. *)
Record session_env := mkSession {
  execute_ok : nat -> bool;
  progress_ok : Z -> bool;
  commit_ok : bool;
  now : Z
}.

Definition row_of (now : Z) (i : Z) (c : record K) : row K :=
  {| cratejoy_id := i; attr_col := rec_attr K c; raw_data := c;
     fetched_at := now |}.

(** The [for] loop of [_process_customer_batch] / [_process_order_batch]:
    [k] counts the records seen, the triple is (collected, failed, the
    transaction).  The transaction is [Some t], with [t] the table as the
    session sees it, until a statement fails; the database (PostgreSQL)
    then aborts the transaction, which is [None] from there on: the work
    of the earlier statements is lost and every later statement of the
    session is refused, and so counted as failed.  A progress callback
    that raises is caught like a failed statement, after the record was
    counted as collected; it does not touch the transaction. *)
Fixpoint process_records (env : session_env) (k : nat)
    (records : list (record K)) (acc : Z * Z * option (list (row K)))
    : Z * Z * option (list (row K)) :=
  match records with
  | [] => acc
  | c :: cs =>
    let '(collected, failed, transaction) := acc in
    if Py.truthy (rec_id K c) then
      match transaction with
      | Some t =>
        if execute_ok env k then
          let collected := collected + 1 in
          let t := upsert (row_of (now env) (default 0 (rec_id K c)) c) t in
          if (collected mod 100 =? 0) && negb (progress_ok env collected)
          then process_records env (S k) cs (collected, failed + 1, Some t)
          else process_records env (S k) cs (collected, failed, Some t)
        else process_records env (S k) cs (collected, failed + 1, None)
      | None => process_records env (S k) cs (collected, failed + 1, None)
      end
    else process_records env (S k) cs (collected, failed + 1, transaction)
  end.

(** [_process_customer_batch] / [_process_order_batch]: the counts and the
    table after [session.commit()], or the exception and the table as it
    was.  A commit that raises is followed by the rollback of the
    handler.  The commit of a transaction that a failed statement has
    aborted returns without an error, and the database ends the
    transaction with a rollback: the counts come back, and the table is
    as it was. *)
Definition process_batch (env : session_env) (records : list (record K))
    (t : list (row K)) : (exn + Z * Z) * list (row K) :=
  let '(collected, failed, transaction) :=
    process_records env 0 records (0, 0, Some t) in
  if commit_ok env
  then (inr (collected, failed), default t transaction)
  else (inl DatabaseError, t).

(** Does a statement of the batch fail, and so abort its transaction? *)
Fixpoint batch_aborts (env : session_env) (k : nat)
    (records : list (record K)) : bool :=
  match records with
  | [] => false
  | c :: cs =>
    if Py.truthy (rec_id K c)
    then if execute_ok env k then batch_aborts env (S k) cs else true
    else batch_aborts env (S k) cs
  end.

(** The rows of the statements that executed, in order: those of the
    records that carry a usable id, up to the first statement that
    fails. *)
Fixpoint staged_rows (env : session_env) (k : nat) (records : list (record K))
    : list (row K) :=
  match records with
  | [] => []
  | c :: cs =>
    if Py.truthy (rec_id K c)
    then if execute_ok env k
         then row_of (now env) (default 0 (rec_id K c)) c
              :: staged_rows env (S k) cs
         else []
    else staged_rows env (S k) cs
  end.

End Table.

Definition _process_customer_batch := @process_batch CustomerKind.
Definition _process_order_batch := @process_batch OrderKind.

(** Concrete rows for the examples. *)
Definition alice (rest : string) : Customer :=
  {| c_id := Some 7; c_email := Some "alice@example.com"%string;
     c_subscription_status := Some "active"%string; c_rest := rest |}.

Definition bob : Customer :=
  {| c_id := Some 9; c_email := Some "bob@example.com"%string;
     c_subscription_status := None; c_rest := "{}" |}.

Definition healthy (t : Z) : session_env :=
  {| execute_ok := fun _ => true; progress_ok := fun _ => true;
     commit_ok := true; now := t |}.

(** A session in which the statement of the second record fails. *)
Definition second_statement_fails : session_env :=
  {| execute_ok := fun k => negb (k =? 1)%nat; progress_ok := fun _ => true;
     commit_ok := true; now := 0 |}.

End Staging.

(** ** utils/customers.py and utils/orders.py: the collection loop *)

Module Collector.
Import Staging.

(** The [next] field of a page: absent (or empty), carrying a parsable
    [page=<n>], or present without one. *)
Inductive next_link :=
| NoNext
| NextPage (n : Z)
| NextGarbled.

(** [_parse_next_page]. *)
Definition _parse_next_page (next_page_info : next_link) (current_page : Z) : Z :=
  match next_page_info with
  | NextPage n => n
  | _ => current_page + 1
  end.

Record page (K : EntityKind) := mkPage {
  results : list (record K);
  next : next_link
}.
Arguments mkPage {K}.
Arguments results {K}.
Arguments next {K}.

(** The world of one collection run.  [i] is the number of the loop
    iteration: the source API and the database may answer the same
    question differently at different times. *)
Record world (K : EntityKind) := mkWorld {
  is_running : nat -> bool;
  stop_callback : nat -> exn + bool;
  progress_callback : nat -> exn + unit;
  fetch : nat -> Z -> Z -> exn + page K;
  session : nat -> @session_env
}.
Arguments is_running {K}.
Arguments stop_callback {K}.
Arguments progress_callback {K}.
Arguments fetch {K}.
Arguments session {K}.

(** The counters of a run; also its result,
    [{collected, failed, final_page}]. *)
Record counters := mkCounters {
  collected : Z;
  failed : Z;
  current_page : Z
}.

Inductive flow :=
| Continue (s : counters)
| Break (s : counters)
| Raise (e : exn).

Section Loop.
Context {K : EntityKind}.
Variable w : world K.
Variables batch_size start_page : Z.

(** The body of the inner [try]: fetch a page, store it, follow [next]. *)
Definition try_page (i : nat) (s : counters) (t : list (row K))
    : (exn + flow) * list (row K) :=
  match fetch w i batch_size (current_page s) with
  | inl e => (inl e, t)
  | inr response =>
    match results response with
    | [] => (inr (Break s), t)
    | records =>
      match process_batch (session w i) records t with
      | (inl e, t') => (inl e, t')
      | (inr (batch_collected, batch_failed), t') =>
        let s1 := {| collected := collected s + batch_collected;
                     failed := failed s + batch_failed;
                     current_page := current_page s |} in
        match next response with
        | NoNext => (inr (Break s1), t')
        | next_page_info =>
          (inr (Continue {| collected := collected s1;
                            failed := failed s1;
                            current_page :=
                              _parse_next_page next_page_info (current_page s) |}),
           t')
        end
      end
    end
  end.

(** The inner [except Exception]: count a page, move on, give up when the
    page number is more than 10 past the start. *)
Definition on_page_error (s : counters) : flow :=
  let s' := {| collected := collected s;
               failed := failed s + batch_size;
               current_page := current_page s + 1 |} in
  if current_page s' - start_page >? 10 then Break s' else Continue s'.

(** One iteration of [while self.is_running].  What a callback raises
    here is outside the inner [try]: it leaves the run. *)
Definition collect_step (i : nat) (s : counters) (t : list (row K))
    : flow * list (row K) :=
  if negb (is_running w i) then (Break s, t)
  else
    match stop_callback w i with
    | inl e => (Raise e, t)
    | inr true => (Break s, t)
    | inr false =>
      match progress_callback w i with
      | inl e => (Raise e, t)
      | inr _ =>
        match try_page i s t with
        | (inr f, t') => (f, t')
        | (inl _, t') => (on_page_error s, t')
        end
      end
    end.

Fixpoint collect_loop (fuel : nat) (i : nat) (s : counters)
    (t : list (row K)) : option ((exn + counters) * list (row K)) :=
  match fuel with
  | O => None
  | S fuel' =>
    match collect_step i s t with
    | (Continue s', t') => collect_loop fuel' (S i) s' t'
    | (Break s', t') => Some (inr s', t')
    | (Raise e, t') => Some (inl e, t')
    end
  end.

(** [collect_customers] / [collect_orders]: the result dictionary or the
    exception that left the run, and the table. *)
Definition collect (fuel : nat) (t : list (row K))
    : option ((exn + counters) * list (row K)) :=
  collect_loop fuel 0%nat
    {| collected := 0; failed := 0; current_page := start_page |} t.

End Loop.

Definition collect_customers := @collect CustomerKind.
Definition collect_orders := @collect OrderKind.

(** *** Page failures in a row *)
Section Failures.
Context {K : EntityKind}.
Variable w : world K.
Variables batch_size start_page : Z.

(** Did iteration [i] end in the inner [except]? *)
Definition page_failed (i : nat) (s : counters) (t : list (row K)) : bool :=
  is_running w i &&
  match stop_callback w i, progress_callback w i with
  | inr false, inr _ =>
    match try_page w batch_size i s t with
    | (inl _, _) => true
    | _ => false
    end
  | _, _ => false
  end.

(** The run, instrumented: [streak] is the number of page failures in a
    row so far, [worst] the longest streak seen.  Returns the result
    together with [worst], and whether the run ended on the break of the
    error handler. *)
Fixpoint collect_streaks (fuel : nat) (i : nat) (streak worst : nat)
    (s : counters) (t : list (row K)) : option (counters * nat * bool) :=
  match fuel with
  | O => None
  | S fuel' =>
    let failed_now := page_failed i s t in
    let streak' := if failed_now then S streak else O in
    let worst' := Nat.max worst streak' in
    match collect_step w batch_size start_page i s t with
    | (Continue s', t') => collect_streaks fuel' (S i) streak' worst' s' t'
    | (Break s', _) => Some (s', worst', failed_now)
    | (Raise _, _) => None
    end
  end.

(** The cursor never points behind the page it came with. *)
Definition forward : Prop :=
  forall i limit p r n,
    fetch w i limit p = inr r -> next r = NextPage n -> p <= n.

End Failures.

(** Concrete worlds for the examples. *)
Definition customer_n (n : Z) : Customer :=
  {| c_id := Some n; c_email := None; c_subscription_status := None;
     c_rest := "{}" |}.

(** Pages 0..10 hold one customer each and point to the next page; the
    fetch of page 11 fails; page 12 is there and is the last one. *)
Definition one_error_at_page_11 : world CustomerKind :=
  {| is_running := fun _ => true;
     stop_callback := fun _ => inr false;
     progress_callback := fun _ => inr tt;
     fetch := fun _ _ p =>
       if p =? 11 then inl RequestException
       else inr (@mkPage CustomerKind [customer_n (p + 1)]
                   (if p <? 12 then NextPage (p + 1) else NoNext));
     session := fun _ => healthy 0 |}.

(** Page 0 holds two customers and page 1 one; the commit of the first
    batch fails. *)
Definition first_commit_fails : world CustomerKind :=
  {| is_running := fun _ => true;
     stop_callback := fun _ => inr false;
     progress_callback := fun _ => inr tt;
     fetch := fun _ _ p =>
       if p =? 0
       then inr (@mkPage CustomerKind [customer_n 1; customer_n 2]
                   (NextPage 1))
       else inr (@mkPage CustomerKind [customer_n 3] NoNext);
     session := fun i =>
       {| execute_ok := fun _ => true;
          progress_ok := fun _ => true;
          commit_ok := negb (i =? 0)%nat;
          now := 0 |} |}.

End Collector.

(** ** utils/audit_tool.py *)

Module Auditor.
Import Staging.

Abbreviation customers_table := (list (row CustomerKind)).

(** [session.execute(text("SELECT cratejoy_id FROM cratejoy_customers
    WHERE cratejoy_id IN (?,...,?)"), batch)].  The session takes the
    parameters of a statement as a dictionary, or as a list of
    dictionaries; [batch] is a bare list of ids, which it rejects with
    [ArgumentError] before anything is sent to the database.  (An empty
    batch, which the loop never passes, would send [IN ()], which the
    database rejects.) *)
Definition select_ids_in (batch : list Z) (t : customers_table)
    : exn + list Z :=
  match batch with
  | [] => inl DatabaseError
  | _ :: _ => inl ArgumentError
  end.

(** The loop of [_get_db_customer_ids_in_range] for a chunk size; what
    the query of a chunk raises leaves the loop. *)
Definition lookup_chunked (batch_size : nat) (id_list : list Z)
    (t : customers_table) : exn + gset Z :=
  fold_left
    (fun all_db_ids i =>
       match all_db_ids with
       | inl e => inl e
       | inr all_db_ids =>
         let batch := Py.slice id_list i (i + batch_size) in
         match select_ids_in batch t with
         | inl e => inl e
         | inr result =>
           let batch_ids : gset Z := list_to_set result in
           inr (all_db_ids ∪ batch_ids)
         end
       end)
    (Py.range_step (length id_list) batch_size) (inr ∅).

Definition _get_db_customer_ids_in_range (expected_ids : gset Z)
    (t : customers_table) : exn + gset Z :=
  if decide (expected_ids = ∅) then inr ∅
  else
    let id_list := elements expected_ids in
    let batch_size := 999%nat in
    lookup_chunked batch_size id_list t.

(** The ids the staging table holds. *)
Definition stored_ids (t : customers_table) : gset Z :=
  list_to_set (map cratejoy_id t).

(** The specification's side of the lookup, to compare the code with: the
    answer of "a single unchunked query on a backend without a size
    limit", that is "exactly the subset of the candidate ids present in
    storage". *)
Definition contains_any_spec (expected_ids : gset Z) (t : customers_table)
    : gset Z :=
  expected_ids ∩ stored_ids t.

(** *** [audit_page_range] *)

Record page_audited := mkPageAudited {
  page : Z;
  api_count : Z;
  customer_ids : list Z
}.

Record summary := mkSummary {
  total_api_records : Z;
  total_db_records : Z;
  missing_count : Z;
  extra_count : Z;
  mismatch_count : Z
}.

Record audit_results := mkAudit {
  pages_audited : list page_audited;
  missing_from_db : list Z;
  extra_in_db : list Z;
  data_mismatches : list Z;
  api_errors : list (Z * exn);
  audit_summary : summary
}.

(** [cratejoy_client.get_customers(limit, page)] followed by
    [response.get('results', [])]. *)
Definition source_api := Z -> Z -> exn + list Customer.

(** The ids of a page: [customer.get('id')] where it is truthy. *)
Definition page_ids (customers : list Customer) : gset Z :=
  list_to_set
    (omap (fun c => if Py.truthy (c_id c) then c_id c else None) customers).

(** What the loop over the pages accumulates. *)
Record fetched := mkFetched {
  expected_customer_ids : gset Z;
  f_pages_audited : list page_audited;
  f_api_errors : list (Z * exn);
  f_total_api_records : Z
}.

(** [for page in range(start_page, end_page + 1)], with its [break] on an
    empty page and its [except] around each page. *)
Fixpoint audit_pages (api : source_api) (batch_size : Z) (pages : list Z)
    (acc : fetched) : fetched :=
  match pages with
  | [] => acc
  | p :: ps =>
    match api batch_size p with
    | inl e =>
      audit_pages api batch_size ps
        {| expected_customer_ids := expected_customer_ids acc;
           f_pages_audited := f_pages_audited acc;
           f_api_errors := f_api_errors acc ++ [(p, e)];
           f_total_api_records := f_total_api_records acc |}
    | inr [] => acc
    | inr customers =>
      let page_customer_ids := page_ids customers in
      audit_pages api batch_size ps
        {| expected_customer_ids :=
             expected_customer_ids acc ∪ page_customer_ids;
           f_pages_audited :=
             f_pages_audited acc ++
             [{| page := p;
                 api_count := Z.of_nat (length customers);
                 customer_ids := elements page_customer_ids |}];
           f_api_errors := f_api_errors acc;
           f_total_api_records :=
             f_total_api_records acc + Z.of_nat (length customers) |}
    end
  end.

(** [audit_page_range].  The lookup in the staging table comes after the
    loop over the pages, outside its [try]: what the lookup raises leaves
    the function, and no report is returned. *)
Definition audit_page_range (api : source_api) (t : customers_table)
    (start_page end_page batch_size : Z) : exn + audit_results :=
  let acc :=
    audit_pages api batch_size (seqZ start_page (end_page + 1 - start_page))
      {| expected_customer_ids := ∅; f_pages_audited := [];
         f_api_errors := []; f_total_api_records := 0 |} in
  let expected_customer_ids := expected_customer_ids acc in
  match _get_db_customer_ids_in_range expected_customer_ids t with
  | inl e => inl e
  | inr db_customer_ids =>
    let missing_ids := expected_customer_ids ∖ db_customer_ids in
    let extra_ids := db_customer_ids ∖ expected_customer_ids in
    inr {| pages_audited := f_pages_audited acc;
           missing_from_db := elements missing_ids;
           extra_in_db := elements extra_ids;
           data_mismatches := [];
           api_errors := f_api_errors acc;
           audit_summary :=
             {| total_api_records := f_total_api_records acc;
                total_db_records := Z.of_nat (size db_customer_ids);
                missing_count := Z.of_nat (size missing_ids);
                extra_count := Z.of_nat (size extra_ids);
                mismatch_count := 0 |} |}
  end.

(** *** [get_database_stats_by_page_range] *)

Record page_stat := mkStat {
  page_range : Z * Z;
  record_count : Z;
  first_id : Z;
  last_id : Z;
  expected_count : Z
}.

(** [SELECT cratejoy_id FROM cratejoy_customers ORDER BY cratejoy_id]. *)
Definition ordered_ids (t : customers_table) : list Z :=
  merge_sort Z.le (map cratejoy_id t).

(** The body of the loop for the chunk that starts at position [i]. *)
Definition chunk_stat (pages_per_chunk : Z) (customer_ids : list Z)
    (i : nat) : list page_stat :=
  let chunk_ids :=
    Py.slice customer_ids i (i + Z.to_nat (pages_per_chunk * 1000)) in
  match chunk_ids with
  | [] => []
  | first :: _ =>
    let start_page := Z.of_nat i / 1000 in
    let end_page := start_page + pages_per_chunk - 1 in
    [{| page_range := (start_page, end_page);
        record_count := Z.of_nat (length chunk_ids);
        first_id := first;
        last_id := List.last chunk_ids first;
        expected_count := pages_per_chunk * 1000 |}]
  end.

(** [range(0, n, step)] raises on a zero step and is empty for a negative
    one. *)
Definition get_database_stats_by_page_range (pages_per_chunk : Z)
    (t : customers_table) : exn + list page_stat :=
  let customer_ids := ordered_ids t in
  if pages_per_chunk =? 0 then inl ValueError
  else if pages_per_chunk <? 0 then inr []
  else
    inr (flat_map (chunk_stat pages_per_chunk customer_ids)
           (Py.range_step (length customer_ids)
              (Z.to_nat (pages_per_chunk * 1000)))).

(** The difference the overview shows for a bucket. *)
Definition difference (s : page_stat) : Z :=
  record_count s - expected_count s.

(** The bucket covers the id [i]. *)
Definition covers (s : page_stat) (i : Z) : Prop :=
  first_id s <= i <= last_id s.

(** A staged customer with natural id [i]. *)
Definition staged (i : Z) : row CustomerKind :=
  @row_of CustomerKind 0 i
    {| c_id := Some i; c_email := None; c_subscription_status := None;
       c_rest := "{}" |}.

(** Ids 1..5000 and 6001..12000 are staged; 5001..6000 are missing. *)
Definition table_with_gap : customers_table :=
  map staged (seqZ 1 5000 ++ seqZ 6001 6000).

End Auditor.

(** ** utils/shopify_migrator.py *)

Module Migrator.
Import Staging.

(** What a migration leaves behind, oldest first: the calls it makes to the
    target API and the lines it logs. *)
Inductive event :=
| ApiCreateCustomer (data : string)
| ApiAddTags (shopify_customer_id : Z)
| ApiCreateOrder (data : string)
| ApiCreateMetafield (shopify_customer_id : Z)
| LogDryRun (orders : nat)
| LogCreatedCustomer (shopify_customer_id : Z)
| LogTagsFailed (shopify_customer_id : Z)
| LogCreatedOrder (shopify_order_id : Z)
| LogOrderFailed (order_id : option Z)
| LogMetafieldFailed
| LogMigrated (orders_migrated total : Z)
| LogUnitFailed.

(** The field mapper and the target API.  An API call sees the history of
    the run, so it may answer the same call differently each time.  A
    created customer or order comes back with or without an [id]. *)
Record target := mkTarget {
  map_customer : Customer -> exn + string;
  create_customer : list event -> string -> exn + option Z;
  add_customer_tags : list event -> Z -> exn + unit;
  map_order : Order -> Z -> exn + string;
  create_order : list event -> string -> exn + option Z;
  create_customer_metafield : list event -> Z -> exn + unit
}.

(** A migration unit, as [_assemble_customer_record] builds it. *)
Record customer_data := mkUnit {
  customer : Customer;
  orders : list Order
}.

Section Unit.
Variable T : target.

(** The body of [for order in orders]: the new trace and whether
    [orders_migrated] was incremented. *)
Definition migrate_order (shopify_customer_id : Z) (order : Order)
    (tr : list event) : list event * bool :=
  match map_order T order shopify_customer_id with
  | inl _ => (tr ++ [LogOrderFailed (o_id order)], false)
  | inr shopify_order_data =>
    let tr1 := tr ++ [ApiCreateOrder shopify_order_data] in
    match create_order T tr shopify_order_data with
    | inl _ => (tr1 ++ [LogOrderFailed (o_id order)], false)
    | inr None => (tr1 ++ [LogOrderFailed (o_id order)], true)
    | inr (Some oid) => (tr1 ++ [LogCreatedOrder oid], true)
    end
  end.

Fixpoint migrate_orders (shopify_customer_id : Z) (orders : list Order)
    (orders_migrated : Z) (tr : list event) : list event * Z :=
  match orders with
  | [] => (tr, orders_migrated)
  | order :: rest =>
    let '(tr', ok) := migrate_order shopify_customer_id order tr in
    migrate_orders shopify_customer_id rest
      (if ok then orders_migrated + 1 else orders_migrated) tr'
  end.

(** [customer.get('subscription_status') and
    customer.get('subscription_status') != 'none']. *)
Definition has_subscription (c : Customer) : bool :=
  match c_subscription_status c with
  | None => false
  | Some s => negb (String.eqb s EmptyString) && negb (String.eqb s "none")
  end.

Definition add_tags (shopify_customer_id : Z) (tr : list event)
    : list event :=
  let tr1 := tr ++ [ApiAddTags shopify_customer_id] in
  match add_customer_tags T tr shopify_customer_id with
  | inl _ => tr1 ++ [LogTagsFailed shopify_customer_id]
  | inr _ => tr1
  end.

Definition add_metafield (c : Customer) (shopify_customer_id : Z)
    (tr : list event) : list event :=
  if has_subscription c then
    let tr1 := tr ++ [ApiCreateMetafield shopify_customer_id] in
    match create_customer_metafield T tr shopify_customer_id with
    | inl _ => tr1 ++ [LogMetafieldFailed]
    | inr _ => tr1
    end
  else tr.

(** [_migrate_single_customer]. *)
Definition _migrate_single_customer (u : customer_data) (dry_run : bool)
    (tr : list event) : bool * list event :=
  if dry_run then (true, tr ++ [LogDryRun (length (orders u))])
  else
    match map_customer T (customer u) with
    | inl _ => (false, tr ++ [LogUnitFailed])
    | inr shopify_customer_data =>
      let tr1 := tr ++ [ApiCreateCustomer shopify_customer_data] in
      match create_customer T tr shopify_customer_data with
      | inl _ => (false, tr1 ++ [LogUnitFailed])
      | inr None => (false, tr1 ++ [LogUnitFailed])
      | inr (Some shopify_customer_id) =>
        let tr2 := tr1 ++ [LogCreatedCustomer shopify_customer_id] in
        let tr3 := add_tags shopify_customer_id tr2 in
        let '(tr4, orders_migrated) :=
          migrate_orders shopify_customer_id (orders u) 0 tr3 in
        let tr5 := add_metafield (customer u) shopify_customer_id tr4 in
        (true,
         tr5 ++ [LogMigrated orders_migrated (Z.of_nat (length (orders u)))])
      end
    end.

(** [_assemble_customer_record]: the staged customer and the orders it
    owns, or [None]. *)
Definition _assemble_customer_record (customers : list (row CustomerKind))
    (staged_orders : list (row OrderKind)) (cratejoy_customer_id : Z)
    : option customer_data :=
  match lookup_row cratejoy_customer_id customers with
  | None => None
  | Some r =>
    Some {| customer := raw_data r;
            orders :=
              map raw_data
                (filter
                   (fun o : row OrderKind =>
                      attr_col o =@{option Z} Some cratejoy_customer_id)
                   staged_orders) |}
  end.

(** The counters of [migrate_customers_atomic]. *)
Record tally := mkTally {
  migrated : Z;
  failed : Z
}.

(** The body of its loop for one customer, once the run was not stopped.
    [progress] is what the progress callback does when called ([inr tt]
    when there is none).  An exception in the body, be it from the
    callback or from [(i + 1) % batch_size] with a zero [batch_size],
    ends in the [except] of the loop, which counts a failure. *)
Definition migrate_unit (customers : list (row CustomerKind))
    (staged_orders : list (row OrderKind)) (batch_size : Z) (dry_run : bool)
    (progress : exn + unit) (cratejoy_id : Z) (st : tally * list event)
    : tally * list event :=
  let '(n, tr) := st in
  match progress with
  | inl _ =>
    ({| migrated := migrated n; failed := failed n + 1 |},
     tr ++ [LogUnitFailed])
  | inr _ =>
    match _assemble_customer_record customers staged_orders cratejoy_id with
    | None => ({| migrated := migrated n; failed := failed n + 1 |}, tr)
    | Some customer_data =>
      let '(success, tr') :=
        _migrate_single_customer customer_data dry_run tr in
      let n' :=
        if success
        then {| migrated := migrated n + 1; failed := failed n |}
        else {| migrated := migrated n; failed := failed n + 1 |} in
      if batch_size =? 0
      then ({| migrated := migrated n'; failed := failed n' + 1 |},
            tr' ++ [LogUnitFailed])
      else (n', tr')
    end
  end.

(** The caller's side of a migration run, by number of the customer: the
    [is_running] flag and what the callbacks do. *)
Record run_env := mkRun {
  is_running : nat -> bool;
  stop_callback : nat -> exn + bool;
  progress_callback : nat -> exn + unit
}.

(** [for i, customer_record in enumerate(customers)].  What the stop
    callback raises is outside the [try] of the body: it leaves the run. *)
Fixpoint migrate_loop (R : run_env) (customers : list (row CustomerKind))
    (staged_orders : list (row OrderKind)) (batch_size : Z) (dry_run : bool)
    (i : nat) (selected : list Z) (st : tally * list event)
    : exn + tally * list event :=
  match selected with
  | [] => inr st
  | cratejoy_id :: rest =>
    if negb (is_running R i) then inr st
    else
      match stop_callback R i with
      | inl e => inl e
      | inr true => inr st
      | inr false =>
        migrate_loop R customers staged_orders batch_size dry_run (S i) rest
          (migrate_unit customers staged_orders batch_size dry_run
             (progress_callback R i) cratejoy_id st)
      end
  end.

(** [migrate_customers_atomic], from the customers that
    [_get_customers_for_migration] selected: the counters it returns. *)
Definition migrate_customers_atomic (R : run_env)
    (customers : list (row CustomerKind))
    (staged_orders : list (row OrderKind)) (batch_size : Z) (dry_run : bool)
    (selected : list Z) : exn + tally * list event :=
  migrate_loop R customers staged_orders batch_size dry_run 0%nat selected
    ({| migrated := 0; failed := 0 |}, []).

End Unit.

(** The calls to [create_order] in a trace. *)
Definition create_order_calls (tr : list event) : list string :=
  omap (fun e => match e with ApiCreateOrder d => Some d | _ => None end) tr.


(** The orders of a unit that the mapper can map, mapped. *)
Definition mapped_orders (T : target) (shopify_customer_id : Z)
    (os : list Order) : list string :=
  omap (fun o => match map_order T o shopify_customer_id with
                 | inr d => Some d
                 | inl _ => None
                 end) os.

(** A unit of three orders, and a target that rejects the second
    [create_order] it receives. *)
Definition order_n (n : Z) : Order :=
  {| o_id := Some n; o_customer_id := Some 7; o_rest := "{}" |}.

Definition three_orders : customer_data :=
  {| customer := alice "{}"; orders := [order_n 1; order_n 2; order_n 3] |}.

Definition order_payload (n : Z) : string :=
  match n with
  | 1 => "order-1"
  | 2 => "order-2"
  | 3 => "order-3"
  | _ => "order"
  end.

Definition second_order_fails : target :=
  {| map_customer := fun _ => inr "customer"%string;
     create_customer := fun _ _ => inr (Some 100);
     add_customer_tags := fun _ _ => inr tt;
     map_order := fun o _ => inr (order_payload (default 0 (o_id o)));
     create_order := fun tr _ =>
       if (length (create_order_calls tr) =? 1)%nat
       then inl (HTTPError 422)
       else inr (Some (200 + Z.of_nat (length (create_order_calls tr))));
     create_customer_metafield := fun _ _ => inr tt |}.

(** A caller that lets the run go on, and a staging store that holds the
    unit above. *)
Definition undisturbed : run_env :=
  {| is_running := fun _ => true;
     stop_callback := fun _ => inr false;
     progress_callback := fun _ => inr tt |}.

Definition staged_alice : list (row CustomerKind) :=
  [@row_of CustomerKind 0 7 (alice "{}")].

Definition staged_orders_of_alice : list (row OrderKind) :=
  map (fun n => @row_of OrderKind 0 n (order_n n)) [1; 2; 3].

End Migrator.

(** ** utils/rate_limiter.py: waiting *)

Module Limiters.
Import RateLimiter.
Local Open Scope Q_scope.

(** [RateLimiter.wait].  [current_time] is what [time.time()] returns on
    entry and [woke] what it returns after the sleep; the result is the
    sleep taken, if any, and the limiter. *)
Definition wait (current_time woke : Q) (r : RateLimiter)
  : option Q * RateLimiter :=
  let time_since_last := current_time - last_request_time r in
  if Qlt_le_dec time_since_last (min_interval r) then
    let sleep_time := min_interval r - time_since_last in
    (Some sleep_time,
     {| requests_per_second := requests_per_second r;
        min_interval := min_interval r;
        last_request_time := woke |})
  else
    (None,
     {| requests_per_second := requests_per_second r;
        min_interval := min_interval r;
        last_request_time := current_time |}).

(** [class BurstRateLimiter]. *)
Record BurstRateLimiter := mkBurst {
  burst_rate : Q;
  burst_size : Z;
  tokens : Q;
  last_update : Q
}.

Definition BurstRateLimiter_init (requests_per_second : Q) (burst_size : Z)
    (now : Q) : BurstRateLimiter :=
  {| burst_rate := requests_per_second;
     burst_size := burst_size;
     tokens := inject_Z burst_size;
     last_update := now |}.

(** What [BurstRateLimiter.wait] can raise: the division by a zero rate,
    and [time.sleep] on a negative duration. *)
Inductive wait_error :=
| ZeroDivisionError
| NegativeSleep.

(** [BurstRateLimiter.wait], with the clock readings as above. *)
Definition burst_wait (current_time woke : Q) (b : BurstRateLimiter)
  : wait_error + option Q * BurstRateLimiter :=
  let elapsed := current_time - last_update b in
  let tokens :=
    Py.min (inject_Z (burst_size b)) (tokens b + elapsed * burst_rate b) in
  if Qle_bool 1 tokens then
    inr (None,
         {| burst_rate := burst_rate b; burst_size := burst_size b;
            tokens := tokens - 1; last_update := current_time |})
  else if Qeq_bool (burst_rate b) 0 then inl ZeroDivisionError
  else
    let wait_time := (1 - tokens) / burst_rate b in
    if Qle_bool 0 wait_time then
      inr (Some wait_time,
           {| burst_rate := burst_rate b; burst_size := burst_size b;
              tokens := 0; last_update := woke |})
    else inl NegativeSleep.

(** Calls to [wait] one after the other, none of which has to sleep: the
    clock readings are those on entry.  [None] as soon as a call sleeps
    or raises. *)
Fixpoint burst_waits_without_sleep (times : list Q) (b : BurstRateLimiter)
  : option BurstRateLimiter :=
  match times with
  | [] => Some b
  | now :: rest =>
    match burst_wait now now b with
    | inr (None, b') => burst_waits_without_sleep rest b'
    | _ => None
    end
  end.

(** The clock readings never go back, from [t] on. *)
Fixpoint monotone_from (t : Q) (times : list Q) : Prop :=
  match times with
  | [] => True
  | now :: rest => t <= now /\ monotone_from now rest
  end.

End Limiters.

(** ** utils/cratejoy_client.py: the [get_all_*] loops *)

Module Paging.

(** A page of the source API as these loops read it: [results], whether
    [next] is truthy, and [count]. *)
Record listing (A : Type) := mkListing {
  l_results : list A;
  l_next : bool;
  l_count : Z
}.
Arguments mkListing {A}.
Arguments l_results {A}.
Arguments l_next {A}.
Arguments l_count {A}.

(** [get_customers(limit, page)] and its siblings: the page or the
    exception. *)
Definition pager (A : Type) := Z -> Z -> exn + listing A.

Section Loops.
Context {A : Type}.
Variable get : pager A.

(** The loop of [get_all_customers], [get_all_orders] and
    [get_all_subscriptions]; nothing catches what [get] raises. *)
Fixpoint get_all_loop (fuel : nat) (page : Z) (all : list A)
  : option (exn + list A) :=
  match fuel with
  | O => None
  | S fuel' =>
    match get 100 page with
    | inl e => Some (inl e)
    | inr response =>
      match l_results response with
      | [] => Some (inr all)
      | results =>
        let all := all ++ results in
        if negb (l_next response) then Some (inr all)
        else get_all_loop fuel' (page + 1) all
      end
    end
  end.

Definition get_all (fuel : nat) : option (exn + list A) :=
  get_all_loop fuel 0 [].

(** [all_products[:total_count]]. *)
Definition slice_to (l : list A) (n : Z) : list A :=
  if n <? 0 then take (length l - Z.to_nat (- n)) l else take (Z.to_nat n) l.

(** The loop of [get_all_products]. *)
Fixpoint get_all_products_loop (fuel : nat) (page : Z) (all : list A)
    (total_count : option Z) : option (exn + list A) :=
  match fuel with
  | O => None
  | S fuel' =>
    match get 100 page with
    | inl e => Some (inl e)
    | inr response =>
      let products := l_results response in
      let total_count := default (l_count response) total_count in
      match products with
      | [] => Some (inr all)
      | _ =>
        let all := all ++ products in
        if Z.of_nat (length all) >=? total_count
        then Some (inr (slice_to all total_count))
        else if Z.of_nat (length products) <? 100 then Some (inr all)
        else get_all_products_loop fuel' (page + 1) all (Some total_count)
      end
    end
  end.

Definition get_all_products (fuel : nat) : option (exn + list A) :=
  get_all_products_loop fuel 0 [] None.

(** The results of the pages [page], [page + 1], ... [page + n - 1], one
    after the other. *)
Fixpoint pages_from (page : Z) (n : nat) : list A :=
  match n with
  | O => []
  | S n' =>
    match get 100 page with
    | inr response => l_results response ++ pages_from (page + 1) n'
    | inl _ => []
    end
  end.

End Loops.

(** A source of three records on two pages, for the examples; the first
    page reports a count of 3. *)
Definition two_pages : pager Z :=
  fun _ page =>
    if page =? 0 then inr {| l_results := [1; 2]; l_next := true; l_count := 3 |}
    else if page =? 1
    then inr {| l_results := [3]; l_next := false; l_count := 3 |}
    else inr {| l_results := []; l_next := false; l_count := 3 |}.

(** A source whose only page holds more products than it counts. *)
Definition overfull_page : pager Z :=
  fun _ _ => inr {| l_results := [1; 2; 3; 4]; l_next := false; l_count := 3 |}.

End Paging.

(** ** Tables over time *)

Module Tables.
Import Staging.

(** The table [t'] holds every id of [t], and keeps the UNIQUE
    constraint if [t] does. *)
Definition grows {K : EntityKind} (t t' : list (row K)) : Prop :=
  (unique_ids t -> unique_ids t') /\
  (forall i, i ∈ map cratejoy_id t -> i ∈ map cratejoy_id t').

End Tables.

(** ** utils/subscriptions.py: the third entity kind *)

Module Subscriptions.
Import Staging Collector.

(** A subscription as the source API returns it. *)
Record Subscription := mkSubscription {
  s_id : option Z;
  s_rest : string
}.

(** Its staging row has no indexed attribute: the upsert writes
    [(cratejoy_id, raw_data, fetched_at)]. *)
Definition SubscriptionKind : EntityKind :=
  {| record := Subscription;
     rec_id := s_id;
     attr := unit;
     rec_attr := fun _ => tt |}.

Definition _process_subscription_batch := @process_batch SubscriptionKind.
Definition collect_subscriptions := @collect SubscriptionKind.

(** A batch for the examples: the subscription 4 twice, one without an
    id, and the subscription 5. *)
Definition subscription_n (n : Z) (rest : string) : Subscription :=
  {| s_id := Some n; s_rest := rest |}.

Definition mixed_batch : list Subscription :=
  [subscription_n 4 "old"; {| s_id := None; s_rest := "no id" |};
   subscription_n 5 "five"; subscription_n 4 "new"].

(** Two pages of one subscription each, the first with a [next] that
    cannot be parsed, and then an empty page. *)
Definition garbled_cursor : world SubscriptionKind :=
  {| is_running := fun _ => true;
     stop_callback := fun _ => inr false;
     progress_callback := fun _ => inr tt;
     fetch := fun _ _ p =>
       if (0 <=? p) && (p <? 2)
       then inr (@mkPage SubscriptionKind [subscription_n (p + 1) "s"]
                   NextGarbled)
       else inr (@mkPage SubscriptionKind [] NoNext);
     session := fun _ => healthy 0 |}.

End Subscriptions.

(** ** utils/audit_tool.py: the page audit and the gap search *)

Module Audits.
Import Staging Auditor.

(** [db_data != customer], on documents: the payload of a row is the
    document that was staged ([json.loads] of its [json.dumps]). *)
Definition Customer_eq_dec (a b : Customer) : {a = b} + {a <> b}.
Proof. repeat decide equality. Defined.

(** The ids a page lists, in order: [customer.get('id')] where it is
    truthy. *)
Definition listed_ids (customers : list Customer) : list Z :=
  omap (fun c => if Py.truthy (c_id c) then c_id c else None) customers.

(** Did the fetch of a page raise? *)
Definition fetch_fails (api : source_api) (batch_size p : Z) : bool :=
  match api batch_size p with
  | inl _ => true
  | inr _ => false
  end.

(** *** [audit_specific_page] *)

(** An entry of [data_issues].  The staging table of the model holds
    documents, so the entry for a payload that is not JSON has no
    counterpart here. *)
Inductive data_issue :=
| missing_customer_id (customer_data : Customer)
| data_mismatch (customer_id : Z) (api_email db_email : option string).

(** An entry of [missing_customers]: the id, and the document its [email]
    and [data_size] are read from. *)
Record missing_customer := mkMissing {
  m_customer_id : Z;
  m_customer : Customer
}.

Record page_audit := mkPageAudit {
  pa_page : Z;
  pa_api_count : Z;
  db_count : Z;
  missing_customers : list missing_customer;
  present_customers : list Z;
  data_issues : list data_issue
}.

(** The body of [for customer in api_customers]. *)
Definition audit_customer (t : customers_table) (a : page_audit)
    (customer : Customer) : page_audit :=
  if Py.truthy (c_id customer) then
    let customer_id := default 0 (c_id customer) in
    match lookup_row customer_id t with
    | Some db_result =>
      {| pa_page := pa_page a;
         pa_api_count := pa_api_count a;
         db_count := db_count a + 1;
         missing_customers := missing_customers a;
         present_customers := present_customers a ++ [customer_id];
         data_issues :=
           if Customer_eq_dec (raw_data db_result) customer
           then data_issues a
           else data_issues a ++
                [data_mismatch customer_id (c_email customer)
                   (c_email (raw_data db_result))] |}
    | None =>
      {| pa_page := pa_page a;
         pa_api_count := pa_api_count a;
         db_count := db_count a;
         missing_customers :=
           missing_customers a ++
           [{| m_customer_id := customer_id; m_customer := customer |}];
         present_customers := present_customers a;
         data_issues := data_issues a |}
    end
  else
    {| pa_page := pa_page a;
       pa_api_count := pa_api_count a;
       db_count := db_count a;
       missing_customers := missing_customers a;
       present_customers := present_customers a;
       data_issues := data_issues a ++ [missing_customer_id customer] |}.

(** [audit_specific_page]: the page's audit, or the error entry when the
    fetch raised. *)
Definition audit_specific_page (api : source_api) (t : customers_table)
    (page batch_size : Z) : exn + page_audit :=
  match api batch_size page with
  | inl e => inl e
  | inr api_customers =>
    inr (fold_left (audit_customer t) api_customers
           {| pa_page := page;
              pa_api_count := Z.of_nat (length api_customers);
              db_count := 0;
              missing_customers := [];
              present_customers := [];
              data_issues := [] |})
  end.

(** *** [find_customer_id_gaps] *)

(** [SELECT cratejoy_id ... WHERE cratejoy_id BETWEEN :start AND :end
    ORDER BY cratejoy_id], then the set difference with
    [range(start_id, end_id + 1)], sorted. *)
Definition find_customer_id_gaps (start_id end_id : Z) (t : customers_table)
    : list Z :=
  let result :=
    merge_sort Z.le
      (filter (fun i => start_id <= i <= end_id) (map cratejoy_id t)) in
  let existing_ids : gset Z := list_to_set result in
  let expected_ids : gset Z :=
    list_to_set (seqZ start_id (end_id + 1 - start_id)) in
  let missing_ids := expected_ids ∖ existing_ids in
  merge_sort Z.le (elements missing_ids).

(** Concrete sources and tables for the examples.  Pages 0..3 hold two
    customers each, the fetch of page 1 fails, and the pages from 4 on are
    empty. *)
Definition flaky_source : source_api :=
  fun _ p =>
    if p =? 1 then inl RequestException
    else if (0 <=? p) && (p <? 4)
         then inr [Collector.customer_n (2 * p + 1);
                   Collector.customer_n (2 * p + 2)]
         else inr [].

(** Pages 0..3 hold one document without an id each, the fetch of page 1
    fails, and the pages from 4 on are empty. *)
Definition idless_source : source_api :=
  fun _ p =>
    if p =? 1 then inl RequestException
    else if (0 <=? p) && (p <? 4)
         then inr [{| c_id := None; c_email := None;
                      c_subscription_status := None; c_rest := "{}" |}]
         else inr [].

(** Page 0 holds customer 1, a document without an id and customer 2; the
    other pages are empty. *)
Definition one_page : source_api :=
  fun _ p =>
    if p =? 0
    then inr [Collector.customer_n 1;
              {| c_id := None; c_email := None;
                 c_subscription_status := None; c_rest := "{}" |};
              Collector.customer_n 2]
    else inr [].

End Audits.

(** ** utils/shopify_migrator.py: the requests of a run *)

Module Runs.
Import Staging Migrator.

(** Is the event a request to the target API? *)
Definition is_request (e : event) : bool :=
  match e with
  | ApiCreateCustomer _ | ApiAddTags _ | ApiCreateOrder _
  | ApiCreateMetafield _ => true
  | _ => false
  end.

(** The requests a trace sends to the target API, in order. *)
Definition api_writes (tr : list event) : list event :=
  filter (fun e => is_request e = true) tr.

(** A target that rejects every customer. *)
Definition customer_rejected : target :=
  {| map_customer := fun _ => inr "customer"%string;
     create_customer := fun _ _ => inl (HTTPError 422);
     add_customer_tags := fun _ _ => inr tt;
     map_order := fun o _ => inr (order_payload (default 0 (o_id o)));
     create_order := fun _ _ => inr (Some 1);
     create_customer_metafield := fun _ _ => inr tt |}.

End Runs.

(** ** verify_data_integrity.py *)

Module Integrity.

(** The loop of [analyze_id_gaps] over the neighbours
    [sorted_ids[i], sorted_ids[i + 1]]. *)
Fixpoint gaps_of_sorted (sorted_ids : list Z) : list (Z * Z) :=
  match sorted_ids with
  | [] => []
  | current_id :: rest =>
    match rest with
    | [] => []
    | next_id :: _ =>
      if next_id - current_id >? 1000
      then (current_id, next_id) :: gaps_of_sorted rest
      else gaps_of_sorted rest
    end
  end.

(** [analyze_id_gaps]. *)
Definition analyze_id_gaps (collected_ids : gset Z) : list (Z * Z) :=
  if decide (collected_ids = ∅) then []
  else
    let sorted_ids := merge_sort Z.le (elements collected_ids) in
    gaps_of_sorted sorted_ids.

End Integrity.

(** ** Sources for the examples of the collectors *)

Module Sources.
Import Staging Collector.

(** A collection run against a source that is down. *)
Definition source_down : world OrderKind :=
  {| is_running := fun _ => true;
     stop_callback := fun _ => inr false;
     progress_callback := fun _ => inr tt;
     fetch := fun _ _ _ => inl RequestException;
     session := fun _ => healthy 0 |}.

(** Two pages of orders, the first with an order that carries no id,
    then an empty page. *)
Definition order_pages (k : nat) : page OrderKind :=
  match k with
  | O => @mkPage OrderKind
           [Migrator.order_n 1;
            {| o_id := None; o_customer_id := Some 7; o_rest := "{}" |}]
           (NextPage 1)
  | _ => @mkPage OrderKind [Migrator.order_n 2] (NextPage 2)
  end.

Definition two_order_pages : world OrderKind :=
  {| is_running := fun _ => true;
     stop_callback := fun _ => inr false;
     progress_callback := fun _ => inr tt;
     fetch := fun _ _ p =>
       if (0 <=? p) && (p <? 2)
       then inr (order_pages (Z.to_nat p))
       else inr (@mkPage OrderKind [] NoNext);
     session := fun _ => healthy 0 |}.

End Sources.

(** * Properties *)

(** ** The adaptive rate limiter *)

Module RateLimiterProps.
Import RateLimiter.
Local Open Scope Q_scope.

Lemma py_max_lower (a b : Q) : a <= Py.max a b.
Proof.
  unfold Py.max. destruct (Qlt_le_dec a b) as [H | H].
  - apply Qlt_le_weak, H.
  - apply Qle_refl.
Qed.

Lemma py_min_lower (a b c : Q) : c <= a -> c <= b -> c <= Py.min a b.
Proof. intros Ha Hb. unfold Py.min. destruct (Qlt_le_dec b a); assumption. Qed.

Lemma min_rate_step (l : AdaptiveRateLimiter) (c : call) :
  min_rate (step l c) = min_rate l /\ max_rate (step l c) = max_rate l.
Proof.
  destruct c as [ | | ra]; cbn [step].
  - unfold on_success. destruct (negb _); auto.
  - unfold on_error. destruct (negb _); auto.
  - unfold on_rate_limit_error. auto.
Qed.

Lemma min_rate_run (cs : list call) (l : AdaptiveRateLimiter) :
  min_rate (run cs l) = min_rate l /\ max_rate (run cs l) = max_rate l.
Proof.
  revert l. induction cs as [ | c cs IH]; intros l; [auto | ].
  cbn [run fold_left]. destruct (IH (step l c)) as [H1 H2].
  destruct (min_rate_step l c) as [H3 H4].
  unfold run in *. rewrite H1, H2. auto.
Qed.

(** One call without a retry-after keeps the rate at or above the floor,
    provided the floor is below the ceiling. *)
Lemma floor_step (l : AdaptiveRateLimiter) (c : call) :
  no_retry_after c ->
  0 < min_rate l -> min_rate l <= max_rate l ->
  min_rate l <= current_rate l ->
  min_rate l <= current_rate (step l c).
Proof.
  intros Hc Hpos Hmm Hinv.
  destruct c as [ | | ra]; cbn [step].
  - unfold on_success. destruct (negb _); [ | exact Hinv].
    cbn [set_rate current_rate]. apply py_min_lower; [exact Hmm | ].
    apply Qle_trans with (current_rate l); [exact Hinv | ].
    assert (H0 : 0 < current_rate l).
    { apply Qlt_le_trans with (min_rate l); [exact Hpos | exact Hinv]. }
    rewrite <- (Qmult_1_r (current_rate l)) at 1.
    apply (Qmult_le_l 1 1.1 (current_rate l) H0). discriminate.
  - unfold on_error. destruct (negb _); [ | exact Hinv].
    cbn [set_rate current_rate]. apply py_max_lower.
  - destruct ra as [n | ]; [destruct Hc | ].
    unfold on_rate_limit_error. cbn [Py.truthy set_rate current_rate].
    apply py_max_lower.
Qed.

Lemma floor_run (cs : list call) (l : AdaptiveRateLimiter) :
  Forall no_retry_after cs ->
  0 < min_rate l -> min_rate l <= max_rate l ->
  min_rate l <= current_rate l ->
  min_rate l <= current_rate (run cs l).
Proof.
  revert l. induction cs as [ | c cs IH]; intros l Hcs Hpos Hmm Hinv.
  - exact Hinv.
  - inversion Hcs as [ | ? ? Hc Hcs' ]; subst.
    cbn [run fold_left]. destruct (min_rate_step l c) as [E1 E2].
    pose proof (IH (step l c) Hcs') as H. unfold run in H.
    rewrite E1, E2 in H. apply H; try assumption.
    apply floor_step; assumption.
Qed.

Lemma positive_step (l : AdaptiveRateLimiter) (c : call) :
  no_retry_after c ->
  0 < min_rate l -> 0 < max_rate l ->
  0 < current_rate l ->
  0 < current_rate (step l c).
Proof.
  intros Hc Hmin Hmax Hcur.
  destruct c as [ | | ra]; cbn [step].
  - unfold on_success. destruct (negb _); [ | exact Hcur].
    cbn [set_rate current_rate]. unfold Py.min.
    destruct (Qlt_le_dec _ _); [ | exact Hmax].
    apply Qmult_lt_0_compat; [exact Hcur | reflexivity].
  - unfold on_error. destruct (negb _); [ | exact Hcur].
    cbn [set_rate current_rate].
    apply Qlt_le_trans with (min_rate l); [exact Hmin | apply py_max_lower].
  - destruct ra as [n | ]; [destruct Hc | ].
    unfold on_rate_limit_error. cbn [Py.truthy set_rate current_rate].
    apply Qlt_le_trans with (min_rate l); [exact Hmin | apply py_max_lower].
Qed.

Lemma positive_run (cs : list call) (l : AdaptiveRateLimiter) :
  Forall no_retry_after cs ->
  0 < min_rate l -> 0 < max_rate l ->
  0 < current_rate l ->
  0 < current_rate (run cs l).
Proof.
  revert l. induction cs as [ | c cs IH]; intros l Hcs Hmin Hmax Hcur.
  - exact Hcur.
  - inversion Hcs as [ | ? ? Hc Hcs' ]; subst.
    cbn [run fold_left]. destruct (min_rate_step l c) as [E1 E2].
    pose proof (IH (step l c) Hcs') as H. unfold run in H.
    rewrite E1, E2 in H. apply H; try assumption.
    apply positive_step; assumption.
Qed.

(** A back-off call without a retry-after lifts any rate to the floor. *)
Lemma floor_after_backoff (l : AdaptiveRateLimiter) (c : call) :
  is_backoff c -> min_rate l <= current_rate (step l c).
Proof.
  destruct c as [ | | [n | ]]; cbn [is_backoff step]; intros H;
    try destruct H.
  - unfold on_error. destruct (negb (Qeq_bool _ _)) eqn:E.
    + apply py_max_lower.
    + apply negb_false_iff, Qeq_bool_iff in E.
      rewrite <- E. apply py_max_lower.
  - apply py_max_lower.
Qed.

(** The rate is at or above the floor at the end of a run that started
    there or that contains a back-off call. *)
Lemma floor_run_or_backoff (cs : list call) (l : AdaptiveRateLimiter) :
  Forall no_retry_after cs ->
  0 < min_rate l -> min_rate l <= max_rate l ->
  min_rate l <= current_rate l \/ Exists is_backoff cs ->
  min_rate l <= current_rate (run cs l).
Proof.
  revert l. induction cs as [ | c cs IH]; intros l Hcs Hpos Hmm Hor.
  - destruct Hor as [H | H]; [exact H | inversion H].
  - inversion Hcs as [ | ? ? Hc Hcs' ]; subst.
    cbn [run fold_left]. destruct (min_rate_step l c) as [E1 E2].
    pose proof (IH (step l c) Hcs') as H. unfold run in H.
    rewrite E1, E2 in H. apply H; try assumption.
    destruct Hor as [Hfloor | Hex].
    + left. apply floor_step; assumption.
    + inversion Hex as [? ? Hb | ? ? Hex']; subst.
      * left. apply floor_after_backoff, Hb.
      * right. exact Hex'.
Qed.

(** C7, as the specification states it, fails: a limiter started at the
    positive rate 0.05, below the floor 0.1, is still below the floor
    after [on_success()]. *)
Lemma start_below_floor_stays_below :
  0 < 0.05 /\
  Forall no_retry_after [OnSuccess] /\
  current_rate (run [OnSuccess] (AdaptiveRateLimiter_init 0.05))
  < min_rate (run [OnSuccess] (AdaptiveRateLimiter_init 0.05)).
Proof.
  split; [reflexivity | ]. split; [ | reflexivity].
  constructor; [exact I | constructor].
Qed.

(** C7 (amended).  For every finite sequence of [on_success()],
    [on_error()] and [on_rate_limit_error()] calls none of which supplies
    a retry-after: started from any positive rate, the current rate stays
    strictly positive; it is at or above the floor 0.1 at the end of the
    sequence when the limiter started at or above the floor (the default
    2.0 is such a rate) or when the sequence contains an [on_error()] or
    an [on_rate_limit_error()] call, so that no number of consecutive
    [on_rate_limit_error()] calls drives it below the floor. *)
Theorem adaptive_rate_floor (r0 : Q) (cs : list call) :
  Forall no_retry_after cs ->
  0 < r0 ->
  let l := run cs (AdaptiveRateLimiter_init r0) in
  0 < current_rate l /\
  (0.1 <= r0 \/ Exists is_backoff cs ->
   min_rate l = 0.1 /\ min_rate l <= current_rate l).
Proof.
  intros Hcs Hpos l.
  destruct (min_rate_run cs (AdaptiveRateLimiter_init r0)) as [E1 E2].
  fold l in E1, E2. cbn in E1, E2. split.
  - apply positive_run; [exact Hcs | reflexivity | reflexivity | exact Hpos].
  - intros Hfloor. split; [exact E1 | ]. rewrite E1.
    apply (floor_run_or_backoff cs (AdaptiveRateLimiter_init r0)); cbn;
      [exact Hcs | reflexivity | discriminate | exact Hfloor].
Qed.

(** Scenario C of the specification: from 2 requests per second, three
    [on_rate_limit_error()] calls in a row leave the rate at 0.25, above
    the floor. *)
Lemma adaptive_rate_floor_witness :
  0 < current_rate
        (run [OnRateLimited None; OnRateLimited None; OnRateLimited None]
             (AdaptiveRateLimiter_init 2.0)) /\
  min_rate
    (run [OnRateLimited None; OnRateLimited None; OnRateLimited None]
         (AdaptiveRateLimiter_init 2.0))
  <= current_rate
       (run [OnRateLimited None; OnRateLimited None; OnRateLimited None]
            (AdaptiveRateLimiter_init 2.0)).
Proof.
  assert (Hcalls : Forall no_retry_after
            [OnRateLimited None; OnRateLimited None; OnRateLimited None]).
  { repeat constructor. }
  assert (Hpos : 0 < 2.0) by reflexivity.
  assert (Hfloor : 0.1 <= 2.0) by discriminate.
  destruct (adaptive_rate_floor 2.0
              [OnRateLimited None; OnRateLimited None; OnRateLimited None]
              Hcalls Hpos) as [H1 H2].
  split; [exact H1 | exact (proj2 (H2 (or_introl Hfloor)))].
Defined.

(** From below the floor, the first back-off call lifts the rate to it. *)
Example three_rate_limits_from_below_the_floor :
  current_rate
    (run [OnRateLimited None; OnRateLimited None; OnRateLimited None]
         (AdaptiveRateLimiter_init 0.05)) == 0.1.
Proof. reflexivity. Qed.

Example three_rate_limits_from_two :
  current_rate
    (run [OnRateLimited None; OnRateLimited None; OnRateLimited None]
         (AdaptiveRateLimiter_init 2.0)) == 0.25.
Proof. reflexivity. Qed.

(** C10.  For every positive integer [retry_after], whatever the limiter
    went through before, [on_rate_limit_error(retry_after)] sets the
    current rate (and the rate of the underlying limiter) to exactly
    [1.0 / retry_after], without clamping: when [retry_after] is above 10
    the new rate is strictly below the floor 0.1.  The floor is applied in
    the other branch only, where no retry-after is supplied. *)
Theorem retry_after_sets_rate_unclamped (r0 : Q) (cs : list call)
    (retry_after : Z) :
  (0 < retry_after)%Z ->
  let l := run cs (AdaptiveRateLimiter_init r0) in
  let l' := on_rate_limit_error (Some retry_after) l in
  current_rate l' = 1.0 / inject_Z retry_after /\
  requests_per_second (base_limiter l') = 1.0 / inject_Z retry_after /\
  min_rate l' = 0.1 /\
  ((10 < retry_after)%Z -> current_rate l' < min_rate l') /\
  current_rate (on_rate_limit_error None l)
  = Py.max (min_rate l) (current_rate l * 0.5).
Proof.
  intros Hpos l l'.
  assert (Ht : Py.truthy (Some retry_after) = true).
  { cbn. destruct (Z.eqb_spec retry_after 0); [lia | reflexivity]. }
  assert (Hmin : min_rate l' = 0.1).
  { unfold l', on_rate_limit_error. cbn [set_rate min_rate].
    apply (min_rate_run cs (AdaptiveRateLimiter_init r0)). }
  assert (Hcur : current_rate l' = 1.0 / inject_Z retry_after).
  { unfold l', on_rate_limit_error. rewrite Ht. reflexivity. }
  split; [exact Hcur | ]. split.
  { unfold l', on_rate_limit_error. rewrite Ht. reflexivity. }
  split; [exact Hmin | ]. split; [ | reflexivity].
  intros Hbig. rewrite Hcur, Hmin.
  unfold Qlt, Qdiv, Qinv, Qmult, inject_Z.
  destruct retry_after as [ | p | p]; [lia | | lia].
  cbn. lia.
Qed.

Lemma retry_after_sets_rate_unclamped_witness :
  current_rate (on_rate_limit_error (Some 30%Z) (AdaptiveRateLimiter_init 2.0))
  < min_rate (on_rate_limit_error (Some 30%Z) (AdaptiveRateLimiter_init 2.0)).
Proof.
  apply (retry_after_sets_rate_unclamped 2.0 [] 30%Z); [lia | lia].
Defined.

End RateLimiterProps.

(** ** The API clients *)

Module ClientProps.
Import Client.

Lemma length_sent_send (rq : request) (st : io) :
  length (sent (send rq st)) = S (length (sent st)).
Proof. cbn. rewrite length_app. cbn. lia. Qed.

Lemma not_429_status (r : response) :
  ~ is_429 (Resp r) -> (status_code r =? 429) = false.
Proof. cbn. intros H. apply Z.eqb_neq. exact H. Qed.

(** After [length ds] rate-limited answers and one that is not,
    [ShopifyClient._make_request] has sent the request [length ds + 1]
    times and slept once per 429. *)
Lemma shopify_retries (ds : list Z) :
  forall (depth : nat) (srv : server) (rq : request) (st : io),
    (length ds < depth)%nat ->
    shopify_limited_from srv (length (sent st)) ds ->
    ~ is_429 (srv (length (sent st) + length ds)%nat) ->
    ShopifyClient._make_request depth srv rq st =
    (final_result (srv (length (sent st) + length ds)%nat),
     {| sent := sent st ++ repeat rq (S (length ds));
        slept := slept st ++ ds |}).
Proof.
  induction ds as [ | d ds IH]; intros depth srv rq st Hd Hlim Hfin.
  - destruct depth as [ | depth]; [cbn in Hd; lia | ].
    cbn [length] in *. rewrite Nat.add_0_r in *.
    cbn [ShopifyClient._make_request repeat]. rewrite app_nil_r.
    destruct (srv (length (sent st))) as [ | r]; [reflexivity | ].
    rewrite (not_429_status r Hfin). cbn [final_result].
    destruct (raise_for_status r); reflexivity.
  - destruct depth as [ | depth]; [cbn in Hd; lia | ].
    cbn [length] in Hd. destruct Hlim as [Hnow Hrest].
    cbn [ShopifyClient._make_request].
    destruct (srv (length (sent st))) as [ | r] eqn:Er; [destruct Hnow | ].
    cbn [shopify_limited] in Hnow. destruct Hnow as (Hs & Hnn & Hh).
    rewrite Hs. cbn [Z.eqb Pos.eqb].
    set (st' := sleep d (send rq st)).
    assert (Hlen : length (sent st') = S (length (sent st))).
    { apply length_sent_send. }
    assert (Hrec : ShopifyClient._make_request depth srv rq st' =
              (final_result (srv (length (sent st) + S (length ds))%nat),
               {| sent := sent st ++ repeat rq (S (S (length ds)));
                  slept := slept st ++ d :: ds |})).
    { rewrite (IH depth srv rq st'); [ | lia | rewrite Hlen; exact Hrest
                                       | rewrite Hlen;
                                         replace (S (length (sent st)) + length ds)%nat
                                           with (length (sent st) + S (length ds))%nat by lia;
                                         exact Hfin ].
      rewrite Hlen.
      replace (S (length (sent st)) + length ds)%nat
        with (length (sent st) + S (length ds))%nat by lia.
      f_equal. unfold st'. cbn [sent slept sleep send].
      rewrite <- !app_assoc. reflexivity. }
    cbn [length].
    destruct (retry_after r) as [ | n | ] eqn:Eh.
    + subst d. cbn [Z.ltb Z.compare]. exact Hrec.
    + subst d. destruct (Z.ltb_spec n 0); [lia | exact Hrec].
    + destruct Hh.
Qed.

(** The same for [CratejoyClient._make_request], which sleeps 60 seconds
    on every 429. *)
Lemma cratejoy_retries (k : nat) :
  forall (depth : nat) (srv : server) (rq : request) (st : io),
    (k < depth)%nat ->
    limited_from srv (length (sent st)) k ->
    ~ is_429 (srv (length (sent st) + k)%nat) ->
    CratejoyClient._make_request depth srv rq st =
    (final_result (srv (length (sent st) + k)%nat),
     {| sent := sent st ++ repeat rq (S k);
        slept := slept st ++ repeat 60 k |}).
Proof.
  induction k as [ | k IH]; intros depth srv rq st Hd Hlim Hfin.
  - destruct depth as [ | depth]; [lia | ].
    rewrite Nat.add_0_r in *.
    cbn [CratejoyClient._make_request repeat]. rewrite app_nil_r.
    destruct (srv (length (sent st))) as [ | r]; [reflexivity | ].
    cbn [final_result]. rewrite (not_429_status r Hfin).
    destruct (raise_for_status r); reflexivity.
  - destruct depth as [ | depth]; [lia | ].
    destruct Hlim as [Hnow Hrest].
    cbn [CratejoyClient._make_request].
    destruct (srv (length (sent st))) as [ | r] eqn:Er; [destruct Hnow | ].
    cbn [is_429] in Hnow. unfold raise_for_status. rewrite Hnow.
    cbn [Z.leb Z.ltb Z.compare Pos.compare Pos.compare_cont andb Z.eqb Pos.eqb].
    set (st' := sleep 60 (send rq st)).
    assert (Hlen : length (sent st') = S (length (sent st))).
    { apply length_sent_send. }
    rewrite (IH depth srv rq st'); [ | lia | rewrite Hlen; exact Hrest
                                     | rewrite Hlen;
                                       replace (S (length (sent st)) + k)%nat
                                         with (length (sent st) + S k)%nat by lia;
                                       exact Hfin ].
    rewrite Hlen.
    replace (S (length (sent st)) + k)%nat
      with (length (sent st) + S k)%nat by lia.
    f_equal. unfold st'. cbn [sent slept sleep send repeat].
    rewrite <- !app_assoc. reflexivity.
Qed.

(** C4, as the specification states it, fails: a server that answers 429
    twice and then 200 makes either client send the request three times,
    the original and two retries, with a sleep before each retry. *)
Lemma two_retries_for_one_request :
  ShopifyClient._make_request 1000 twice_limited get_shop io0 =
    (inr "{}"%string,
     {| sent := [get_shop; get_shop; get_shop]; slept := [1; 1] |}) /\
  CratejoyClient._make_request 1000 twice_limited get_shop io0 =
    (inr "{}"%string,
     {| sent := [get_shop; get_shop; get_shop]; slept := [60; 60] |}).
Proof. split; reflexivity. Qed.

(** C4 (amended).  For every API request that receives a rate-limit (429)
    response the client can sleep on (Cratejoy: every 429; Shopify: a 429
    whose [Retry-After] is absent or a non-negative integer), the client
    sleeps (Shopify: for the [Retry-After] of the response, 2 seconds
    when there is none; Cratejoy: for 60 seconds) and then sends the same
    request again; the retry is handled like the original request, so a
    request answered by [k] such 429 responses in a row is retried [k]
    times, after [k] sleeps, and what is surfaced to the caller is the
    outcome of the first answer that is not a 429.  (The retries nest as
    calls; [depth] bounds their number.) *)
Theorem rate_limit_retries_until_other_answer (depth : nat) (srv : server)
    (rq : request) (ds : list Z) :
  (length ds < depth)%nat ->
  ~ is_429 (srv (length ds)) ->
  (shopify_limited_from srv 0 ds ->
   ShopifyClient._make_request depth srv rq io0 =
   (final_result (srv (length ds)),
    {| sent := repeat rq (S (length ds)); slept := ds |})) /\
  (limited_from srv 0 (length ds) ->
   CratejoyClient._make_request depth srv rq io0 =
   (final_result (srv (length ds)),
    {| sent := repeat rq (S (length ds));
       slept := repeat 60 (length ds) |})).
Proof.
  intros Hd Hfin. split; intros Hlim.
  - apply (shopify_retries ds depth srv rq io0 Hd Hlim Hfin).
  - apply (cratejoy_retries (length ds) depth srv rq io0 Hd Hlim Hfin).
Qed.

Lemma rate_limit_retries_until_other_answer_witness :
  ShopifyClient._make_request 5 twice_limited get_shop io0 =
  (final_result (twice_limited 2%nat),
   {| sent := repeat get_shop 3; slept := [1; 1] |}) /\
  CratejoyClient._make_request 5 twice_limited get_shop io0 =
  (final_result (twice_limited 2%nat),
   {| sent := repeat get_shop 3; slept := repeat 60 2 |}).
Proof.
  assert (Hdepth : (length [1; 1] < 5)%nat) by (cbn; lia).
  assert (Hlast : ~ is_429 (twice_limited (length [1; 1]))) by (cbn; lia).
  assert (Hs : shopify_limited_from twice_limited 0 [1; 1]).
  { cbn. repeat split; lia. }
  assert (Hc : limited_from twice_limited 0 (length [1; 1])).
  { cbn. repeat split; lia. }
  destruct (rate_limit_retries_until_other_answer 5 twice_limited get_shop
              [1; 1] Hdepth Hlast) as [H1 H2].
  split; [exact (H1 Hs) | exact (H2 Hc)].
Defined.

(** One 429 followed by another answer: one sleep and one retry, the part
    of C4 that holds as stated. *)
Example one_retry_after_one_429 (o : outcome) :
  ~ is_429 o ->
  let srv := fun n => match n with O => r429 | _ => o end in
  ShopifyClient._make_request 5 srv get_shop io0 =
    (final_result o, {| sent := [get_shop; get_shop]; slept := [1] |}).
Proof.
  intros Ho srv.
  apply (shopify_retries [1] 5 srv get_shop io0); cbn; [lia | | exact Ho].
  repeat split; lia.
Qed.

End ClientProps.

(** ** The staging store *)

Module StagingProps.
Import Staging.

Section Upsert.
Context {K : EntityKind}.
Implicit Types (r : row K) (t : list (row K)).

Lemma do_update_same_key r x :
  cratejoy_id x = cratejoy_id r -> do_update x r = r.
Proof. intros H. destruct r, x. cbn in *. subst. reflexivity. Qed.

(** The keys of the table after an upsert: unchanged when the key was
    there, one more at the end when it was not. *)
Lemma upsert_keys r t :
  map cratejoy_id (upsert r t) =
  if decide (cratejoy_id r ∈ map cratejoy_id t)
  then map cratejoy_id t
  else map cratejoy_id t ++ [cratejoy_id r].
Proof.
  induction t as [ | x t IH]; cbn [upsert map].
  - rewrite decide_False; [reflexivity | apply not_elem_of_nil].
  - destruct (Z.eqb_spec (cratejoy_id x) (cratejoy_id r)) as [E | E].
    + rewrite decide_True; [ | rewrite E; apply list_elem_of_here].
      reflexivity.
    + cbn [map]. rewrite IH.
      destruct (decide (cratejoy_id r ∈ map cratejoy_id t)) as [Hin | Hin].
      * rewrite decide_True; [reflexivity | apply list_elem_of_further, Hin].
      * rewrite decide_False; [reflexivity | ].
        intros H. apply elem_of_cons in H. destruct H; congruence.
Qed.

Lemma upsert_unique r t : unique_ids t -> unique_ids (upsert r t).
Proof.
  unfold unique_ids. intros H. rewrite upsert_keys.
  destruct (decide _) as [Hin | Hin]; [exact H | ].
  apply NoDup_app. split; [exact H | ]. split.
  - intros i Hi Hi'. apply list_elem_of_singleton in Hi'. subst. auto.
  - apply NoDup_singleton.
Qed.

Lemma upsert_all_unique rs t : unique_ids t -> unique_ids (upsert_all rs t).
Proof.
  revert t. induction rs as [ | r rs IH]; intros t H; [exact H | ].
  cbn. apply IH, upsert_unique, H.
Qed.

Lemma rows_with_absent i t :
  i ∉ map cratejoy_id t -> rows_with i t = [].
Proof.
  induction t as [ | x t IH]; intros H; [reflexivity | ].
  cbn [map] in H. apply not_elem_of_cons in H. destruct H as [H1 H2].
  unfold rows_with in *. rewrite filter_cons_False by congruence.
  apply IH, H2.
Qed.

(** Under the UNIQUE constraint, the rows with the upserted key are the
    upserted row and nothing else. *)
Lemma rows_with_upsert r t :
  unique_ids t -> rows_with (cratejoy_id r) (upsert r t) = [r].
Proof.
  unfold unique_ids. induction t as [ | x t IH]; intros H; cbn [upsert].
  - unfold rows_with. rewrite filter_cons_True by reflexivity. reflexivity.
  - cbn [map] in H. apply NoDup_cons in H. destruct H as [Hx Ht].
    destruct (Z.eqb_spec (cratejoy_id x) (cratejoy_id r)) as [E | E].
    + unfold rows_with. rewrite filter_cons_True by exact E.
      rewrite (do_update_same_key r x E). f_equal.
      apply rows_with_absent. rewrite <- E. exact Hx.
    + unfold rows_with. rewrite filter_cons_False by exact E.
      apply IH, Ht.
Qed.

Lemma rows_with_upsert_other i r t :
  i <> cratejoy_id r -> rows_with i (upsert r t) = rows_with i t.
Proof.
  intros Hne. induction t as [ | x t IH]; cbn [upsert].
  - unfold rows_with. rewrite filter_cons_False by congruence. reflexivity.
  - destruct (Z.eqb_spec (cratejoy_id x) (cratejoy_id r)) as [E | E].
    + unfold rows_with.
      rewrite !filter_cons_False; [reflexivity | congruence | cbn; congruence].
    + unfold rows_with in *. rewrite !filter_cons, IH. reflexivity.
Qed.

(** Once the transaction is aborted it stays so. *)
Lemma process_records_aborted env records :
  forall k collected failed,
    snd (process_records env k records
           (collected, failed, @None (list (row K)))) = None.
Proof.
  induction records as [ | c cs IH]; intros k collected failed;
    [reflexivity | ].
  cbn [process_records]. destruct (Py.truthy (rec_id K c)); apply IH.
Qed.

(** The transaction after the loop: aborted when a statement failed, and
    otherwise the upserts of the staged rows. *)
Lemma process_records_table env records :
  forall k collected failed t,
    snd (process_records env k records (collected, failed, Some t)) =
    if batch_aborts env k records then None
    else Some (upsert_all (staged_rows env k records) t).
Proof.
  induction records as [ | c cs IH]; intros k collected failed t;
    [reflexivity | ].
  cbn [process_records staged_rows batch_aborts].
  destruct (Py.truthy (rec_id K c)); [ | apply IH].
  destruct (execute_ok env k); [ | apply process_records_aborted].
  cbv zeta. destruct (_ && _); rewrite IH;
    destruct (batch_aborts env (S k) cs); reflexivity.
Qed.

(** Every record of a batch is counted, as collected or as failed (as
    both when the progress callback raised on it). *)
Lemma process_records_counts env records :
  forall k collected failed (transaction : option (list (row K))),
    let '(c', f', _) :=
      process_records env k records (collected, failed, transaction) in
    collected + failed + Z.of_nat (length records) <= c' + f'
    /\ collected <= c' <= collected + Z.of_nat (length records)
    /\ failed <= f' <= failed + Z.of_nat (length records).
Proof.
  induction records as [ | c cs IH]; intros k collected failed transaction.
  - cbn. lia.
  - cbn [process_records length].
    destruct (Py.truthy (rec_id K c));
      [destruct transaction as [t | ]; [destruct (execute_ok env k) | ] | ].
    + cbv zeta. destruct (_ && _).
      * specialize (IH (S k) (collected + 1) (failed + 1)
                       (Some (upsert (row_of (now env)
                                        (default 0 (rec_id K c)) c) t))).
        destruct (process_records _ _ _ _) as [[c' f'] t']. lia.
      * specialize (IH (S k) (collected + 1) failed
                       (Some (upsert (row_of (now env)
                                        (default 0 (rec_id K c)) c) t))).
        destruct (process_records _ _ _ _) as [[c' f'] t']. lia.
    + specialize (IH (S k) collected (failed + 1) None).
      destruct (process_records _ _ _ _) as [[c' f'] t']. lia.
    + specialize (IH (S k) collected (failed + 1) None).
      destruct (process_records _ _ _ _) as [[c' f'] t']. lia.
    + specialize (IH (S k) collected (failed + 1) transaction).
      destruct (process_records _ _ _ _) as [[c' f'] t']. lia.
Qed.

(** A batch whose commit raises leaves the table as it was and raises. *)
Lemma process_batch_rollback env records t :
  commit_ok env = false ->
  process_batch env records t = (inl DatabaseError, t).
Proof.
  intros H. unfold process_batch.
  destruct (process_records _ _ _ _) as [[c f] work]. rewrite H. reflexivity.
Qed.

(** A batch whose commit returns leaves the upserts of its staged rows,
    unless one of its statements failed: then it leaves the table as it
    was. *)
Lemma process_batch_commit env records t :
  commit_ok env = true ->
  snd (process_batch env records t) =
  if batch_aborts env 0 records then t
  else upsert_all (staged_rows env 0 records) t.
Proof.
  intros H. unfold process_batch.
  pose proof (process_records_table env records 0%nat 0 0 t) as E.
  destruct (process_records _ _ _ _) as [[c f] work]. rewrite H.
  cbn [snd] in E |- *. rewrite E.
  destruct (batch_aborts env 0 records); reflexivity.
Qed.

Lemma process_batch_unique env records t :
  unique_ids t -> unique_ids (snd (process_batch env records t)).
Proof.
  intros H. destruct (commit_ok env) eqn:E.
  - rewrite process_batch_commit by exact E.
    destruct (batch_aborts env 0 records); [exact H | ].
    apply upsert_all_unique, H.
  - rewrite process_batch_rollback by exact E. exact H.
Qed.

Lemma upsert_all_keeps_key i rs t :
  i ∈ map cratejoy_id t -> i ∈ map cratejoy_id (upsert_all rs t).
Proof.
  revert t. induction rs as [ | r rs IH]; intros t H; [exact H | ].
  cbn. apply IH. rewrite upsert_keys.
  destruct (decide _); [exact H | apply elem_of_app; left; exact H].
Qed.

Lemma upsert_has_key r t : cratejoy_id r ∈ map cratejoy_id (upsert r t).
Proof.
  rewrite upsert_keys. destruct (decide _) as [H | H]; [exact H | ].
  apply elem_of_app. right. apply list_elem_of_here.
Qed.

Lemma upsert_existing_length r t :
  cratejoy_id r ∈ map cratejoy_id t -> length (upsert r t) = length t.
Proof.
  intros H. rewrite <- (length_map cratejoy_id (upsert r t)), upsert_keys.
  rewrite decide_True by exact H. apply length_map.
Qed.

End Upsert.

(** Two collection passes over the same customer, through
    [_process_customer_batch]: one row, the second pass's payload and
    time. *)
Example second_pass_replaces :
  snd (_process_customer_batch (healthy 2) [alice "v2"]
         (snd (_process_customer_batch (healthy 1) [alice "v1"; bob] [])))
  = [@row_of CustomerKind 2 7 (alice "v2"); @row_of CustomerKind 1 9 bob].
Proof. reflexivity. Qed.

(** A statement that fails aborts the transaction of the batch: the
    statement after it is refused, the commit returns, and nothing is
    stored, not even the record that was counted as collected. *)
Example a_failed_statement_loses_the_batch :
  _process_customer_batch second_statement_fails
    [alice "v1"; bob; alice "v2"] []
  = (inr (1, 2), []).
Proof. reflexivity. Qed.

(** A record without a usable id ([None] or [0]) is counted as failed and
    writes nothing. *)
Example falsy_id_is_skipped (c : Customer) (t : list (row CustomerKind)) :
  Py.truthy (c_id c) = false ->
  _process_customer_batch (healthy 1) [c] t = (inr (0, 1), t).
Proof.
  intros H. unfold _process_customer_batch, process_batch. cbn.
  change (rec_id CustomerKind c) with (c_id c). rewrite H. reflexivity.
Qed.

End StagingProps.

(** ** The paginated collectors *)

Module CollectorProps.
Import Staging Collector.

Section Run.
Context {K : EntityKind}.
Variable w : world K.
Variables batch_size start_page : Z.

Lemma try_page_no_raise i s t e t' :
  try_page w batch_size i s t <> (inr (Raise e), t').
Proof.
  unfold try_page.
  destruct (fetch w i batch_size (current_page s)) as [e0 | response];
    [discriminate | ].
  destruct (results response) as [ | c cs]; [discriminate | ].
  destruct (process_batch _ _ _) as [[e0 | [bc bf]] t0]; [discriminate | ].
  destruct (next response); discriminate.
Qed.

Lemma on_page_error_no_raise s e :
  on_page_error batch_size start_page s <> Raise e.
Proof. unfold on_page_error. destruct (_ >? _); discriminate. Qed.

(** An iteration raises only what a callback raised. *)
Lemma collect_step_raise i s t e t' :
  collect_step w batch_size start_page i s t = (Raise e, t') ->
  stop_callback w i = inl e \/ progress_callback w i = inl e.
Proof.
  unfold collect_step. destruct (is_running w i); cbn [negb]; [ | discriminate].
  destruct (stop_callback w i) as [e0 | [ | ]];
    [left; congruence | discriminate | ].
  destruct (progress_callback w i) as [e0 | u]; [right; congruence | ].
  destruct (try_page w batch_size i s t) as [[e0 | f] t0] eqn:E.
  - intros H. inversion H as [[H1 H2]].
    exfalso. exact (on_page_error_no_raise s e H1).
  - intros H. inversion H; subst.
    exfalso. exact (try_page_no_raise i s t e t' E).
Qed.

(** A run raises only what a callback raised. *)
Lemma collect_loop_raise fuel :
  forall i s t e t',
    collect_loop w batch_size start_page fuel i s t = Some (inl e, t') ->
    exists j, stop_callback w j = inl e \/ progress_callback w j = inl e.
Proof.
  induction fuel as [ | fuel IH]; intros i s t e t'; [discriminate | ].
  cbn [collect_loop].
  destruct (collect_step w batch_size start_page i s t) as [[s' | s' | e0] t0] eqn:E.
  - apply IH.
  - discriminate.
  - intros H. inversion H; subst. exists i.
    apply (collect_step_raise i s t e t' E).
Qed.

(** When the fetch of a page raises, the iteration counts [batch_size]
    failures, moves to the next page number and leaves the table alone. *)
Lemma collect_step_fetch_error i s t e :
  is_running w i = true ->
  stop_callback w i = inr false ->
  progress_callback w i = inr tt ->
  fetch w i batch_size (current_page s) = inl e ->
  collect_step w batch_size start_page i s t =
  (on_page_error batch_size start_page s, t).
Proof.
  intros Hr Hs Hp Hf. unfold collect_step, try_page. rewrite Hr, Hs, Hp, Hf.
  reflexivity.
Qed.

(** The instrumented run returns the counters of the run. *)
Lemma collect_streaks_sound fuel :
  forall i streak worst s t s' m b,
    collect_streaks w batch_size start_page fuel i streak worst s t
    = Some (s', m, b) ->
    exists t', collect_loop w batch_size start_page fuel i s t
               = Some (inr s', t').
Proof.
  induction fuel as [ | fuel IH]; intros i streak worst s t s' m b;
    [discriminate | ].
  cbn [collect_streaks collect_loop].
  destruct (collect_step w batch_size start_page i s t) as [[s1 | s1 | e0] t0].
  - apply IH.
  - intros H. inversion H; subst. exists t0. reflexivity.
  - discriminate.
Qed.

(** When every fetch fails, [k] iterations from the start count [k] pages
    and reach page [start_page + k]. *)
Lemma failures_from_start (k : nat) :
  (forall i p, is_running w i = true /\ stop_callback w i = inr false /\
               progress_callback w i = inr tt /\
               exists e, fetch w i batch_size p = inl e) ->
  forall fuel i c f t,
    (k <= 10)%nat ->
    collect_loop w batch_size start_page (k + fuel) i
      {| collected := c; failed := f; current_page := start_page |} t =
    collect_loop w batch_size start_page fuel (k + i)
      {| collected := c; failed := f + Z.of_nat k * batch_size;
         current_page := start_page + Z.of_nat k |} t.
Proof.
  intros Hw. induction k as [ | k IH]; intros fuel i c f t Hk.
  - cbn [Nat.add]. do 2 f_equal; cbn; f_equal; lia.
  - replace (S k + fuel)%nat with (k + S fuel)%nat by lia.
    rewrite IH by lia. cbn [collect_loop].
    destruct (Hw (k + i)%nat (start_page + Z.of_nat k))
      as (Hr & Hs & Hp & e & Hf).
    rewrite (collect_step_fetch_error (k + i)
               {| collected := c; failed := f + Z.of_nat k * batch_size;
                  current_page := start_page + Z.of_nat k |} t e Hr Hs Hp Hf).
    unfold on_page_error. cbn [current_page collected Collector.failed].
    destruct (Z.gtb_spec (start_page + Z.of_nat k + 1 - start_page) 10); [lia | ].
    replace (S k + i)%nat with (S (k + i)) by lia.
    rewrite Nat2Z.inj_succ.
    replace (f + Z.of_nat k * batch_size + batch_size)
      with (f + Z.succ (Z.of_nat k) * batch_size) by ring.
    replace (start_page + Z.of_nat k + 1)
      with (start_page + Z.succ (Z.of_nat k)) by ring.
    reflexivity.
Qed.

(** An iteration either ends in the error handler, or it does not and
    then, when the cursor only moves forward, it does not move the page
    number back. *)
Lemma collect_step_cases i s t :
  forward w ->
  (page_failed w batch_size i s t = true /\
   fst (collect_step w batch_size start_page i s t)
   = on_page_error batch_size start_page s) \/
  (page_failed w batch_size i s t = false /\
   forall s' t', collect_step w batch_size start_page i s t = (Continue s', t') ->
                 current_page s <= current_page s').
Proof.
  intros Hfw. unfold page_failed, collect_step.
  destruct (is_running w i); cbn [negb andb];
    [ | right; split; [reflexivity | discriminate]].
  destruct (stop_callback w i) as [e | [ | ]];
    try (right; split; [reflexivity | discriminate]).
  destruct (progress_callback w i) as [e | u];
    [right; split; [reflexivity | discriminate] | ].
  destruct (try_page w batch_size i s t) as [[e | f] t0] eqn:E.
  - left. split; reflexivity.
  - right. split; [reflexivity | ]. intros s' t' H. inversion H; subst.
    unfold try_page in E.
    destruct (fetch w i batch_size (current_page s)) as [e | response] eqn:Ef;
      [discriminate | ].
    destruct (results response) as [ | c cs]; [discriminate | ].
    destruct (process_batch _ _ _) as [[e | [bc bf]] t1]; [discriminate | ].
    destruct (next response) as [ | n | ] eqn:En; inversion E; subst;
      cbn [current_page _parse_next_page].
    + apply (Hfw i batch_size (current_page s) response n Ef En).
    + lia.
Qed.

(** When the cursor only moves forward, a run never sees more than 11 page
    failures in a row: the guard of the error handler bounds the work
    wasted on a source that keeps failing. *)
Lemma streak_bound fuel :
  forward w ->
  forall i streak worst s t r m b,
    (worst <= 11)%nat ->
    (streak <= 10)%nat ->
    Z.of_nat streak <= current_page s - start_page ->
    collect_streaks w batch_size start_page fuel i streak worst s t
    = Some (r, m, b) ->
    (m <= 11)%nat.
Proof.
  intros Hfw. induction fuel as [ | fuel IH];
    intros i streak worst s t r m b Hw Hs Hp; [discriminate | ].
  cbn [collect_streaks].
  destruct (collect_step_cases i s t Hfw) as [[Hf Hstep] | [Hf Hstep]];
    rewrite Hf.
  - destruct (collect_step w batch_size start_page i s t) as [f t'].
    cbn [fst] in Hstep. subst f. unfold on_page_error.
    destruct (Z.gtb_spec (current_page
                {| collected := collected s;
                   failed := Collector.failed s + batch_size;
                   current_page := current_page s + 1 |} - start_page) 10)
      as [Hgt | Hle].
    + intros H. inversion H; subst. lia.
    + cbn [current_page] in Hle. apply IH; cbn [current_page]; lia.
  - destruct (collect_step w batch_size start_page i s t) as [[s' | s' | e] t']
      eqn:E.
    + specialize (Hstep s' t' eq_refl). apply IH; lia.
    + intros H. inversion H; subst. lia.
    + discriminate.
Qed.

(** When every fetch fails from the first iteration on, the run stops
    after exactly 11 failures: here the guard of the error handler and a
    bound of 10 on failures in a row agree. *)
Lemma all_pages_fail (fuel : nat) (t : list (row K)) :
  (forall i p, is_running w i = true /\ stop_callback w i = inr false /\
               progress_callback w i = inr tt /\
               exists e, fetch w i batch_size p = inl e) ->
  collect w batch_size start_page (11 + fuel) t =
  Some (inr {| collected := 0; failed := 11 * batch_size;
               current_page := start_page + 11 |}, t).
Proof.
  intros Hw. unfold collect.
  replace (11 + fuel)%nat with (10 + S fuel)%nat by lia.
  rewrite (failures_from_start 10 Hw (S fuel) 0%nat 0 0 t) by lia.
  cbn [collect_loop].
  destruct (Hw (10 + 0)%nat (start_page + Z.of_nat 10))
    as (Hr & Hs & Hp & e & Hf).
  rewrite (collect_step_fetch_error (10 + 0)
             {| collected := 0; failed := 0 + Z.of_nat 10 * batch_size;
                current_page := start_page + Z.of_nat 10 |} t e Hr Hs Hp Hf).
  unfold on_page_error. cbn [current_page collected Collector.failed].
  destruct (Z.gtb_spec (start_page + Z.of_nat 10 + 1 - start_page) 10); [ | lia].
  do 3 f_equal. f_equal; lia.
Qed.

End Run.

(** C2 (the code departs from the claim).  Pages 0 to 10 are fetched and
    stored, the fetch of page 11 fails once: [collect_customers] counts
    [batch_size] failures, moves to page 12 and ends the run there,
    although page 12 is available.  The longest streak of page failures in
    this run is 1, and the run ended on the [break] of the error handler. *)
Theorem one_failure_after_ten_pages_aborts :
  collect_customers one_error_at_page_11 1 0 20 [] =
    Some (inr {| collected := 11; failed := 1; current_page := 12 |},
          map (fun n => @row_of CustomerKind 0 n (customer_n n)) (seqZ 1 11))
  /\
  collect_streaks one_error_at_page_11 1 0 20 0 0 0
    {| collected := 0; failed := 0; current_page := 0 |} [] =
    Some ({| collected := 11; failed := 1; current_page := 12 |}, 1%nat, true)
  /\
  (exists p, fetch one_error_at_page_11 12 1 12 = inr p /\ results p <> []).
Proof.
  split; [vm_compute; reflexivity | ].
  split; [vm_compute; reflexivity | ].
  eexists. split; [vm_compute; reflexivity | discriminate].
Qed.

(** C3, as the specification states it, fails: the commit of the first
    batch fails, and the run neither raises nor stops; it counts
    [batch_size] failures, goes on to page 1, stores it and returns its
    result. *)
Lemma commit_failure_does_not_leave_the_run :
  commit_ok (session first_commit_fails 0) = false /\
  collect_customers first_commit_fails 2 0 5 [] =
    Some (inr {| collected := 1; failed := 2; current_page := 1 |},
          [@row_of CustomerKind 0 3 (customer_n 3)]).
Proof. split; vm_compute; reflexivity. Qed.

(** A page of two customers at a batch size of 1000: the failed commit
    is counted as 1000 failures. *)
Example a_failed_commit_counts_the_batch_size :
  collect_customers first_commit_fails 1000 0 5 [] =
    Some (inr {| collected := 1; failed := 1000; current_page := 1 |},
          [@row_of CustomerKind 0 3 (customer_n 3)]).
Proof. vm_compute. reflexivity. Qed.

(** C3 (amended).  For every page whose staging batch commit raises, the
    whole batch is rolled back and the batch routine raises to the
    collection loop; the loop's page-error handler catches the error like
    a failed fetch: the run advances to the next page number and goes on,
    unless that page number is more than 10 past the start page, in which
    case the run ends with its normal result.  The error does not leave
    the collection run: no error other than one raised by the caller's
    stop or progress callback does. *)
Theorem batch_commit_failure_is_handled_as_page_error (K : EntityKind)
    (w : world K) (batch_size start_page : Z) (i : nat) (s : counters)
    (t : list (row K)) (response : page K) :
  is_running w i = true ->
  stop_callback w i = inr false ->
  progress_callback w i = inr tt ->
  fetch w i batch_size (current_page s) = inr response ->
  results response <> [] ->
  commit_ok (session w i) = false ->
  process_batch (session w i) (results response) t = (inl DatabaseError, t) /\
  (exists s',
     collect_step w batch_size start_page i s t =
       (if current_page s + 1 - start_page >? 10
        then Break s' else Continue s', t) /\
     collected s' = collected s /\
     current_page s' = current_page s + 1) /\
  (forall fuel t0 e t1,
     collect w batch_size start_page fuel t0 = Some (inl e, t1) ->
     exists j, stop_callback w j = inl e \/ progress_callback w j = inl e).
Proof.
  intros Hr Hs Hp Hf Hne Hc.
  pose proof (StagingProps.process_batch_rollback
                (session w i) (results response) t Hc) as Hb.
  split; [exact Hb | ]. split.
  - exists {| collected := collected s;
              failed := failed s + batch_size;
              current_page := current_page s + 1 |}.
    split; [ | split; reflexivity].
    unfold collect_step, try_page. rewrite Hr, Hs, Hp, Hf. cbn [negb].
    destruct (results response) as [ | c cs] eqn:E; [congruence | ].
    rewrite Hb. reflexivity.
  - intros fuel t0 e t1 H. unfold collect in H.
    apply (collect_loop_raise w batch_size start_page fuel _ _ _ _ _ H).
Qed.

Lemma batch_commit_failure_is_handled_as_page_error_witness :
  _process_customer_batch (session first_commit_fails 0)
    [customer_n 1; customer_n 2] []
  = (inl DatabaseError, []) /\
  exists s',
    collect_step first_commit_fails 2 0 0
      {| collected := 0; failed := 0; current_page := 0 |} []
    = (Continue s', []) /\
    collected s' = 0 /\ current_page s' = 1.
Proof.
  destruct (batch_commit_failure_is_handled_as_page_error CustomerKind
              first_commit_fails 2 0 0
              {| collected := 0; failed := 0; current_page := 0 |} []
              (@mkPage CustomerKind [customer_n 1; customer_n 2]
                 (NextPage 1)))
    as (H1 & H2 & _); try reflexivity.
  - discriminate.
  - split; [exact H1 | exact H2].
Defined.

End CollectorProps.

(** ** The auditor *)

Module AuditorProps.
Import Staging Auditor.

(** The chunks [l[i:i+step]] for [i] in [range(start, ..., step)] put end
    to end are the list from [start] on, once there are enough of them. *)
Lemma chunks_cover {A} (l : list A) (step : nat) :
  forall (count start : nat),
    (length l - start <= count * step)%nat ->
    flat_map (fun i => Py.slice l i (i + step))
             (Py.range_from start step count)
    = drop start l.
Proof.
  induction count as [ | count IH]; intros start H.
  - cbn. symmetry. apply drop_ge. lia.
  - cbn [Py.range_from flat_map]. rewrite IH by lia.
    unfold Py.slice. replace (start + step - start)%nat with step by lia.
    rewrite <- (drop_drop l step start). apply take_drop.
Qed.

Lemma range_step_enough (n step : nat) :
  (0 < step)%nat -> (n <= (n + step - 1) / step * step)%nat.
Proof.
  intros H.
  pose proof (Nat.div_mod_eq (n + step - 1) step) as E.
  pose proof (Nat.mod_upper_bound (n + step - 1) step) as B.
  nia.
Qed.

Lemma chunks_of_range {A} (l : list A) (step : nat) :
  (0 < step)%nat ->
  flat_map (fun i => Py.slice l i (i + step))
           (Py.range_step (length l) step) = l.
Proof.
  intros H. unfold Py.range_step.
  rewrite chunks_cover; [apply drop_0 | ].
  pose proof (range_step_enough (length l) step H). lia.
Qed.

(** *** The lookup in the staging table *)

Lemma range_step_starts_at_zero (n step : nat) :
  (0 < n)%nat -> (0 < step)%nat ->
  exists rest, Py.range_step n step = 0%nat :: rest.
Proof.
  intros Hn Hs. unfold Py.range_step.
  destruct ((n + step - 1) / step)%nat as [ | count] eqn:E.
  - apply Nat.div_small_iff in E; lia.
  - eexists. reflexivity.
Qed.

(** Once a chunk has raised, the loop is left. *)
Lemma lookup_left (batch_size : nat) (id_list : list Z)
    (t : customers_table) (e : exn) (idx : list nat) :
  fold_left
    (fun all_db_ids i =>
       match all_db_ids with
       | inl e => inl e
       | inr all_db_ids =>
         match select_ids_in (Py.slice id_list i (i + batch_size)) t with
         | inl e => inl e
         | inr result => inr (all_db_ids ∪ list_to_set result)
         end
       end) idx (inl e)
  = (inl e : exn + gset Z).
Proof. induction idx as [ | i idx IH]; [reflexivity | exact IH]. Qed.

(** The first chunk of a list that is not empty is not empty, and its
    query raises. *)
Lemma lookup_chunked_raises (batch_size : nat) (id_list : list Z)
    (t : customers_table) :
  id_list <> [] -> (0 < batch_size)%nat ->
  lookup_chunked batch_size id_list t = inl ArgumentError.
Proof.
  intros Hne Hb. unfold lookup_chunked.
  destruct id_list as [ | x id_list]; [congruence | ].
  destruct (range_step_starts_at_zero (length (x :: id_list)) batch_size)
    as [rest ->]; [cbn; lia | exact Hb | ].
  cbn [fold_left]. unfold Py.slice at 1.
  replace (0 + batch_size - 0)%nat with batch_size by lia.
  destruct batch_size as [ | batch_size]; [lia | ].
  cbn [drop take select_ids_in]. apply lookup_left.
Qed.

Lemma get_db_ids_cases (expected_ids : gset Z) (t : customers_table) :
  _get_db_customer_ids_in_range expected_ids t =
  if decide (expected_ids = ∅) then inr ∅ else inl ArgumentError.
Proof.
  unfold _get_db_customer_ids_in_range.
  destruct (decide (expected_ids = ∅)) as [E | E]; [reflexivity | ].
  cbv zeta. apply lookup_chunked_raises; [ | lia].
  intros H. apply E. apply elements_empty_inv in H.
  apply leibniz_equiv, H.
Qed.

(** C6 (the code departs from the claim).  The batched lookup returns the
    subset of the candidates present in storage for the empty candidate
    set only.  For every other candidate set, whatever its size and
    whatever the table holds, the query of the first chunk raises
    [ArgumentError]: the chunk is passed to [session.execute] as a bare
    list of ids.  So for the candidates 1, 2, 3 and a table that holds
    the id 2 the lookup raises, where the unchunked query of the
    specification answers with the id 2. *)
Theorem batched_lookup_raises (expected_ids : gset Z)
    (t : customers_table) :
  _get_db_customer_ids_in_range expected_ids t =
    (if decide (expected_ids = ∅)
     then inr (contains_any_spec expected_ids t)
     else inl ArgumentError) /\
  _get_db_customer_ids_in_range ({[1]} ∪ {[2]} ∪ {[3]}) [staged 2]
  = inl ArgumentError /\
  contains_any_spec ({[1]} ∪ {[2]} ∪ {[3]}) [staged 2] = {[2]}.
Proof.
  split; [ | split].
  - rewrite get_db_ids_cases.
    destruct (decide (expected_ids = ∅)) as [-> | E]; [ | reflexivity].
    f_equal. unfold contains_any_spec. apply set_eq. intros x.
    rewrite elem_of_intersection. split.
    + intros H. apply not_elem_of_empty in H. destruct H.
    + intros [H _]. exact H.
  - rewrite get_db_ids_cases. apply decide_False.
    intros H. assert (G : (1 : Z) ∈ ({[1]} ∪ {[2]} ∪ {[3]} : gset Z)).
    { apply elem_of_union. left. apply elem_of_union. left.
      apply elem_of_singleton. reflexivity. }
    rewrite H in G. apply not_elem_of_empty in G. exact G.
  - apply (bool_decide_unpack _). vm_compute. exact I.
Qed.

(** *** The range audit *)

(** A range audit returns a report only when the pages it looked at list
    no id; the report then has nothing to say about the table. *)
Lemma audit_page_range_cases (api : source_api) (t : customers_table)
    (start_page end_page batch_size : Z) :
  let acc :=
    audit_pages api batch_size (seqZ start_page (end_page + 1 - start_page))
      {| expected_customer_ids := ∅; f_pages_audited := [];
         f_api_errors := []; f_total_api_records := 0 |} in
  audit_page_range api t start_page end_page batch_size =
  if decide (expected_customer_ids acc = ∅)
  then inr {| pages_audited := f_pages_audited acc;
              missing_from_db := [];
              extra_in_db := [];
              data_mismatches := [];
              api_errors := f_api_errors acc;
              audit_summary :=
                {| total_api_records := f_total_api_records acc;
                   total_db_records := 0;
                   missing_count := 0;
                   extra_count := 0;
                   mismatch_count := 0 |} |}
  else inl ArgumentError.
Proof.
  intros acc. unfold audit_page_range. fold acc. rewrite get_db_ids_cases.
  destruct (decide (expected_customer_ids acc = ∅)) as [E | E];
    [ | reflexivity].
  rewrite E.
  assert (D : (∅ ∖ ∅ : gset Z) = ∅).
  { apply set_eq. intros x. rewrite elem_of_difference. split.
    - intros [H _]. exact H.
    - intros H. apply not_elem_of_empty in H. destruct H. }
  rewrite D, elements_empty, size_empty. reflexivity.
Qed.

(** C9.  Every report of a range audit has an empty [extra_in_db] and an
    [extra_count] of 0, whatever the source API answers and whatever the
    staging table holds beyond the expected ids: the ids read from the
    table are looked up among the expected ids only.  A range audit that
    returns no report has left with the [ArgumentError] of that lookup
    (see C6); the audit of four pages of documents without an id, on a
    table that holds the id 5, does return a report, without an extra
    id. *)
Theorem range_audit_reports_no_extra (api : source_api)
    (t : customers_table) (start_page end_page batch_size : Z) :
  match audit_page_range api t start_page end_page batch_size with
  | inr res => extra_in_db res = [] /\ extra_count (audit_summary res) = 0
  | inl err => err = ArgumentError
  end /\
  exists res,
    audit_page_range Audits.idless_source [staged 5] 0 3 2 = inr res /\
    extra_in_db res = [] /\ extra_count (audit_summary res) = 0.
Proof.
  split.
  - pose proof (audit_page_range_cases api t start_page end_page batch_size)
      as H. cbv zeta in H. rewrite H.
    destruct (decide _); cbn; auto.
  - pose proof (audit_page_range_cases Audits.idless_source [staged 5]
                  0 3 2) as H. cbv zeta in H. rewrite H.
    rewrite decide_True.
    + eexists. split; [reflexivity | split; reflexivity].
    + apply (bool_decide_unpack _). vm_compute. exact I.
Qed.

(** *** The density overview *)

Section Density.
Variable pages_per_chunk : Z.
Variable customer_ids : list Z.
Local Abbreviation step := (Z.to_nat (pages_per_chunk * 1000)).

(** A chunk that starts past the end of the list gives no bucket, and
    neither does any later one. *)
Lemma chunk_stats_past_end (count start : nat) :
  (length customer_ids <= start)%nat ->
  flat_map (chunk_stat pages_per_chunk customer_ids)
           (Py.range_from start step count) = [].
Proof.
  revert start. induction count as [ | count IH]; intros start H;
    [reflexivity | ].
  cbn [Py.range_from flat_map]. rewrite IH by lia.
  unfold chunk_stat, Py.slice. rewrite drop_ge by lia.
  rewrite take_nil. reflexivity.
Qed.

(** A bucket is never over-full, and a bucket that is not full is the
    last one. *)
Lemma short_bucket_is_last (count : nat) :
  0 < pages_per_chunk ->
  forall (start : nat) (s : page_stat),
    s ∈ flat_map (chunk_stat pages_per_chunk customer_ids)
                 (Py.range_from start step count) ->
    difference s <= 0 /\
    (difference s <> 0 ->
     last (flat_map (chunk_stat pages_per_chunk customer_ids)
                    (Py.range_from start step count)) = Some s).
Proof.
  intros Hp. induction count as [ | count IH]; intros start s Hs.
  - apply elem_of_nil in Hs. destruct Hs.
  - cbn [Py.range_from flat_map] in *.
    apply elem_of_app in Hs. destruct Hs as [Hs | Hs].
    + unfold chunk_stat in Hs |- *.
      destruct (Py.slice customer_ids start (start + step))
        as [ | first chunk] eqn:E; [apply elem_of_nil in Hs; destruct Hs | ].
      apply list_elem_of_singleton in Hs. subst s.
      assert (Hlen : length (first :: chunk)
                     = Nat.min step (length customer_ids - start)).
      { rewrite <- E. unfold Py.slice. rewrite length_take, length_drop.
        f_equal. lia. }
      unfold difference. cbn [record_count expected_count].
      rewrite Hlen. split; [lia | ].
      intros Hshort.
      rewrite chunk_stats_past_end by lia.
      reflexivity.
    + destruct (IH (start + step)%nat s Hs) as [H1 H2]. split; [exact H1 | ].
      intros Hd. specialize (H2 Hd).
      destruct (flat_map _ (Py.range_from (start + step) step count))
        as [ | y ys] eqn:E; [discriminate | ].
      rewrite last_app. rewrite H2. reflexivity.
Qed.

End Density.

(** In every overview, a bucket holds at most the expected count, and the
    only bucket that can hold fewer is the last one: the difference the
    overview shows is 0 everywhere else, whatever ids are missing. *)
Lemma only_last_bucket_can_be_short (pages_per_chunk : Z)
    (t : customers_table) (stats : list page_stat) (s : page_stat) :
  get_database_stats_by_page_range pages_per_chunk t = inr stats ->
  s ∈ stats ->
  difference s <= 0 /\ (difference s <> 0 -> last stats = Some s).
Proof.
  unfold get_database_stats_by_page_range.
  destruct (Z.eqb_spec pages_per_chunk 0) as [E0 | E0]; [discriminate | ].
  destruct (Z.ltb_spec pages_per_chunk 0) as [Hneg | Hpos].
  - intros H Hs. inversion H; subst. apply elem_of_nil in Hs. destruct Hs.
  - intros H Hs. inversion H; subst. unfold Py.range_step in Hs |- *.
    apply (short_bucket_is_last pages_per_chunk (ordered_ids t) _
             ltac:(lia) 0%nat s Hs).
Qed.

(** C8 (the code departs from the claim).  With ids 1..5000 and
    6001..12000 staged, a contiguous interval of 1000 ids is missing; the
    overview, at the 10 pages per chunk the application asks for, reports
    for the bucket that covers these ids (first id 1, last id 11000)
    10000 records against 10000 expected: a difference of 0, not a
    negative one. *)
Theorem gap_bucket_reports_no_difference :
  Forall (fun r : row CustomerKind =>
            cratejoy_id r < 5001 \/ 6000 < cratejoy_id r) table_with_gap /\
  get_database_stats_by_page_range 10 table_with_gap =
    inr [ {| page_range := (0, 9); record_count := 10000; first_id := 1;
             last_id := 11000; expected_count := 10000 |};
          {| page_range := (10, 19); record_count := 1000; first_id := 11001;
             last_id := 12000; expected_count := 10000 |} ] /\
  (forall i, 5001 <= i <= 6000 ->
     covers {| page_range := (0, 9); record_count := 10000; first_id := 1;
               last_id := 11000; expected_count := 10000 |} i) /\
  difference {| page_range := (0, 9); record_count := 10000; first_id := 1;
                last_id := 11000; expected_count := 10000 |} = 0.
Proof.
  split.
  { apply (bool_decide_unpack _). vm_compute. exact I. }
  split; [vm_compute; reflexivity | ].
  split; [ | reflexivity].
  intros i Hi. unfold covers. cbn. lia.
Qed.

End AuditorProps.

(** ** The migration orchestrator *)

Module MigratorProps.
Import Staging Migrator.

Section Unit.
Variable T : target.





End Unit.

(** When the mapper maps every order, [create_order] is called once per
    order, in order. *)
Lemma mapped_orders_all (T : target) (sid : Z) (os : list Order)
    (f : Order -> string) :
  (forall o, map_order T o sid = inr (f o)) ->
  mapped_orders T sid os = map f os.
Proof.
  intros H. unfold mapped_orders. induction os as [ | o os IH];
    [reflexivity | ].
  cbn [omap list_omap map]. rewrite H. cbn. f_equal. exact IH.
Qed.



(** The same unit through [migrate_customers_atomic]: one customer
    migrated, none failed. *)
Example run_counts_the_unit_as_migrated :
  match migrate_customers_atomic second_order_fails undisturbed
          staged_alice staged_orders_of_alice 50 false [7] with
  | inr (n, _) => Some n
  | inl _ => None
  end = Some {| migrated := 1; failed := 0 |}.
Proof. reflexivity. Qed.

Example three_orders_second_fails :
  _migrate_single_customer second_order_fails three_orders false [] =
  (true,
   [ApiCreateCustomer "customer"; LogCreatedCustomer 100; ApiAddTags 100;
    ApiCreateOrder "order-1"; LogCreatedOrder 200;
    ApiCreateOrder "order-2"; LogOrderFailed (Some 2);
    ApiCreateOrder "order-3"; LogCreatedOrder 202;
    ApiCreateMetafield 100; LogMigrated 2 3]).
Proof. reflexivity. Qed.

End MigratorProps.

(** * Further properties *)

(** ** The limiters *)

Module LimitersProps.
Import RateLimiter Limiters.
Local Open Scope Q_scope.

(** X1.  [RateLimiter.wait] keeps two permits at least [min_interval] apart,
    when the sleep lasts at least as long as asked. *)
Theorem wait_keeps_permits_apart (current_time woke : Q) (r : RateLimiter) :
  (forall d, fst (wait current_time woke r) = Some d ->
             current_time + d <= woke) ->
  min_interval r
  <= last_request_time (snd (wait current_time woke r)) - last_request_time r.
Proof.
  unfold wait. destruct (Qlt_le_dec _ _) as [Hlt | Hle]; cbn; intros H.
  - specialize (H _ eq_refl). lra.
  - lra.
Qed.

Lemma wait_keeps_permits_apart_witness :
  min_interval (RateLimiter_init 2)
  <= last_request_time (snd (wait 0.1 0.5 (RateLimiter_init 2)))
     - last_request_time (RateLimiter_init 2).
Proof.
  apply (wait_keeps_permits_apart 0.1 0.5 (RateLimiter_init 2)).
  intros d H. vm_compute in H. inversion H; subst. vm_compute. discriminate.
Defined.

Lemma in_sync_step (l : AdaptiveRateLimiter) (c : call) :
  requests_per_second (base_limiter l) = current_rate l ->
  min_interval (base_limiter l) = interval_of (current_rate l) ->
  requests_per_second (base_limiter (step l c)) = current_rate (step l c) /\
  min_interval (base_limiter (step l c)) = interval_of (current_rate (step l c)).
Proof.
  intros H1 H2. destruct c as [ | | ra]; cbn [step].
  - unfold on_success. destruct (negb _); split; auto.
  - unfold on_error. destruct (negb _); split; auto.
  - unfold on_rate_limit_error. split; reflexivity.
Qed.

Lemma in_sync_run (cs : list call) :
  forall l : AdaptiveRateLimiter,
    requests_per_second (base_limiter l) = current_rate l ->
    min_interval (base_limiter l) = interval_of (current_rate l) ->
    requests_per_second (base_limiter (run cs l)) = current_rate (run cs l) /\
    min_interval (base_limiter (run cs l))
    = interval_of (current_rate (run cs l)).
Proof.
  induction cs as [ | c cs IH]; intros l H1 H2; [split; assumption | ].
  cbn [run fold_left]. destruct (in_sync_step l c H1 H2) as [H3 H4].
  apply (IH (step l c) H3 H4).
Qed.

(** X2.  Whatever calls the adaptive limiter receives, retry-after or not,
    the limiter that does the waiting runs at the current rate: its interval
    is [1 / current_rate] (0 for a rate that is not positive). *)
Theorem base_limiter_follows_current_rate (r0 : Q) (cs : list call) :
  let l := run cs (AdaptiveRateLimiter_init r0) in
  requests_per_second (base_limiter l) = current_rate l /\
  min_interval (base_limiter l) = interval_of (current_rate l).
Proof. apply in_sync_run; reflexivity. Qed.

Lemma inverse_at_most_one (n : Z) : n <> 0%Z -> 1.0 / inject_Z n <= 1.
Proof.
  intros Hn. unfold Qle, Qdiv, Qinv, Qmult, inject_Z.
  destruct n as [ | p | p]; [congruence | cbn; lia | cbn; lia].
Qed.

Lemma ceiling_step (l : AdaptiveRateLimiter) (c : call) :
  min_rate l <= max_rate l -> 1 <= max_rate l ->
  current_rate l <= max_rate l ->
  current_rate (step l c) <= max_rate l.
Proof.
  intros Hmm H1 Hcur. destruct c as [ | | ra]; cbn [step].
  - unfold on_success. destruct (negb _); [ | exact Hcur].
    cbn [set_rate current_rate]. unfold Py.min.
    destruct (Qlt_le_dec _ _); lra.
  - unfold on_error. destruct (negb _); [ | exact Hcur].
    cbn [set_rate current_rate]. unfold Py.max.
    destruct (Qlt_le_dec _ _); lra.
  - unfold on_rate_limit_error. cbn [set_rate current_rate].
    destruct (Py.truthy ra) eqn:E.
    + destruct ra as [n | ]; [ | discriminate]. cbn in E |- *.
      apply negb_true_iff, Z.eqb_neq in E.
      pose proof (inverse_at_most_one n E). lra.
    + unfold Py.max. destruct (Qlt_le_dec _ _); lra.
Qed.

(** X3.  Started at or below the ceiling of 10 requests per second, the
    adaptive limiter never goes above it, whatever calls it receives and
    whatever retry-after the server supplies. *)
Theorem adaptive_rate_ceiling (r0 : Q) (cs : list call) :
  r0 <= 10.0 ->
  current_rate (run cs (AdaptiveRateLimiter_init r0)) <= 10.0.
Proof.
  intros H0.
  assert (G : forall l, min_rate l <= max_rate l -> 1 <= max_rate l ->
                        current_rate l <= max_rate l ->
                        current_rate (run cs l) <= max_rate l).
  { induction cs as [ | c cs IH]; intros l Hmm H1 Hcur; [exact Hcur | ].
    cbn [run fold_left].
    destruct (RateLimiterProps.min_rate_step l c) as [E1 E2].
    pose proof (IH (step l c)) as H. unfold run in H.
    rewrite E1, E2 in H. apply H; try assumption.
    apply ceiling_step; assumption. }
  apply (G (AdaptiveRateLimiter_init r0)); cbn; [discriminate | discriminate | exact H0].
Qed.

Lemma adaptive_rate_ceiling_witness :
  current_rate
    (run [OnSuccess; OnRateLimited (Some 1%Z); OnSuccess]
         (AdaptiveRateLimiter_init 9.5)) <= 10.0.
Proof.
  apply (adaptive_rate_ceiling 9.5
           [OnSuccess; OnRateLimited (Some 1%Z); OnSuccess]).
  vm_compute. discriminate.
Defined.

(** X4.  With a positive rate and a burst size that is not negative,
    [BurstRateLimiter.wait] does not raise, and it leaves between 0 and
    [burst_size] tokens. *)
Theorem burst_wait_keeps_tokens_in_range (current_time woke : Q)
    (b : BurstRateLimiter) :
  0 < burst_rate b ->
  (0 <= burst_size b)%Z ->
  exists slept b',
    burst_wait current_time woke b = inr (slept, b') /\
    burst_size b' = burst_size b /\
    0 <= tokens b' /\ tokens b' <= inject_Z (burst_size b').
Proof.
  intros Hrate Hsize.
  assert (Hs : 0 <= inject_Z (burst_size b)).
  { unfold Qle, inject_Z. cbn. lia. }
  unfold burst_wait.
  set (tk := Py.min (inject_Z (burst_size b))
                    (tokens b + (current_time - last_update b) * burst_rate b)).
  assert (Htk : tk <= inject_Z (burst_size b)).
  { unfold tk, Py.min. destruct (Qlt_le_dec _ _); lra. }
  destruct (Qle_bool 1 tk) eqn:E1.
  - apply Qle_bool_iff in E1. eexists _, _. split; [reflexivity | ].
    cbn. split; [reflexivity | ]. split; lra.
  - destruct (Qeq_bool (burst_rate b) 0) eqn:E2.
    { apply Qeq_bool_iff in E2. lra. }
    assert (Hlt : tk < 1).
    { apply Qnot_le_lt. intros H. apply Qle_bool_iff in H. congruence. }
    assert (Hw : 0 <= (1 - tk) / burst_rate b).
    { apply Qle_shift_div_l; [exact Hrate | lra]. }
    apply Qle_bool_iff in Hw. rewrite Hw.
    eexists _, _. split; [reflexivity | ].
    cbn. split; [reflexivity | ]. split; lra.
Qed.

Lemma burst_wait_keeps_tokens_in_range_witness :
  exists slept b',
    burst_wait 5 6 (BurstRateLimiter_init 2 0 5) = inr (slept, b') /\
    burst_size b' = 0%Z /\ 0 <= tokens b' /\ tokens b' <= inject_Z (burst_size b').
Proof.
  apply (burst_wait_keeps_tokens_in_range 5 6 (BurstRateLimiter_init 2 0 5)).
  - reflexivity.
  - cbn. lia.
Defined.

Lemma burst_no_sleep (times : list Q) :
  forall b : BurstRateLimiter,
    0 <= burst_rate b ->
    monotone_from (last_update b) times ->
    (Z.of_nat (length times) <= burst_size b)%Z ->
    inject_Z (Z.of_nat (length times)) <= tokens b ->
    exists b', burst_waits_without_sleep times b = Some b'.
Proof.
  induction times as [ | now rest IH]; intros b Hrate Hmono Hsize Htok.
  - exists b. reflexivity.
  - destruct Hmono as [Hnow Hrest]. cbn [burst_waits_without_sleep].
    unfold burst_wait.
    set (tk := Py.min (inject_Z (burst_size b))
                      (tokens b + (now - last_update b) * burst_rate b)).
    cbn [length] in Hsize, Htok. rewrite Nat2Z.inj_succ in Hsize, Htok.
    assert (Hz : inject_Z (Z.succ (Z.of_nat (length rest)))
                 == inject_Z (Z.of_nat (length rest)) + 1).
    { unfold Z.succ. rewrite inject_Z_plus. reflexivity. }
    assert (Hn : 0 <= inject_Z (Z.of_nat (length rest))).
    { unfold Qle, inject_Z. cbn. lia. }
    assert (Hb : inject_Z (Z.succ (Z.of_nat (length rest)))
                 <= inject_Z (burst_size b)).
    { unfold Qle, inject_Z. cbn. lia. }
    assert (He : 0 <= (now - last_update b) * burst_rate b).
    { apply Qmult_le_0_compat; lra. }
    assert (Htk : inject_Z (Z.of_nat (length rest)) + 1 <= tk).
    { unfold tk, Py.min. destruct (Qlt_le_dec _ _); lra. }
    assert (E1 : Qle_bool 1 tk = true) by (apply Qle_bool_iff; lra).
    rewrite E1. apply IH; cbn; [exact Hrate | exact Hrest | lia | lra].
Qed.

(** X5.  A new [BurstRateLimiter] lets a burst through: its first
    [burst_size] calls to [wait] return without sleeping, however close
    together, as long as the clock does not go back. *)
Theorem burst_is_granted_without_sleeping (rate : Q) (size : Z) (now : Q)
    (times : list Q) :
  0 <= rate ->
  monotone_from now times ->
  (Z.of_nat (length times) <= size)%Z ->
  exists b',
    burst_waits_without_sleep times (BurstRateLimiter_init rate size now)
    = Some b'.
Proof.
  intros Hrate Hmono Hsize.
  apply burst_no_sleep; cbn; [exact Hrate | exact Hmono | exact Hsize | ].
  unfold Qle, inject_Z. cbn. lia.
Qed.

Lemma burst_is_granted_without_sleeping_witness :
  exists b',
    burst_waits_without_sleep [1; 1; 1] (BurstRateLimiter_init 2 3 1)
    = Some b'.
Proof.
  apply (burst_is_granted_without_sleeping 2 3 1 [1; 1; 1]).
  - discriminate.
  - cbn. repeat split; discriminate.
  - cbn. lia.
Defined.

End LimitersProps.

(** ** The clients, further *)

Module ClientMoreProps.
Import Client.

Lemma shopify_all_limited (ds : list Z) :
  forall (srv : server) (rq : request) (st : io),
    shopify_limited_from srv (length (sent st)) ds ->
    ShopifyClient._make_request (length ds) srv rq st =
    (inl RecursionError,
     {| sent := sent st ++ repeat rq (length ds); slept := slept st ++ ds |}).
Proof.
  induction ds as [ | d ds IH]; intros srv rq st Hlim.
  - cbn. rewrite !app_nil_r. destruct st; reflexivity.
  - destruct Hlim as [Hnow Hrest]. cbn [length ShopifyClient._make_request].
    destruct (srv (length (sent st))) as [ | r] eqn:Er; [destruct Hnow | ].
    cbn [shopify_limited] in Hnow. destruct Hnow as (Hs & Hnn & Hh).
    rewrite Hs. cbn [Z.eqb Pos.eqb].
    set (st' := sleep d (send rq st)).
    assert (Hlen : length (sent st') = S (length (sent st))).
    { apply ClientProps.length_sent_send. }
    assert (Hrec : ShopifyClient._make_request (length ds) srv rq st' =
              (inl RecursionError,
               {| sent := sent st ++ repeat rq (S (length ds));
                  slept := slept st ++ d :: ds |})).
    { rewrite (IH srv rq st') by (rewrite Hlen; exact Hrest).
      f_equal. unfold st'. cbn [sent slept sleep send repeat].
      rewrite <- !app_assoc. reflexivity. }
    destruct (retry_after r) as [ | n | ] eqn:Eh.
    + subst d. cbn [Z.ltb Z.compare]. exact Hrec.
    + subst d. destruct (Z.ltb_spec n 0); [lia | exact Hrec].
    + destruct Hh.
Qed.

Lemma cratejoy_all_limited (k : nat) :
  forall (srv : server) (rq : request) (st : io),
    limited_from srv (length (sent st)) k ->
    CratejoyClient._make_request k srv rq st =
    (inl RecursionError,
     {| sent := sent st ++ repeat rq k; slept := slept st ++ repeat 60 k |}).
Proof.
  induction k as [ | k IH]; intros srv rq st Hlim.
  - cbn. rewrite !app_nil_r. destruct st; reflexivity.
  - destruct Hlim as [Hnow Hrest]. cbn [CratejoyClient._make_request].
    destruct (srv (length (sent st))) as [ | r] eqn:Er; [destruct Hnow | ].
    cbn [is_429] in Hnow. unfold raise_for_status. rewrite Hnow.
    cbn [Z.leb Z.ltb Z.compare Pos.compare Pos.compare_cont andb Z.eqb Pos.eqb].
    set (st' := sleep 60 (send rq st)).
    assert (Hlen : length (sent st') = S (length (sent st))).
    { apply ClientProps.length_sent_send. }
    rewrite (IH srv rq st') by (rewrite Hlen; exact Hrest).
    f_equal. unfold st'. cbn [sent slept sleep send repeat].
    rewrite <- !app_assoc. reflexivity.
Qed.

(** A 429 that [ShopifyClient] cannot sleep on ends its retries: the
    [ValueError] of [int(...)] or of [time.sleep] leaves the call. *)
Lemma shopify_gives_up (ds : list Z) :
  forall (depth : nat) (srv : server) (rq : request) (st : io),
    (length ds < depth)%nat ->
    shopify_limited_from srv (length (sent st)) ds ->
    shopify_rejected (srv (length (sent st) + length ds)%nat) ->
    ShopifyClient._make_request depth srv rq st =
    (inl ValueError,
     {| sent := sent st ++ repeat rq (S (length ds));
        slept := slept st ++ ds |}).
Proof.
  induction ds as [ | d ds IH]; intros depth srv rq st Hd Hlim Hbad.
  - destruct depth as [ | depth]; [cbn in Hd; lia | ].
    cbn [length] in *. rewrite Nat.add_0_r in Hbad.
    cbn [ShopifyClient._make_request repeat]. rewrite app_nil_r.
    destruct (srv (length (sent st))) as [ | r]; [destruct Hbad | ].
    cbn [shopify_rejected] in Hbad. destruct Hbad as [Hs Hh].
    rewrite Hs. cbn [Z.eqb Pos.eqb].
    destruct (retry_after r) as [ | n | ]; [destruct Hh | | ].
    + destruct (Z.ltb_spec n 0); [reflexivity | lia].
    + reflexivity.
  - destruct depth as [ | depth]; [cbn in Hd; lia | ].
    cbn [length] in Hd, Hbad. destruct Hlim as [Hnow Hrest].
    cbn [ShopifyClient._make_request].
    destruct (srv (length (sent st))) as [ | r] eqn:Er; [destruct Hnow | ].
    cbn [shopify_limited] in Hnow. destruct Hnow as (Hs & Hnn & Hh).
    rewrite Hs. cbn [Z.eqb Pos.eqb].
    set (st' := sleep d (send rq st)).
    assert (Hlen : length (sent st') = S (length (sent st))).
    { apply ClientProps.length_sent_send. }
    assert (Hrec : ShopifyClient._make_request depth srv rq st' =
              (inl ValueError,
               {| sent := sent st ++ repeat rq (S (S (length ds)));
                  slept := slept st ++ d :: ds |})).
    { rewrite (IH depth srv rq st');
        [ | lia | rewrite Hlen; exact Hrest
          | rewrite Hlen;
            replace (S (length (sent st)) + length ds)%nat
              with (length (sent st) + S (length ds))%nat by lia;
            exact Hbad ].
      f_equal. unfold st'. cbn [sent slept sleep send repeat].
      rewrite <- !app_assoc. reflexivity. }
    cbn [length].
    destruct (retry_after r) as [ | n | ] eqn:Eh.
    + subst d. cbn [Z.ltb Z.compare]. exact Hrec.
    + subst d. destruct (Z.ltb_spec n 0); [lia | exact Hrec].
    + destruct Hh.
Qed.

(** X6.  Against a server that keeps answering 429 the Cratejoy client
    does not give up on its own, and neither does the Shopify client as
    long as every [Retry-After] is absent or a non-negative integer: the
    client sleeps and sends the request again for as long as the
    interpreter lets the calls nest, and only then fails, with
    [RecursionError].  A 429 whose [Retry-After] is not an integer, or is
    negative, ends the retries of the Shopify client at once: it raises
    [ValueError] without sleeping on that answer. *)
Theorem persistent_rate_limit_ends_in_recursion_error (srv : server)
    (rq : request) (ds : list Z) :
  (shopify_limited_from srv 0 ds ->
   ShopifyClient._make_request (length ds) srv rq io0 =
   (inl RecursionError,
    {| sent := repeat rq (length ds); slept := ds |})) /\
  (limited_from srv 0 (length ds) ->
   CratejoyClient._make_request (length ds) srv rq io0 =
   (inl RecursionError,
    {| sent := repeat rq (length ds); slept := repeat 60 (length ds) |})) /\
  (shopify_limited_from srv 0 ds ->
   shopify_rejected (srv (length ds)) ->
   forall depth, (length ds < depth)%nat ->
     ShopifyClient._make_request depth srv rq io0 =
     (inl ValueError,
      {| sent := repeat rq (S (length ds)); slept := ds |})).
Proof.
  split; [ | split].
  - intros H. apply (shopify_all_limited ds srv rq io0 H).
  - intros H. apply (cratejoy_all_limited (length ds) srv rq io0 H).
  - intros Hlim Hbad depth Hd.
    apply (shopify_gives_up ds depth srv rq io0 Hd Hlim Hbad).
Qed.

Lemma persistent_rate_limit_ends_in_recursion_error_witness :
  ShopifyClient._make_request 2 twice_limited get_shop io0 =
  (inl RecursionError, {| sent := [get_shop; get_shop]; slept := [1; 1] |}) /\
  CratejoyClient._make_request 2 twice_limited get_shop io0 =
  (inl RecursionError, {| sent := [get_shop; get_shop]; slept := [60; 60] |})
  /\
  ShopifyClient._make_request 1000 limited_then_dated get_shop io0 =
  (inl ValueError, {| sent := [get_shop; get_shop]; slept := [1] |}).
Proof.
  assert (Hs : shopify_limited_from twice_limited 0 [1; 1]).
  { cbn. repeat split; lia. }
  assert (Hc : limited_from twice_limited 0 (length [1; 1])).
  { cbn. repeat split; lia. }
  assert (Hd : shopify_limited_from limited_then_dated 0 [1]).
  { cbn. repeat split; lia. }
  assert (Hb : shopify_rejected (limited_then_dated (length [1]))).
  { cbn. split; [reflexivity | exact I]. }
  destruct (persistent_rate_limit_ends_in_recursion_error twice_limited
              get_shop [1; 1]) as (H1 & H2 & _).
  destruct (persistent_rate_limit_ends_in_recursion_error limited_then_dated
              get_shop [1]) as (_ & _ & H3).
  split; [exact (H1 Hs) | ]. split; [exact (H2 Hc) | ].
  apply (H3 Hd Hb 1000%nat). cbn. lia.
Defined.

End ClientMoreProps.

(** ** The [get_all_*] loops *)

Module PagingProps.
Import Paging.

Section Loops.
Context {A : Type}.
Variable get : pager A.

Lemma get_all_loop_pages (n : nat) :
  forall (fuel : nat) (page : Z) (all : list A),
    (n < fuel)%nat ->
    (forall k, (k < n)%nat ->
       exists r, get 100 (page + Z.of_nat k) = inr r /\
                 l_results r <> [] /\ l_next r = true) ->
    (forall r, get 100 (page + Z.of_nat n) = inr r ->
       l_results r = [] \/ l_next r = false ->
       get_all_loop get fuel page all
       = Some (inr (all ++ pages_from get page (S n)))) /\
    (forall e, get 100 (page + Z.of_nat n) = inl e ->
       get_all_loop get fuel page all = Some (inl e)).
Proof.
  induction n as [ | n IH]; intros fuel page all Hfuel Hgood.
  - destruct fuel as [ | fuel]; [lia | ]. cbn [get_all_loop pages_from].
    rewrite Z.add_0_r. split.
    + intros r Hr Hlast. rewrite Hr. rewrite app_nil_r.
      destruct (l_results r) as [ | x xs] eqn:E.
      * rewrite app_nil_r. reflexivity.
      * destruct Hlast as [Hl | Hl]; [discriminate | ]. rewrite Hl. reflexivity.
    + intros e He. rewrite He. reflexivity.
  - destruct fuel as [ | fuel]; [lia | ].
    destruct (Hgood 0%nat ltac:(lia)) as (r0 & Hr0 & Hne & Hnext).
    rewrite Z.add_0_r in Hr0.
    assert (Hstep : forall res,
              get_all_loop get fuel (page + 1) (all ++ l_results r0) = res ->
              get_all_loop get (S fuel) page all = res).
    { intros res <-. cbn [get_all_loop]. rewrite Hr0.
      destruct (l_results r0) as [ | x xs] eqn:E; [congruence | ].
      rewrite Hnext. reflexivity. }
    destruct (IH fuel (page + 1) (all ++ l_results r0) ltac:(lia)) as [H1 H2].
    { intros k Hk. destruct (Hgood (S k) ltac:(lia)) as (r & Hr & Hrest).
      exists r. split; [ | exact Hrest]. rewrite <- Hr. f_equal. lia. }
    replace (page + 1 + Z.of_nat n) with (page + Z.of_nat (S n)) in H1, H2 by lia.
    split.
    + intros r Hr Hlast. apply Hstep. rewrite (H1 r Hr Hlast).
      cbn [pages_from]. rewrite Hr0. rewrite <- app_assoc. reflexivity.
    + intros e He. apply Hstep. apply (H2 e He).
Qed.

(** X7.  [get_all_customers] (and its siblings for orders and subscriptions)
    reads the pages 0, 1, 2, ... and returns their records in this order, up
    to and including the first page that is empty or has no [next]; an
    exception on any page leaves the loop, and what was read so far is lost
    with it. *)
Theorem get_all_returns_the_pages_in_order (n fuel : nat) :
  (n < fuel)%nat ->
  (forall k, (k < n)%nat ->
     exists r, get 100 (Z.of_nat k) = inr r /\
               l_results r <> [] /\ l_next r = true) ->
  (forall r, get 100 (Z.of_nat n) = inr r ->
     l_results r = [] \/ l_next r = false ->
     get_all get fuel = Some (inr (pages_from get 0 (S n)))) /\
  (forall e, get 100 (Z.of_nat n) = inl e ->
     get_all get fuel = Some (inl e)).
Proof.
  intros Hfuel Hgood. unfold get_all.
  apply (get_all_loop_pages n fuel 0 [] Hfuel Hgood).
Qed.

Lemma length_slice_to (l : list A) (c : Z) :
  0 <= c -> Z.of_nat (length (slice_to l c)) <= c.
Proof.
  intros Hc. unfold slice_to. destruct (Z.ltb_spec c 0); [lia | ].
  rewrite length_take. lia.
Qed.

Lemma get_all_products_loop_bound (fuel : nat) :
  forall (page : Z) (all : list A) (c : Z) (res : list A),
    0 <= c ->
    Z.of_nat (length all) <= c ->
    get_all_products_loop get fuel page all (Some c) = Some (inr res) ->
    Z.of_nat (length res) <= c.
Proof.
  induction fuel as [ | fuel IH]; intros page all c res Hc Hall;
    [discriminate | ].
  cbn [get_all_products_loop]. destruct (get 100 page) as [e | r];
    [discriminate | ].
  cbn [default from_option id]. destruct (l_results r) as [ | x xs] eqn:E.
  - intros H. inversion H; subst. exact Hall.
  - destruct (Z.geb_spec (Z.of_nat (length (all ++ x :: xs))) c) as [Hge | Hlt].
    + intros H. inversion H; subst. apply length_slice_to, Hc.
    + destruct (Z.of_nat (length (x :: xs)) <? 100).
      * intros H. inversion H; subst. lia.
      * apply IH; [exact Hc | lia].
Qed.

(** X8.  [get_all_products] never returns more products than the count the
    first page reported (for a count that is not negative), however many the
    pages hold. *)
Theorem get_all_products_respects_count (fuel : nat) (first : listing A)
    (res : list A) :
  get 100 0 = inr first ->
  0 <= l_count first ->
  get_all_products get fuel = Some (inr res) ->
  Z.of_nat (length res) <= l_count first.
Proof.
  intros Hfirst Hc. unfold get_all_products.
  destruct fuel as [ | fuel]; [discriminate | ].
  cbn [get_all_products_loop]. rewrite Hfirst. cbn [default from_option id].
  destruct (l_results first) as [ | x xs] eqn:E.
  - intros H. inversion H; subst. cbn. exact Hc.
  - destruct (Z.geb_spec (Z.of_nat (length ([] ++ x :: xs))) (l_count first))
      as [Hge | Hlt].
    + intros H. inversion H; subst. apply length_slice_to, Hc.
    + cbn [app] in Hlt |- *.
      destruct (Z.of_nat (length (x :: xs)) <? 100).
      * intros H. inversion H; subst. lia.
      * apply get_all_products_loop_bound; [exact Hc | lia].
Qed.

End Loops.

Lemma get_all_returns_the_pages_in_order_witness :
  get_all two_pages 5 = Some (inr [1; 2; 3]).
Proof.
  assert (Hfuel : (1 < 5)%nat) by lia.
  assert (Hgood : forall k, (k < 1)%nat ->
            exists r, two_pages 100 (Z.of_nat k) = inr r /\
                      l_results r <> [] /\ l_next r = true).
  { intros k Hk. replace k with 0%nat by lia.
    eexists. split; [reflexivity | ]. split; [discriminate | reflexivity]. }
  destruct (get_all_returns_the_pages_in_order two_pages 1 5 Hfuel Hgood)
    as [H _].
  apply (H {| l_results := [3]; l_next := false; l_count := 3 |});
    [reflexivity | right; reflexivity].
Defined.

Lemma get_all_products_respects_count_witness :
  get_all_products overfull_page 5 = Some (inr [1; 2; 3]) /\
  Z.of_nat (length [1; 2; 3]) <= 3.
Proof.
  split; [reflexivity | ].
  apply (get_all_products_respects_count overfull_page 5
           {| l_results := [1; 2; 3; 4]; l_next := false; l_count := 3 |}
           [1; 2; 3]); [reflexivity | cbn; lia | reflexivity].
Defined.

End PagingProps.

(** ** The staging store and the collectors, further *)

Module StoreProps.
Import Staging Collector Subscriptions Tables.

Section Batch.
Context {K : EntityKind}.
Implicit Types (r : row K) (t : list (row K)).

Lemma process_records_exact (env : session_env) (records : list (record K)) :
  (forall n, progress_ok env n = true) ->
  forall k collected failed (transaction : option (list (row K))),
    let '(c', f', _) :=
      process_records env k records (collected, failed, transaction) in
    c' = collected
         + match transaction with
           | Some _ => Z.of_nat (length (staged_rows env k records))
           | None => 0
           end /\
    c' + f' = collected + failed + Z.of_nat (length records).
Proof.
  intros Hp. induction records as [ | c cs IH];
    intros k collected failed transaction.
  - cbn. destruct transaction; lia.
  - cbn [process_records staged_rows length].
    destruct (Py.truthy (rec_id K c));
      [destruct transaction as [t | ]; [destruct (execute_ok env k) | ] | ].
    + cbv zeta. rewrite Hp, andb_false_r. cbn [length].
      specialize (IH (S k) (collected + 1) failed
                     (Some (upsert (row_of (now env)
                                      (default 0 (rec_id K c)) c) t))).
      destruct (process_records _ _ _ _) as [[c' f'] t']. cbn in IH. lia.
    + specialize (IH (S k) collected (failed + 1) None).
      destruct (process_records _ _ _ _) as [[c' f'] t']. cbn in IH |- *. lia.
    + specialize (IH (S k) collected (failed + 1) None).
      destruct (process_records _ _ _ _) as [[c' f'] t']. cbn in IH |- *. lia.
    + specialize (IH (S k) collected (failed + 1) transaction).
      destruct (process_records _ _ _ _) as [[c' f'] t'].
      destruct transaction; lia.
Qed.

(** X9.  A batch that commits, with a progress callback that does not raise,
    counts every record once: as collected when it carries a usable id and
    its statement executed, as failed otherwise. *)
Theorem committed_batch_counts_every_record (env : session_env)
    (records : list (record K)) t :
  commit_ok env = true ->
  (forall n, progress_ok env n = true) ->
  exists collected failed,
    fst (process_batch env records t) = inr (collected, failed) /\
    collected = Z.of_nat (length (staged_rows env 0 records)) /\
    collected + failed = Z.of_nat (length records) /\
    0 <= failed.
Proof.
  intros Hc Hp. unfold process_batch.
  pose proof (process_records_exact env records Hp 0%nat 0 0 (Some t)) as H.
  pose proof (StagingProps.process_records_counts env records 0%nat 0 0
                (Some t)) as G.
  destruct (process_records _ _ _ _) as [[c f] work]. rewrite Hc.
  exists c, f. cbn [fst]. split; [reflexivity | lia].
Qed.

Lemma last_rows_with_cons i r (rs : list (row K)) :
  last (rows_with i (r :: rs)) =
  match last (rows_with i rs) with
  | Some x => Some x
  | None => if decide (cratejoy_id r = i) then Some r else None
  end.
Proof.
  unfold rows_with. rewrite filter_cons.
  destruct (decide (cratejoy_id r = i)) as [E | E].
  - destruct (filter _ rs) as [ | y ys] eqn:F; [reflexivity | ].
    rewrite last_cons. destruct (last (y :: ys)) eqn:L; [reflexivity | ].
    apply last_None in L. discriminate.
  - destruct (last (filter _ rs)); reflexivity.
Qed.

Lemma lookup_upsert_all (rs : list (row K)) :
  forall t i,
    unique_ids t ->
    lookup_row i (upsert_all rs t) =
    match last (rows_with i rs) with
    | Some r => Some r
    | None => lookup_row i t
    end.
Proof.
  induction rs as [ | r rs IH]; intros t i Hu; [reflexivity | ].
  cbn [upsert_all fold_left].
  change (fold_left (fun t0 r0 => upsert r0 t0) rs (upsert r t))
    with (upsert_all rs (upsert r t)).
  rewrite (IH (upsert r t) i (StagingProps.upsert_unique r t Hu)).
  rewrite last_rows_with_cons.
  destruct (last (rows_with i rs)); [reflexivity | ].
  unfold lookup_row. destruct (decide (cratejoy_id r = i)) as [E | E].
  - subst i. rewrite (StagingProps.rows_with_upsert r t Hu). reflexivity.
  - rewrite StagingProps.rows_with_upsert_other by congruence. reflexivity.
Qed.

(** X10.  After a batch whose statements all executed and whose commit
    returned, every id holds the last record of the batch that carried it,
    and every other id holds what it held before; when a statement failed
    (the transaction is aborted, and its commit ends in a rollback) or the
    commit raised, every id holds what it held before. *)
Theorem batch_is_last_write_wins (env : session_env)
    (records : list (record K)) t (i : Z) :
  unique_ids t ->
  lookup_row i (snd (process_batch env records t)) =
  if commit_ok env && negb (batch_aborts env 0 records) then
    match last (rows_with i (staged_rows env 0 records)) with
    | Some r => Some r
    | None => lookup_row i t
    end
  else lookup_row i t.
Proof.
  intros Hu. destruct (commit_ok env) eqn:Hc; cbn [andb].
  - rewrite StagingProps.process_batch_commit by exact Hc.
    destruct (batch_aborts env 0 records); cbn [negb]; [reflexivity | ].
    apply lookup_upsert_all, Hu.
  - rewrite StagingProps.process_batch_rollback by exact Hc. reflexivity.
Qed.

End Batch.

Lemma committed_batch_counts_every_record_witness :
  exists collected failed,
    fst (_process_subscription_batch (healthy 1) mixed_batch [])
    = inr (collected, failed) /\
    collected = 3 /\ collected + failed = 4 /\ 0 <= failed.
Proof.
  apply (@committed_batch_counts_every_record SubscriptionKind (healthy 1)
           mixed_batch []); reflexivity.
Defined.

Lemma batch_is_last_write_wins_witness :
  lookup_row 4 (snd (_process_subscription_batch (healthy 1) mixed_batch []))
  = Some (@row_of SubscriptionKind 1 4 (subscription_n 4 "new")).
Proof.
  apply (@batch_is_last_write_wins SubscriptionKind (healthy 1) mixed_batch
           [] 4).
  vm_compute. constructor.
Defined.

Section Runs.
Context {K : EntityKind}.
Variable w : world K.
Variables batch_size start_page : Z.

Lemma grows_refl (t : list (row K)) : grows t t.
Proof. split; auto. Qed.

Lemma grows_trans (t1 t2 t3 : list (row K)) :
  grows t1 t2 -> grows t2 t3 -> grows t1 t3.
Proof. intros [A1 B1] [A2 B2]. split; auto. Qed.

Lemma process_batch_grows env (records : list (record K))
    (t : list (row K)) :
  grows t (snd (process_batch env records t)).
Proof.
  split.
  - apply StagingProps.process_batch_unique.
  - intros i Hi. destruct (commit_ok env) eqn:Hc.
    + rewrite StagingProps.process_batch_commit by exact Hc.
      destruct (batch_aborts env 0 records); [exact Hi | ].
      apply StagingProps.upsert_all_keeps_key, Hi.
    + rewrite StagingProps.process_batch_rollback by exact Hc. exact Hi.
Qed.

Lemma collect_step_grows i s (t : list (row K)) :
  grows t (snd (collect_step w batch_size start_page i s t)).
Proof.
  unfold collect_step. destruct (is_running w i); cbn [negb];
    [ | apply grows_refl].
  destruct (stop_callback w i) as [e | [ | ]]; try apply grows_refl.
  destruct (progress_callback w i) as [e | u]; [apply grows_refl | ].
  assert (H : grows t (snd (try_page w batch_size i s t))).
  { unfold try_page.
    destruct (fetch w i batch_size (current_page s)) as [e | response];
      [apply grows_refl | ].
    destruct (results response) as [ | c cs] eqn:E; [apply grows_refl | ].
    pose proof (process_batch_grows (session w i) (c :: cs) t) as G.
    destruct (process_batch (session w i) (c :: cs) t) as [[e | [bc bf]] t'];
      [exact G | ].
    destruct (next response); exact G. }
  destruct (try_page w batch_size i s t) as [[e | f] t']; exact H.
Qed.

Lemma collect_loop_grows fuel :
  forall i s t res t',
    collect_loop w batch_size start_page fuel i s t = Some (res, t') ->
    grows t t'.
Proof.
  induction fuel as [ | fuel IH]; intros i s t res t'; [discriminate | ].
  cbn [collect_loop].
  pose proof (collect_step_grows i s t) as G.
  destruct (collect_step w batch_size start_page i s t) as [[s1 | s1 | e] t1];
    cbn [snd] in G.
  - intros H. apply (grows_trans t t1 t'); [exact G | ].
    apply (IH _ _ _ _ _ H).
  - intros H. inversion H; subst. exact G.
  - intros H. inversion H; subst. exact G.
Qed.

(** X11.  A collection run never removes a record from the staging table:
    however it ends (exhausted source, stop, page errors, failed commits, an
    exception from a callback), every id staged before the run is staged
    after it, and the ids stay unique. *)
Theorem collection_never_loses_a_staged_id (fuel : nat) (t t' : list (row K))
    (res : exn + counters) :
  collect w batch_size start_page fuel t = Some (res, t') ->
  unique_ids t ->
  unique_ids t' /\
  forall i, i ∈ map cratejoy_id t -> i ∈ map cratejoy_id t'.
Proof.
  intros H Hu. unfold collect in H.
  destruct (collect_loop_grows fuel _ _ _ _ _ H) as [A B]. split; auto.
Qed.

Lemma collect_loop_to_empty_page (n : nat) :
  (forall i, is_running w i = true /\ stop_callback w i = inr false /\
             progress_callback w i = inr tt /\
             commit_ok (session w i) = true) ->
  forall (i : nat) (s : counters) (t : list (row K)),
    (forall j k, (k < n)%nat ->
       exists r, fetch w j batch_size (current_page s + Z.of_nat k) = inr r /\
                 results r <> [] /\
                 (next r = NextGarbled \/
                  next r = NextPage (current_page s + Z.of_nat k + 1))) ->
    (forall j, exists r,
       fetch w j batch_size (current_page s + Z.of_nat n) = inr r /\
       results r = []) ->
    exists s' t',
      collect_loop w batch_size start_page (S n) i s t = Some (inr s', t') /\
      current_page s' = current_page s + Z.of_nat n.
Proof.
  intros Hw. induction n as [ | n IH]; intros i s t Hgood Hend.
  - destruct (Hw i) as (Hr & Hs & Hp & Hc).
    destruct (Hend i) as (r & Hf & He). rewrite Z.add_0_r in Hf.
    exists s, t. cbn [collect_loop]. unfold collect_step, try_page.
    rewrite Hr, Hs, Hp, Hf, He. cbn [negb]. split; [reflexivity | lia].
  - destruct (Hw i) as (Hr & Hs & Hp & Hc).
    destruct (Hgood i 0%nat ltac:(lia)) as (r & Hf & Hne & Hnext).
    rewrite Z.add_0_r in Hf.
    assert (Hstep : exists s1 t1,
              collect_step w batch_size start_page i s t = (Continue s1, t1) /\
              current_page s1 = current_page s + 1).
    { unfold collect_step, try_page. rewrite Hr, Hs, Hp, Hf. cbn [negb].
      destruct (results r) as [ | c cs] eqn:E; [congruence | ].
      unfold process_batch.
      destruct (process_records (session w i) 0 (c :: cs) (0, 0, Some t))
        as [[bc bf] work].
      rewrite Hc.
      destruct Hnext as [-> | ->]; eexists _, _;
        (split; [reflexivity | cbn; lia]). }
    destruct Hstep as (s1 & t1 & Hs1 & Hp1).
    destruct (IH (S i) s1 t1) as (s' & t' & Hrun & Hpage).
    + intros j k Hk. destruct (Hgood j (S k) ltac:(lia)) as (r' & Hf' & Hrest).
      exists r'. rewrite Hp1.
      replace (current_page s + 1 + Z.of_nat k)
        with (current_page s + Z.of_nat (S k)) by lia.
      split; [exact Hf' | ]. exact Hrest.
    + intros j. destruct (Hend j) as (r' & Hf' & He'). exists r'.
      rewrite Hp1.
      replace (current_page s + 1 + Z.of_nat n)
        with (current_page s + Z.of_nat (S n)) by lia.
      split; assumption.
    + exists s', t'. split; [ | lia].
      change (collect_loop w batch_size start_page (S (S n)) i s t)
        with (match collect_step w batch_size start_page i s t with
              | (Continue s0, t0) =>
                  collect_loop w batch_size start_page (S n) (S i) s0 t0
              | (Break s0, t0) => Some (inr s0, t0)
              | (Raise e, t0) => Some (inl e, t0)
              end).
      rewrite Hs1. exact Hrun.
Qed.

(** X12.  When the pages from the start page on hold records and carry a
    [next] link that either cannot be parsed or names the following page,
    and the page [n] pages further is empty, a run whose batches commit
    advances by exactly one page per iteration and ends, without an error,
    on the empty page. *)
Theorem collection_ends_on_the_empty_page (n : nat) (t : list (row K)) :
  (forall i, is_running w i = true /\ stop_callback w i = inr false /\
             progress_callback w i = inr tt /\
             commit_ok (session w i) = true) ->
  (forall j k, (k < n)%nat ->
     exists r, fetch w j batch_size (start_page + Z.of_nat k) = inr r /\
               results r <> [] /\
               (next r = NextGarbled \/
                next r = NextPage (start_page + Z.of_nat k + 1))) ->
  (forall j, exists r,
     fetch w j batch_size (start_page + Z.of_nat n) = inr r /\
     results r = []) ->
  exists s' t',
    collect w batch_size start_page (S n) t = Some (inr s', t') /\
    current_page s' = start_page + Z.of_nat n.
Proof.
  intros Hw Hgood Hend. unfold collect.
  apply (collect_loop_to_empty_page n Hw 0%nat
           {| collected := 0; failed := 0; current_page := start_page |} t);
    assumption.
Qed.

End Runs.

Lemma collection_never_loses_a_staged_id_witness :
  unique_ids [@row_of CustomerKind 1 9 bob;
              @row_of CustomerKind 0 3 (customer_n 3)] /\
  forall i, i ∈ map cratejoy_id [@row_of CustomerKind 1 9 bob] ->
            i ∈ map cratejoy_id [@row_of CustomerKind 1 9 bob;
                                 @row_of CustomerKind 0 3 (customer_n 3)].
Proof.
  apply (@collection_never_loses_a_staged_id CustomerKind first_commit_fails
           2 0 5 [@row_of CustomerKind 1 9 bob]
           [@row_of CustomerKind 1 9 bob;
            @row_of CustomerKind 0 3 (customer_n 3)]
           (inr {| collected := 1; failed := 2; current_page := 1 |})).
  - vm_compute. reflexivity.
  - vm_compute. constructor; [apply not_elem_of_nil | constructor].
Defined.

Lemma collection_ends_on_the_empty_page_witness :
  exists s' t',
    collect_subscriptions garbled_cursor 1 0 3 [] = Some (inr s', t') /\
    current_page s' = 0 + Z.of_nat 2.
Proof.
  apply (@collection_ends_on_the_empty_page SubscriptionKind garbled_cursor
           1 0 2 []).
  - intros i. repeat split; reflexivity.
  - intros j k Hk. destruct k as [ | [ | k]]; [ | | lia];
      (eexists; split; [vm_compute; reflexivity | ];
       split; [discriminate | left; reflexivity]).
  - intros j. eexists. split; [vm_compute; reflexivity | reflexivity].
Defined.


(** *** Two passes over the same id *)

Section TwoPasses.
Context {K : EntityKind}.
Implicit Types (r : row K) (t : list (row K)).

Lemma upsert_all_has_key r (rs : list (row K)) :
  forall t, r ∈ rs -> cratejoy_id r ∈ map cratejoy_id (upsert_all rs t).
Proof.
  induction rs as [ | x rs IH]; intros t Hr.
  - apply elem_of_nil in Hr. destruct Hr.
  - cbn [upsert_all fold_left].
    change (fold_left (fun t0 r0 => upsert r0 t0) rs (upsert x t))
      with (upsert_all rs (upsert x t)).
    apply elem_of_cons in Hr. destruct Hr as [-> | Hr].
    + apply StagingProps.upsert_all_keeps_key, StagingProps.upsert_has_key.
    + apply IH, Hr.
Qed.

(** Under the UNIQUE constraint an id has at most one row. *)
Lemma rows_with_at_most_one i t :
  unique_ids t -> (length (rows_with i t) <= 1)%nat.
Proof.
  unfold unique_ids. induction t as [ | x t IH]; intros Hu; [cbn; lia | ].
  cbn [map] in Hu. apply NoDup_cons in Hu. destruct Hu as [Hx Hu].
  unfold rows_with in *. rewrite filter_cons.
  destruct (decide (cratejoy_id x = i)) as [E | E]; [ | apply IH, Hu].
  subst i. fold (rows_with (cratejoy_id x) t).
  rewrite (StagingProps.rows_with_absent _ t Hx). cbn. lia.
Qed.

Lemma rows_with_present i t :
  unique_ids t -> i ∈ map cratejoy_id t -> length (rows_with i t) = 1%nat.
Proof.
  intros Hu Hi. pose proof (rows_with_at_most_one i t Hu) as Hle.
  apply list_elem_of_fmap in Hi. destruct Hi as (r & -> & Hr).
  assert (Hin : r ∈ rows_with (cratejoy_id r) t)
    by (apply list_elem_of_filter; auto).
  destruct (rows_with (cratejoy_id r) t) as [ | y ys];
    [apply elem_of_nil in Hin; destruct Hin | ].
  cbn [length] in *. lia.
Qed.

Lemma rows_with_of_lookup i r t :
  unique_ids t -> lookup_row i t = Some r -> rows_with i t = [r].
Proof.
  intros Hu Hl. pose proof (rows_with_at_most_one i t Hu) as Hle.
  unfold lookup_row in Hl.
  destruct (rows_with i t) as [ | y [ | z ys]]; cbn in *;
    [discriminate | congruence | lia].
Qed.

(** Batches, whatever happens to them, keep the ids that are staged. *)
Lemma passes_keep_id i (between : list (session_env * list (record K))) :
  forall t,
    unique_ids t /\ i ∈ map cratejoy_id t ->
    unique_ids (fold_left (fun t p => snd (process_batch (fst p) (snd p) t))
                  between t) /\
    i ∈ map cratejoy_id
          (fold_left (fun t p => snd (process_batch (fst p) (snd p) t))
             between t).
Proof.
  induction between as [ | [e recs] between IH]; intros t0 H0; [exact H0 | ].
  cbn [fold_left fst snd]. apply IH.
  destruct (process_batch_grows e recs t0) as [A B].
  destruct H0 as [G1 G2]. split; [apply A, G1 | apply B, G2].
Qed.

Variable env : session_env.
Hypothesis He : forall k, execute_ok env k = true.

Lemma no_statement_fails (records : list (record K)) :
  forall k, batch_aborts env k records = false.
Proof.
  induction records as [ | c cs IH]; intros k; [reflexivity | ].
  cbn [batch_aborts]. rewrite He, IH. destruct (Py.truthy _); reflexivity.
Qed.

Lemma staged_rows_app (l1 l2 : list (record K)) :
  forall k,
    staged_rows env k (l1 ++ l2)
    = staged_rows env k l1 ++ staged_rows env (k + length l1) l2.
Proof.
  induction l1 as [ | c l1 IH]; intros k.
  - cbn. rewrite Nat.add_0_r. reflexivity.
  - cbn [app staged_rows length]. rewrite He, IH.
    replace (S k + length l1)%nat with (k + S (length l1))%nat by lia.
    destruct (Py.truthy (rec_id K c)); reflexivity.
Qed.

Lemma staged_rows_without (i : Z) (l : list (record K)) :
  (forall c, c ∈ l -> rec_id K c <> Some i) ->
  forall k, rows_with i (staged_rows env k l) = [].
Proof.
  induction l as [ | c l IH]; intros Hl k; [reflexivity | ].
  cbn [staged_rows]. rewrite He.
  assert (Hc : rec_id K c <> Some i) by (apply Hl, list_elem_of_here).
  assert (Hrest : forall c', c' ∈ l -> rec_id K c' <> Some i)
    by (intros c' H'; apply Hl, list_elem_of_further, H').
  destruct (Py.truthy (rec_id K c)) eqn:T; [ | apply IH, Hrest].
  unfold rows_with. rewrite filter_cons_False; [apply IH, Hrest | ].
  cbn [row_of cratejoy_id]. intros E.
  destruct (rec_id K c) as [n | ]; [ | discriminate].
  cbn in E. congruence.
Qed.

(** The row staged for a record with a usable id is among the staged
    rows, and it is the last one for its id when no later record of the
    batch carries the id. *)
Lemma staged_row_of (before after : list (record K)) (c : record K) (i : Z) :
  rec_id K c = Some i -> i <> 0 ->
  row_of (now env) i c ∈ staged_rows env 0 (before ++ c :: after) /\
  ((forall c', c' ∈ after -> rec_id K c' <> Some i) ->
   last (rows_with i (staged_rows env 0 (before ++ c :: after)))
   = Some (row_of (now env) i c)).
Proof.
  intros Hid Hi. rewrite staged_rows_app.
  assert (Hc : staged_rows env (0 + length before) (c :: after)
               = row_of (now env) i c
                 :: staged_rows env (S (0 + length before)) after).
  { cbn [staged_rows]. rewrite He, Hid. cbn [Py.truthy from_option default id].
    destruct (Z.eqb_spec i 0) as [E | _]; [contradiction | reflexivity]. }
  rewrite Hc. split.
  - apply elem_of_app. right. apply list_elem_of_here.
  - intros Hafter. unfold rows_with. rewrite filter_app, filter_cons_True
      by reflexivity.
    fold (rows_with i (staged_rows env (S (0 + length before)) after)).
    rewrite (staged_rows_without i after Hafter).
    apply last_snoc.
Qed.

End TwoPasses.

(** C5.  For every entity kind (customers, orders), every staging table
    that satisfies the UNIQUE constraint, every natural id the batch
    routine accepts (not [None], not 0) and every two records that carry
    it: after a first pass stored one of them, whatever batches ran in
    between, a second pass whose last record for the id is the other one
    leaves exactly one row for the id, with the payload, the indexed
    attribute and the [fetched_at] of the second pass.  There was exactly
    one row for the id before the second pass too, and no id has two rows
    afterwards.  (A pass stores its batch when its statements execute
    and its commit returns.) *)
Theorem upsert_twice_one_row (K : EntityKind) (t : list (row K))
    (env1 env2 : session_env)
    (between : list (session_env * list (record K)))
    (before1 after1 before2 after2 : list (record K))
    (c1 c2 : record K) (i : Z) :
  unique_ids t ->
  rec_id K c1 = Some i -> rec_id K c2 = Some i -> i <> 0 ->
  (forall k, execute_ok env1 k = true) -> commit_ok env1 = true ->
  (forall k, execute_ok env2 k = true) -> commit_ok env2 = true ->
  (forall c, c ∈ after2 -> rec_id K c <> Some i) ->
  let first_pass := snd (process_batch env1 (before1 ++ c1 :: after1) t) in
  let later :=
    fold_left (fun t p => snd (process_batch (fst p) (snd p) t))
      between first_pass in
  let second_pass :=
    snd (process_batch env2 (before2 ++ c2 :: after2) later) in
  length (rows_with i later) = 1%nat /\
  rows_with i second_pass = [row_of (now env2) i c2] /\
  lookup_row i second_pass = Some (row_of (now env2) i c2) /\
  unique_ids second_pass /\
  forall j, (length (rows_with j second_pass) <= 1)%nat.
Proof.
  intros Hu Hid1 Hid2 Hi He1 Hc1 He2 Hc2 Hafter first_pass later second_pass.
  assert (H1 : unique_ids first_pass /\ i ∈ map cratejoy_id first_pass).
  { split; [apply StagingProps.process_batch_unique, Hu | ].
    unfold first_pass. rewrite StagingProps.process_batch_commit by exact Hc1.
    rewrite (no_statement_fails env1 He1).
    destruct (staged_row_of env1 He1 before1 after1 c1 i Hid1 Hi) as [Hin _].
    apply (upsert_all_has_key _ _ t Hin). }
  assert (H2 : unique_ids later /\ i ∈ map cratejoy_id later).
  { apply passes_keep_id, H1. }
  destruct H2 as [Hul Hil].
  assert (Hus : unique_ids second_pass)
    by (apply StagingProps.process_batch_unique, Hul).
  assert (Hlook : lookup_row i second_pass = Some (row_of (now env2) i c2)).
  { unfold second_pass.
    rewrite StagingProps.process_batch_commit by exact Hc2.
    rewrite (no_statement_fails env2 He2).
    rewrite (lookup_upsert_all _ _ _ Hul).
    destruct (staged_row_of env2 He2 before2 after2 c2 i Hid2 Hi) as [_ Hlast].
    rewrite (Hlast Hafter). reflexivity. }
  split; [apply rows_with_present; assumption | ].
  split; [apply rows_with_of_lookup; assumption | ].
  split; [exact Hlook | ]. split; [exact Hus | ].
  intros j. apply rows_with_at_most_one, Hus.
Qed.

Lemma upsert_twice_one_row_witness :
  rows_with 7
    (snd (_process_customer_batch (healthy 2) [bob; alice "v2"]
       (snd (_process_customer_batch (healthy 1) [alice "v1"; bob] []))))
  = [@row_of CustomerKind 2 7 (alice "v2")].
Proof.
  apply (upsert_twice_one_row CustomerKind [] (healthy 1) (healthy 2) []
           [] [bob] [bob] [] (alice "v1") (alice "v2") 7).
  - constructor.
  - reflexivity.
  - reflexivity.
  - discriminate.
  - reflexivity.
  - reflexivity.
  - reflexivity.
  - reflexivity.
  - intros c Hc. apply elem_of_nil in Hc. destruct Hc.
Defined.

End StoreProps.


(** ** utils/audit_tool.py: what the audits report *)

Module AuditsProps.
Import Staging Auditor Audits.

(** *** [audit_page_range] *)

(** The expected ids are the ids of the audited pages. *)
Lemma audit_pages_expected (api : source_api) (b : Z) (pages : list Z) :
  forall acc,
    (forall x, x ∈ expected_customer_ids acc <->
               exists p, p ∈ f_pages_audited acc /\ x ∈ customer_ids p) ->
    forall x,
      x ∈ expected_customer_ids (audit_pages api b pages acc) <->
      exists p, p ∈ f_pages_audited (audit_pages api b pages acc) /\
                x ∈ customer_ids p.
Proof.
  induction pages as [ | q pages IH]; intros acc H; [exact H | ].
  cbn [audit_pages]. destruct (api b q) as [e | [ | c cs]].
  - apply IH. exact H.
  - exact H.
  - apply IH. cbn [expected_customer_ids f_pages_audited]. intros x.
    rewrite elem_of_union, H. split.
    + intros [(p & Hp & Hx) | Hx].
      * exists p. split; [apply elem_of_app; left; exact Hp | exact Hx].
      * eexists. split; [apply elem_of_app; right; apply list_elem_of_here | ].
        cbn [customer_ids]. apply elem_of_elements. exact Hx.
    + intros (p & Hp & Hx). apply elem_of_app in Hp. destruct Hp as [Hp | Hp].
      * left. exists p. auto.
      * right. apply list_elem_of_singleton in Hp. subst p.
        cbn [customer_ids] in Hx. apply elem_of_elements in Hx. exact Hx.
Qed.

(** What the loop over the pages has collected stays collected. *)
Lemma audit_pages_keeps (api : source_api) (b : Z) (pages : list Z) :
  forall acc x,
    x ∈ expected_customer_ids acc ->
    x ∈ expected_customer_ids (audit_pages api b pages acc).
Proof.
  induction pages as [ | q pages IH]; intros acc x Hx; [exact Hx | ].
  cbn [audit_pages]. destruct (api b q) as [e | [ | c cs]].
  - apply IH. exact Hx.
  - exact Hx.
  - apply IH. cbn [expected_customer_ids]. apply elem_of_union. left.
    exact Hx.
Qed.

(** The ids of a page the loop reaches are expected. *)
Lemma audit_pages_reaches (api : source_api) (b q : Z)
    (cs : list Customer) (before after : list Z) :
  api b q = inr cs ->
  (forall p, p ∈ before -> api b p <> inr []) ->
  forall acc x,
    x ∈ listed_ids cs ->
    x ∈ expected_customer_ids (audit_pages api b (before ++ q :: after) acc).
Proof.
  intros Hq. induction before as [ | p before IH]; intros Hb acc x Hx.
  - cbn [app audit_pages]. rewrite Hq.
    destruct cs as [ | c cs]; [apply elem_of_nil in Hx; destruct Hx | ].
    apply audit_pages_keeps. cbn [expected_customer_ids].
    apply elem_of_union. right. unfold page_ids.
    apply elem_of_list_to_set. exact Hx.
  - cbn [app audit_pages].
    assert (Hp : api b p <> inr []) by (apply Hb, list_elem_of_here).
    assert (Hrest : forall p', p' ∈ before -> api b p' <> inr [])
      by (intros p' H'; apply Hb, list_elem_of_further, H').
    destruct (api b p) as [e | [ | c' cs']]; [ | congruence | ];
      apply (IH Hrest); exact Hx.
Qed.

(** A range audit raises as soon as a page it reaches lists an id. *)
Lemma range_audit_raises (api : source_api) (t : customers_table)
    (start_page end_page batch_size q : Z) (cs : list Customer) :
  start_page <= q <= end_page ->
  api batch_size q = inr cs ->
  listed_ids cs <> [] ->
  (forall p, start_page <= p < q -> api batch_size p <> inr []) ->
  audit_page_range api t start_page end_page batch_size = inl ArgumentError.
Proof.
  intros Hr Hq Hids Hbefore.
  pose proof (AuditorProps.audit_page_range_cases api t start_page end_page
                batch_size) as H. cbv zeta in H. rewrite H. clear H.
  apply decide_False. intros E.
  destruct (listed_ids cs) as [ | x ids] eqn:L; [congruence | ].
  assert (G : x ∈ (∅ : gset Z));
    [ | apply not_elem_of_empty in G; exact G].
  rewrite <- E.
  replace (end_page + 1 - start_page)
    with ((q - start_page) + (1 + (end_page - q))) by lia.
  rewrite seqZ_app by lia.
  rewrite (seqZ_cons (start_page + (q - start_page))) by lia.
  replace (start_page + (q - start_page)) with q by lia.
  apply (audit_pages_reaches api batch_size q cs _ _ Hq).
  - intros p Hp. apply elem_of_seqZ in Hp. apply Hbefore. lia.
  - rewrite L. apply list_elem_of_here.
Qed.

(** X13.  A range audit cannot report on a page that lists an id: when a
    page of the range lists at least one usable id, and no page of the
    range before it is empty, the lookup of the expected ids raises
    [ArgumentError] out of the audit, whatever the staging table holds
    and whatever the other pages do.  No report is returned, and so no
    missing id. *)
Theorem a_range_audit_raises_when_a_page_lists_an_id (api : source_api)
    (t : customers_table) (start_page end_page batch_size q : Z)
    (cs : list Customer) :
  start_page <= q <= end_page ->
  api batch_size q = inr cs ->
  listed_ids cs <> [] ->
  (forall p, start_page <= p < q -> api batch_size p <> inr []) ->
  audit_page_range api t start_page end_page batch_size = inl ArgumentError.
Proof. apply range_audit_raises. Qed.

Lemma a_range_audit_raises_when_a_page_lists_an_id_witness :
  audit_page_range flaky_source [staged 1] 0 3 2 = inl ArgumentError.
Proof.
  apply (a_range_audit_raises_when_a_page_lists_an_id flaky_source
           [staged 1] 0 3 2 0
           [Collector.customer_n 1; Collector.customer_n 2]).
  - lia.
  - reflexivity.
  - discriminate.
  - intros p Hp. lia.
Defined.

(** As long as no page is empty, every page is looked at: a page whose
    fetch raises goes to the errors and the loop moves on. *)
Lemma audit_pages_cover (api : source_api) (b : Z) (pages : list Z) :
  forall acc,
    (forall p, p ∈ pages -> api b p <> inr []) ->
    map page (f_pages_audited (audit_pages api b pages acc))
    = map page (f_pages_audited acc)
      ++ filter (fun p => fetch_fails api b p = false) pages /\
    map fst (f_api_errors (audit_pages api b pages acc))
    = map fst (f_api_errors acc)
      ++ filter (fun p => fetch_fails api b p = true) pages.
Proof.
  induction pages as [ | q pages IH]; intros acc H.
  - cbn. rewrite !app_nil_r. split; reflexivity.
  - cbn [audit_pages].
    assert (Hq : api b q <> inr []) by (apply H, list_elem_of_here).
    assert (Hps : forall p, p ∈ pages -> api b p <> inr [])
      by (intros p Hp; apply H, list_elem_of_further, Hp).
    destruct (api b q) as [e | [ | c cs]] eqn:Eq; [ | congruence | ].
    + assert (Hf : fetch_fails api b q = true)
        by (unfold fetch_fails; rewrite Eq; reflexivity).
      rewrite (filter_cons_True (fun p => fetch_fails api b p = true)
                 q pages Hf).
      rewrite (filter_cons_False (fun p => fetch_fails api b p = false)
                 q pages) by (rewrite Hf; discriminate).
      destruct (IH {| expected_customer_ids := expected_customer_ids acc;
                      f_pages_audited := f_pages_audited acc;
                      f_api_errors := f_api_errors acc ++ [(q, e)];
                      f_total_api_records := f_total_api_records acc |} Hps)
        as [E1 E2].
      rewrite E1, E2. cbn [f_pages_audited f_api_errors].
      rewrite map_app, <- app_assoc. split; reflexivity.
    + assert (Hf : fetch_fails api b q = false)
        by (unfold fetch_fails; rewrite Eq; reflexivity).
      rewrite (filter_cons_True (fun p => fetch_fails api b p = false)
                 q pages Hf).
      rewrite (filter_cons_False (fun p => fetch_fails api b p = true)
                 q pages) by (rewrite Hf; discriminate).
      match goal with
      | |- context [audit_pages api b pages ?a] =>
          destruct (IH a Hps) as [E1 E2]
      end.
      rewrite E1, E2. cbn [f_pages_audited f_api_errors].
      rewrite map_app, <- app_assoc. split; reflexivity.
Qed.

Lemma audit_pages_total (api : source_api) (b : Z) (pages : list Z) :
  forall acc,
    f_total_api_records acc
    = foldr Z.add 0 (map api_count (f_pages_audited acc)) ->
    f_total_api_records (audit_pages api b pages acc)
    = foldr Z.add 0
        (map api_count (f_pages_audited (audit_pages api b pages acc))).
Proof.
  induction pages as [ | q pages IH]; intros acc H; [exact H | ].
  cbn [audit_pages]. destruct (api b q) as [e | [ | c cs]].
  - apply IH. exact H.
  - exact H.
  - apply IH. cbn [f_total_api_records f_pages_audited].
    rewrite map_app, foldr_app. cbn [map foldr api_count].
    rewrite H. generalize (Z.of_nat (length (c :: cs))). intros n.
    generalize (map api_count (f_pages_audited acc)). intros l.
    induction l as [ | y l IHl]; cbn [foldr]; lia.
Qed.

(** X14.  A failed page does not end the page loop of a range audit.
    Whenever a range audit returns a report and no page of the range is
    empty, the loop has looked at every page of the range: the pages
    whose fetch raised are the ones listed in [api_errors], in order,
    every other page is listed in [pages_audited], and
    [total_api_records] is the sum of the audited pages' counts.  (A
    report is returned only when no audited page lists an id, and such a
    report has no missing id.) *)
Theorem a_failed_page_does_not_end_the_audit (api : source_api)
    (t : customers_table) (start_page end_page batch_size : Z)
    (res : audit_results) :
  (forall p, start_page <= p <= end_page -> api batch_size p <> inr []) ->
  audit_page_range api t start_page end_page batch_size = inr res ->
  let range := seqZ start_page (end_page + 1 - start_page) in
  map fst (api_errors res)
  = filter (fun p => fetch_fails api batch_size p = true) range /\
  map page (pages_audited res)
  = filter (fun p => fetch_fails api batch_size p = false) range /\
  total_api_records (audit_summary res)
  = foldr Z.add 0 (map api_count (pages_audited res)) /\
  missing_from_db res = [] /\
  forall p, p ∈ pages_audited res -> customer_ids p = [].
Proof.
  intros H Hres range.
  pose proof (AuditorProps.audit_page_range_cases api t start_page end_page
                batch_size) as Hc. cbv zeta in Hc. rewrite Hc in Hres.
  clear Hc.
  set (acc0 := {| expected_customer_ids := ∅; f_pages_audited := [];
                  f_api_errors := []; f_total_api_records := 0 |}) in *.
  destruct (decide _) as [E | E]; [ | discriminate].
  inversion Hres; subst res; clear Hres.
  cbn [api_errors pages_audited audit_summary total_api_records
       missing_from_db].
  destruct (audit_pages_cover api batch_size range acc0) as [E1 E2].
  { intros p Hp. apply elem_of_seqZ in Hp. apply H. lia. }
  split; [exact E2 | ]. split; [exact E1 | ].
  split; [apply audit_pages_total; reflexivity | ].
  split; [reflexivity | ].
  intros p Hp. destruct (customer_ids p) as [ | x ids] eqn:L; [reflexivity | ].
  exfalso.
  assert (G : x ∈ (∅ : gset Z));
    [ | apply not_elem_of_empty in G; exact G].
  rewrite <- E. apply (audit_pages_expected api batch_size range acc0).
  - intros y. cbn. split.
    + intros Hy. apply not_elem_of_empty in Hy. destruct Hy.
    + intros (p0 & Hp0 & _). apply elem_of_nil in Hp0. destruct Hp0.
  - exists p. split; [exact Hp | ]. rewrite L. apply list_elem_of_here.
Qed.

Lemma a_failed_page_does_not_end_the_audit_witness :
  exists res,
    audit_page_range idless_source [staged 1] 0 3 2 = inr res /\
    map fst (api_errors res) = [1] /\
    map page (pages_audited res) = [0; 2; 3] /\
    total_api_records (audit_summary res) = 3 /\
    missing_from_db res = [].
Proof.
  set (res :=
         {| pages_audited :=
              [ {| page := 0; api_count := 1; customer_ids := [] |};
                {| page := 2; api_count := 1; customer_ids := [] |};
                {| page := 3; api_count := 1; customer_ids := [] |} ];
            missing_from_db := [];
            extra_in_db := [];
            data_mismatches := [];
            api_errors := [(1, RequestException)];
            audit_summary :=
              {| total_api_records := 3; total_db_records := 0;
                 missing_count := 0; extra_count := 0;
                 mismatch_count := 0 |} |}).
  assert (Hres : audit_page_range idless_source [staged 1] 0 3 2 = inr res).
  { rewrite (AuditorProps.audit_page_range_cases idless_source [staged 1]
               0 3 2).
    cbv zeta. rewrite decide_True.
    - vm_compute. reflexivity.
    - apply (bool_decide_unpack _). vm_compute. exact I. }
  exists res. split; [exact Hres | ].
  destruct (a_failed_page_does_not_end_the_audit idless_source [staged 1]
              0 3 2 res) as (H1 & H2 & H3 & H4 & _).
  - intros p Hp. unfold idless_source.
    destruct (Z.eqb_spec p 1); [discriminate | ].
    destruct (Z.leb_spec 0 p); [ | lia].
    destruct (Z.ltb_spec p 4); [discriminate | lia].
  - exact Hres.
  - split; [exact H1 | ]. split; [exact H2 | ]. split; [exact H3 | exact H4].
Defined.

(** The loop ends at an empty page. *)
Lemma audit_pages_stop (api : source_api) (b p : Z) (before after : list Z) :
  api b p = inr [] ->
  forall acc,
    audit_pages api b (before ++ p :: after) acc
    = audit_pages api b before acc.
Proof.
  intros Hp. induction before as [ | q before IH]; intros acc.
  - cbn [app audit_pages]. rewrite Hp. reflexivity.
  - cbn [app audit_pages]. destruct (api b q) as [e | [ | c cs]];
      [apply IH | reflexivity | apply IH].
Qed.

(** X15.  The page loop of a range audit ends at the first empty page:
    with an empty page [p] in the range, the outcome of the audit (its
    report, or the exception of the lookup) is the outcome for the range
    that ends before [p], whatever the later pages hold. *)
Theorem an_empty_page_ends_the_audit (api : source_api)
    (t : customers_table) (start_page end_page batch_size p : Z) :
  start_page <= p <= end_page ->
  api batch_size p = inr [] ->
  audit_page_range api t start_page end_page batch_size
  = audit_page_range api t start_page (p - 1) batch_size.
Proof.
  intros Hr Hp. unfold audit_page_range.
  replace (end_page + 1 - start_page)
    with ((p - start_page) + (1 + (end_page - p))) by lia.
  rewrite seqZ_app by lia.
  rewrite (seqZ_cons (start_page + (p - start_page))) by lia.
  replace (start_page + (p - start_page)) with p by lia.
  rewrite (audit_pages_stop api batch_size p _ _ Hp).
  replace (p - 1 + 1 - start_page) with (p - start_page) by lia.
  reflexivity.
Qed.

Lemma an_empty_page_ends_the_audit_witness :
  audit_page_range idless_source [] 0 9 2
  = audit_page_range idless_source [] 0 (4 - 1) 2.
Proof.
  apply (an_empty_page_ends_the_audit idless_source [] 0 9 2 4);
    [lia | reflexivity].
Defined.

(** *** [audit_specific_page] *)

Lemma lookup_row_None (i : Z) (t : customers_table) :
  lookup_row i t = None <-> i ∉ map cratejoy_id t.
Proof.
  split.
  - unfold lookup_row, rows_with. intros H Hin.
    apply list_elem_of_fmap in Hin. destruct Hin as (r & -> & Hr).
    apply head_None in H.
    assert (Hf : r ∈ filter (fun r0 : row CustomerKind =>
                               cratejoy_id r0 = cratejoy_id r) t)
      by (apply list_elem_of_filter; auto).
    rewrite H in Hf. apply elem_of_nil in Hf. exact Hf.
  - intros H. unfold lookup_row.
    rewrite StagingProps.rows_with_absent by exact H. reflexivity.
Qed.

Lemma listed_ids_cons (c : Customer) (cs : list Customer) :
  listed_ids (c :: cs)
  = if Py.truthy (c_id c) then default 0 (c_id c) :: listed_ids cs
    else listed_ids cs.
Proof.
  unfold listed_ids. cbn [omap list_omap].
  destruct (c_id c) as [n | ]; cbn; [destruct (negb (n =? 0)) | ];
    reflexivity.
Qed.

Lemma listed_or_without_id (cs : list Customer) :
  (length (listed_ids cs)
   + length (filter (fun c => Py.truthy (c_id c) = false) cs))%nat
  = length cs.
Proof.
  induction cs as [ | c cs IH]; [reflexivity | ].
  rewrite listed_ids_cons, filter_cons.
  destruct (Py.truthy (c_id c)).
  - rewrite decide_False by discriminate. cbn [length]. lia.
  - rewrite decide_True by reflexivity. cbn [length]. lia.
Qed.

Lemma staged_or_not (t : customers_table) (l : list Z) :
  (length (filter (fun i => i ∈ map cratejoy_id t) l)
   + length (filter (fun i => i ∉ map cratejoy_id t) l))%nat
  = length l.
Proof.
  induction l as [ | i l IH]; [reflexivity | ].
  rewrite !filter_cons.
  destruct (decide (i ∈ map cratejoy_id t)) as [H | H].
  - rewrite decide_False by tauto. cbn [length]. lia.
  - rewrite decide_True by exact H. cbn [length]. lia.
Qed.

(** What the loop over the customers of a page adds to the audit. *)
Lemma audit_fold (t : customers_table) (cs : list Customer) :
  forall a0,
    let a := fold_left (audit_customer t) cs a0 in
    pa_page a = pa_page a0 /\
    pa_api_count a = pa_api_count a0 /\
    present_customers a
    = present_customers a0
      ++ filter (fun i => i ∈ map cratejoy_id t) (listed_ids cs) /\
    map m_customer_id (missing_customers a)
    = map m_customer_id (missing_customers a0)
      ++ filter (fun i => i ∉ map cratejoy_id t) (listed_ids cs) /\
    db_count a
    = db_count a0
      + Z.of_nat (length (filter (fun i => i ∈ map cratejoy_id t)
                            (listed_ids cs))).
Proof.
  induction cs as [ | c cs IH]; intros a0; cbn [fold_left].
  - cbn. rewrite !app_nil_r. repeat split; lia.
  - destruct (IH (audit_customer t a0 c)) as (E1 & E2 & E3 & E4 & E5).
    cbv zeta. rewrite E1, E2, E3, E4, E5. rewrite listed_ids_cons.
    unfold audit_customer.
    destruct (Py.truthy (c_id c)).
    + destruct (lookup_row (default 0 (c_id c)) t) as [r | ] eqn:L.
      * assert (Hin : default 0 (c_id c) ∈ map cratejoy_id t).
        { destruct (decide (default 0 (c_id c) ∈ map cratejoy_id t))
            as [Hin | Hout]; [exact Hin | ].
          apply lookup_row_None in Hout. congruence. }
        rewrite (filter_cons_True (fun i => i ∈ map cratejoy_id t) _ _ Hin).
        rewrite (filter_cons_False (fun i => i ∉ map cratejoy_id t))
          by (intros H; apply H; exact Hin).
        cbn [pa_page pa_api_count present_customers missing_customers
             db_count length].
        rewrite <- app_assoc. repeat split; try reflexivity. lia.
      * assert (Hout : default 0 (c_id c) ∉ map cratejoy_id t)
          by (apply lookup_row_None; exact L).
        rewrite (filter_cons_False (fun i => i ∈ map cratejoy_id t))
          by exact Hout.
        rewrite (filter_cons_True (fun i => i ∉ map cratejoy_id t) _ _ Hout).
        cbn [pa_page pa_api_count present_customers missing_customers
             db_count].
        rewrite map_app, <- app_assoc. repeat split; reflexivity.
    + cbn [pa_page pa_api_count present_customers missing_customers
           db_count].
      repeat split; reflexivity.
Qed.

(** X16.  The audit of a page the source returns accounts for every customer
    of the page once: the ids the page lists are split, in order, into the
    present ones (staged) and the missing ones (not staged), [db_count] is
    the number of present ones, and the page's count is [db_count] plus the
    missing customers plus the customers that carry no usable id. *)
Theorem page_audit_accounts_for_every_customer (api : source_api)
    (t : customers_table) (p batch_size : Z) (cs : list Customer) :
  api batch_size p = inr cs ->
  exists a,
    audit_specific_page api t p batch_size = inr a /\
    pa_api_count a = Z.of_nat (length cs) /\
    present_customers a
    = filter (fun i => i ∈ map cratejoy_id t) (listed_ids cs) /\
    map m_customer_id (missing_customers a)
    = filter (fun i => i ∉ map cratejoy_id t) (listed_ids cs) /\
    db_count a = Z.of_nat (length (present_customers a)) /\
    pa_api_count a
    = db_count a + Z.of_nat (length (missing_customers a))
      + Z.of_nat (length (filter (fun c => Py.truthy (c_id c) = false) cs)).
Proof.
  intros Hapi. unfold audit_specific_page. rewrite Hapi.
  eexists. split; [reflexivity | ].
  match goal with
  | |- context [fold_left (audit_customer t) cs ?a0] =>
      destruct (audit_fold t cs a0) as (_ & E2 & E3 & E4 & E5)
  end.
  cbn [pa_api_count present_customers missing_customers db_count map app]
    in E2, E3, E4, E5.
  rewrite E2, E3, E4, E5.
  repeat split; try reflexivity.
  assert (Hm : length (missing_customers
                 (fold_left (audit_customer t) cs
                    {| pa_page := p;
                       pa_api_count := Z.of_nat (length cs);
                       db_count := 0; missing_customers := [];
                       present_customers := []; data_issues := [] |}))
               = length (filter (fun i => i ∉ map cratejoy_id t)
                           (listed_ids cs))).
  { rewrite <- E4. symmetry. apply length_map. }
  rewrite Hm.
  pose proof (listed_or_without_id cs).
  pose proof (staged_or_not t (listed_ids cs)). lia.
Qed.

Lemma page_audit_accounts_for_every_customer_witness :
  exists a,
    audit_specific_page one_page [staged 2] 0 3 = inr a /\
    pa_api_count a = 3 /\
    present_customers a = [2] /\
    map m_customer_id (missing_customers a) = [1] /\
    db_count a = Z.of_nat (length (present_customers a)) /\
    pa_api_count a = db_count a + Z.of_nat (length (missing_customers a)) + 1.
Proof.
  destruct (page_audit_accounts_for_every_customer one_page [staged 2] 0 3
              [Collector.customer_n 1;
               {| c_id := None; c_email := None;
                  c_subscription_status := None; c_rest := "{}" |};
               Collector.customer_n 2] eq_refl)
    as (a & E & H1 & H2 & H3 & H4 & H5).
  exists a. split; [exact E | ]. split; [exact H1 | ].
  split; [exact H2 | ]. split; [exact H3 | ]. split; [exact H4 | exact H5].
Defined.

(** X17.  The audit of one page reports where the range audit of that
    page cannot: for a page that lists at least one usable id, the
    detailed audit returns a report whose missing customers are exactly
    the listed ids that the staging table does not hold, while the range
    audit of that page alone raises [ArgumentError]. *)
Theorem the_page_audit_reports_where_the_range_audit_raises
    (api : source_api) (t : customers_table) (p batch_size : Z)
    (cs : list Customer) :
  api batch_size p = inr cs ->
  listed_ids cs <> [] ->
  (exists a,
     audit_specific_page api t p batch_size = inr a /\
     forall i,
       i ∈ map m_customer_id (missing_customers a) <->
       i ∈ listed_ids cs /\ i ∉ map cratejoy_id t) /\
  audit_page_range api t p p batch_size = inl ArgumentError.
Proof.
  intros Hapi Hids. split.
  - unfold audit_specific_page. rewrite Hapi.
    eexists. split; [reflexivity | ]. intros i.
    match goal with
    | |- context [fold_left (audit_customer t) cs ?a0] =>
        destruct (audit_fold t cs a0) as (_ & _ & _ & E4 & _)
    end.
    cbn [missing_customers map app] in E4. rewrite E4.
    rewrite list_elem_of_filter. tauto.
  - apply (range_audit_raises api t p p batch_size p cs);
      [lia | exact Hapi | exact Hids | intros q Hq; lia].
Qed.

Lemma the_page_audit_reports_where_the_range_audit_raises_witness :
  (exists a,
     audit_specific_page one_page [staged 2] 0 3 = inr a /\
     forall i,
       i ∈ map m_customer_id (missing_customers a) <->
       i ∈ [1; 2] /\ i ∉ map cratejoy_id [staged 2]) /\
  audit_page_range one_page [staged 2] 0 0 3 = inl ArgumentError.
Proof.
  apply (the_page_audit_reports_where_the_range_audit_raises one_page
           [staged 2] 0 3
           [Collector.customer_n 1;
            {| c_id := None; c_email := None;
               c_subscription_status := None; c_rest := "{}" |};
            Collector.customer_n 2]).
  - reflexivity.
  - discriminate.
Defined.

(** *** Staging a page, then auditing it *)

Lemma upsert_all_cons {K : EntityKind} (r : row K) (rs t : list (row K)) :
  upsert_all (r :: rs) t = upsert_all rs (upsert r t).
Proof. reflexivity. Qed.

Lemma filter_all_in {A} (P : A -> Prop) `{forall x, Decision (P x)}
    (l : list A) :
  (forall x, x ∈ l -> P x) -> filter P l = l.
Proof.
  induction l as [ | x l IH]; intros Hl; [reflexivity | ].
  rewrite filter_cons_True by (apply Hl, list_elem_of_here).
  f_equal. apply IH. intros y Hy. apply Hl, list_elem_of_further, Hy.
Qed.

Lemma filter_none_in {A} (P : A -> Prop) `{forall x, Decision (P x)}
    (l : list A) :
  (forall x, x ∈ l -> ~ P x) -> filter P l = [].
Proof.
  induction l as [ | x l IH]; intros Hl; [reflexivity | ].
  rewrite filter_cons_False by (apply Hl, list_elem_of_here).
  apply IH. intros y Hy. apply Hl, list_elem_of_further, Hy.
Qed.

Section StageThenAudit.
Variable env : session_env.
Hypothesis He : forall k, execute_ok env k = true.

Lemma staged_rows_executed (k : nat) (c : Customer) (cs : list Customer) :
  @staged_rows CustomerKind env k (c :: cs)
  = if Py.truthy (c_id c)
    then @row_of CustomerKind (now env) (default 0 (c_id c)) c
         :: @staged_rows CustomerKind env (S k) cs
    else @staged_rows CustomerKind env (S k) cs.
Proof.
  cbn [staged_rows]. change (rec_id CustomerKind c) with (c_id c).
  rewrite He. reflexivity.
Qed.

Lemma batch_never_aborts (cs : list Customer) :
  forall k, @batch_aborts CustomerKind env k cs = false.
Proof.
  induction cs as [ | c cs IH]; intros k; [reflexivity | ].
  cbn [batch_aborts]. rewrite He, IH. destruct (Py.truthy _); reflexivity.
Qed.

Lemma listed_ids_are_staged (cs : list Customer) :
  forall (k : nat) (t : customers_table) (i : Z),
    i ∈ listed_ids cs ->
    i ∈ map cratejoy_id (upsert_all (@staged_rows CustomerKind env k cs) t).
Proof.
  induction cs as [ | c cs IH]; intros k t i Hi.
  - apply elem_of_nil in Hi. destruct Hi.
  - rewrite listed_ids_cons in Hi. rewrite staged_rows_executed.
    destruct (Py.truthy (c_id c)); [ | apply IH, Hi].
    rewrite upsert_all_cons.
    apply elem_of_cons in Hi. destruct Hi as [-> | Hi]; [ | apply IH, Hi].
    apply StagingProps.upsert_all_keeps_key.
    apply (StagingProps.upsert_has_key
             (@row_of CustomerKind (now env) (default 0 (c_id c)) c)).
Qed.

Lemma staged_ids_are_listed (cs : list Customer) :
  forall (k : nat) (i : Z),
    i ∈ map cratejoy_id (@staged_rows CustomerKind env k cs) ->
    i ∈ listed_ids cs.
Proof.
  induction cs as [ | c cs IH]; intros k i Hi.
  - apply elem_of_nil in Hi. destruct Hi.
  - rewrite staged_rows_executed in Hi. rewrite listed_ids_cons.
    destruct (Py.truthy (c_id c)); [ | apply (IH _ _ Hi)].
    cbn [map cratejoy_id row_of] in Hi.
    apply elem_of_cons in Hi. destruct Hi as [-> | Hi].
    + apply list_elem_of_here.
    + apply list_elem_of_further, (IH _ _ Hi).
Qed.

(** With distinct ids on the page, the last row staged for a customer's
    id is the customer's. *)
Lemma last_staged (cs : list Customer) :
  NoDup (listed_ids cs) ->
  forall (k : nat) (c : Customer),
    c ∈ cs ->
    Py.truthy (c_id c) = true ->
    last (rows_with (default 0 (c_id c)) (@staged_rows CustomerKind env k cs))
    = Some (@row_of CustomerKind (now env) (default 0 (c_id c)) c).
Proof.
  induction cs as [ | c0 cs IH]; intros Hnd k c Hc HT.
  - apply elem_of_nil in Hc. destruct Hc.
  - rewrite listed_ids_cons in Hnd. rewrite staged_rows_executed.
    destruct (Py.truthy (c_id c0)) eqn:T0.
    + apply NoDup_cons in Hnd. destruct Hnd as [Hout Hnd].
      rewrite StoreProps.last_rows_with_cons.
      apply elem_of_cons in Hc. destruct Hc as [-> | Hc].
      * rewrite StagingProps.rows_with_absent.
        { cbn [last row_of cratejoy_id].
          rewrite decide_True by reflexivity. reflexivity. }
        intros Hin. apply Hout. apply (staged_ids_are_listed _ _ _ Hin).
      * rewrite (IH Hnd (S k) c Hc HT). reflexivity.
    + apply elem_of_cons in Hc. destruct Hc as [-> | Hc]; [congruence | ].
      apply (IH Hnd (S k) c Hc HT).
Qed.

End StageThenAudit.

(** Where the issues of a page's audit come from. *)
Lemma audit_fold_issues (t : customers_table) (cs : list Customer) :
  forall a0 d,
    d ∈ data_issues (fold_left (audit_customer t) cs a0) ->
    d ∈ data_issues a0 \/
    (exists c, d = missing_customer_id c) \/
    (exists c r, c ∈ cs /\ Py.truthy (c_id c) = true /\
                 lookup_row (default 0 (c_id c)) t = Some r /\
                 raw_data r <> c).
Proof.
  induction cs as [ | c cs IH]; intros a0 d Hd; cbn [fold_left] in Hd.
  - left. exact Hd.
  - apply IH in Hd. destruct Hd as [Hd | [Hd | (c' & r & Hc & HT & HL & Hne)]].
    + unfold audit_customer in Hd.
      destruct (Py.truthy (c_id c)) eqn:T.
      * destruct (lookup_row (default 0 (c_id c)) t) as [r | ] eqn:L;
          cbn [data_issues] in Hd; [ | left; exact Hd].
        destruct (Customer_eq_dec (raw_data r) c) as [E | E];
          [left; exact Hd | ].
        apply elem_of_app in Hd. destruct Hd as [Hd | Hd]; [left; exact Hd | ].
        right. right. exists c, r.
        split; [apply list_elem_of_here | auto].
      * cbn [data_issues] in Hd.
        apply elem_of_app in Hd. destruct Hd as [Hd | Hd]; [left; exact Hd | ].
        apply list_elem_of_singleton in Hd. right. left. exists c. exact Hd.
    + right. left. exact Hd.
    + right. right. exists c', r.
      split; [apply list_elem_of_further, Hc | auto].
Qed.

(** X18.  Staging a page and auditing it fit together: once the batch of a
    page was committed with every statement executed, the audit of the same
    page reports no missing customer and lists every id of the page as
    present; when the ids of the page are distinct, the only issues it
    reports are customers without an id (no data mismatch). *)
Theorem a_staged_page_audits_clean (api : source_api) (env : session_env)
    (t : customers_table) (p batch_size : Z) (cs : list Customer) :
  unique_ids t ->
  (forall k, execute_ok env k = true) ->
  commit_ok env = true ->
  api batch_size p = inr cs ->
  exists a,
    audit_specific_page api (snd (_process_customer_batch env cs t))
      p batch_size = inr a /\
    missing_customers a = [] /\
    present_customers a = listed_ids cs /\
    (NoDup (listed_ids cs) ->
     forall d, d ∈ data_issues a -> exists c, d = missing_customer_id c).
Proof.
  intros Hu He Hc Hapi. unfold _process_customer_batch.
  rewrite (@StagingProps.process_batch_commit CustomerKind env cs t Hc).
  rewrite (batch_never_aborts env He cs 0%nat).
  set (t' := upsert_all (@staged_rows CustomerKind env 0 cs) t).
  unfold audit_specific_page. rewrite Hapi.
  eexists. split; [reflexivity | ].
  match goal with
  | |- context [fold_left (audit_customer t') cs ?a0] =>
      destruct (audit_fold t' cs a0) as (_ & _ & E3 & E4 & _);
      pose proof (audit_fold_issues t' cs a0) as Hissues
  end.
  cbn [present_customers missing_customers data_issues map app] in *.
  assert (Hall : forall i, i ∈ listed_ids cs -> i ∈ map cratejoy_id t')
    by (intros i Hi; apply (listed_ids_are_staged env He), Hi).
  split; [ | split].
  - rewrite filter_none_in in E4 by (intros i Hi Hout; apply Hout, Hall, Hi).
    destruct (missing_customers _); [reflexivity | discriminate].
  - rewrite E3. apply filter_all_in. exact Hall.
  - intros Hnd d Hd. apply Hissues in Hd.
    destruct Hd as [Hd | [Hd | (c & r & Hin & HT & HL & Hne)]].
    + apply elem_of_nil in Hd. destruct Hd.
    + exact Hd.
    + exfalso. unfold t' in HL.
      rewrite (StoreProps.lookup_upsert_all _ _ _ Hu) in HL.
      rewrite (last_staged env He cs Hnd 0%nat c Hin HT) in HL.
      inversion HL; subst r. apply Hne. reflexivity.
Qed.

Lemma a_staged_page_audits_clean_witness :
  exists a,
    audit_specific_page one_page
      (snd (_process_customer_batch (healthy 0)
              [Collector.customer_n 1;
               {| c_id := None; c_email := None;
                  c_subscription_status := None; c_rest := "{}" |};
               Collector.customer_n 2] [])) 0 3 = inr a /\
    missing_customers a = [] /\
    present_customers a = [1; 2] /\
    (NoDup [1; 2] ->
     forall d, d ∈ data_issues a -> exists c, d = missing_customer_id c).
Proof.
  apply (a_staged_page_audits_clean one_page (healthy 0) [] 0 3
           [Collector.customer_n 1;
            {| c_id := None; c_email := None;
               c_subscription_status := None; c_rest := "{}" |};
            Collector.customer_n 2]).
  - constructor.
  - reflexivity.
  - reflexivity.
  - reflexivity.
Defined.

(** *** [find_customer_id_gaps] *)

Lemma strict_of_sorted_nodup (l : list Z) :
  StronglySorted Z.le l -> NoDup l -> StronglySorted Z.lt l.
Proof.
  induction 1 as [ | x l Hs IH Hall]; intros Hnd; constructor.
  - apply IH. apply NoDup_cons in Hnd. tauto.
  - apply NoDup_cons in Hnd. destruct Hnd as [Hx _].
    rewrite Forall_forall in Hall |- *. intros y Hy.
    specialize (Hall y Hy).
    assert (x <> y) by (intros ->; apply Hx; exact Hy). lia.
Qed.

(** X19.  The gap search returns exactly the ids of the range that the
    staging table does not hold, in strictly increasing order (so each
    once); the range is empty when its end is below its start. *)
Theorem gaps_are_the_unstaged_ids_in_order (start_id end_id : Z)
    (t : customers_table) :
  (forall i, i ∈ find_customer_id_gaps start_id end_id t <->
             start_id <= i <= end_id /\ i ∉ map cratejoy_id t) /\
  StronglySorted Z.lt (find_customer_id_gaps start_id end_id t).
Proof.
  unfold find_customer_id_gaps. split.
  - intros i. rewrite merge_sort_Permutation.
    rewrite elem_of_elements, elem_of_difference, !elem_of_list_to_set.
    rewrite merge_sort_Permutation, elem_of_seqZ, list_elem_of_filter.
    split.
    + intros [H1 H2]. split; [lia | ].
      intros H. apply H2. split; [lia | exact H].
    + intros [H1 H2]. split; [lia | ]. intros [_ H]. auto.
  - apply strict_of_sorted_nodup.
    + apply StronglySorted_merge_sort; apply _.
    + rewrite merge_sort_Permutation. apply NoDup_elements.
Qed.

(** *** The density overview counts every row *)

Lemma sum_app (l1 l2 : list Z) :
  foldr Z.add 0 (l1 ++ l2) = foldr Z.add 0 l1 + foldr Z.add 0 l2.
Proof. induction l1 as [ | x l1 IH]; cbn [app foldr]; lia. Qed.

Lemma chunk_counts (pages_per_chunk : Z) (ids : list Z) (step count : nat) :
  step = Z.to_nat (pages_per_chunk * 1000) ->
  forall start,
    foldr Z.add 0
      (map record_count
         (flat_map (chunk_stat pages_per_chunk ids)
            (Py.range_from start step count)))
    = Z.of_nat
        (length (flat_map (fun i => Py.slice ids i (i + step))
                   (Py.range_from start step count))).
Proof.
  intros ->. induction count as [ | count IH]; intros start;
    [reflexivity | ].
  cbn [Py.range_from flat_map].
  rewrite map_app, sum_app, length_app, IH. unfold chunk_stat.
  destruct (Py.slice ids start (start + Z.to_nat (pages_per_chunk * 1000)));
    cbn [map foldr record_count length]; lia.
Qed.

(** X20.  With a positive chunk width, the density overview counts every
    staged row in exactly one bucket: the buckets' record counts add up to
    the number of rows of the staging table. *)
Theorem overview_counts_every_staged_row (pages_per_chunk : Z)
    (t : customers_table) (stats : list page_stat) :
  0 < pages_per_chunk ->
  get_database_stats_by_page_range pages_per_chunk t = inr stats ->
  foldr Z.add 0 (map record_count stats) = Z.of_nat (length t).
Proof.
  intros Hp. unfold get_database_stats_by_page_range.
  destruct (Z.eqb_spec pages_per_chunk 0) as [E0 | E0]; [lia | ].
  destruct (Z.ltb_spec pages_per_chunk 0) as [Hneg | _]; [lia | ].
  intros H. inversion H; subst stats. unfold Py.range_step.
  rewrite (chunk_counts pages_per_chunk (ordered_ids t) _ _ eq_refl).
  fold (Py.range_step (length (ordered_ids t))
          (Z.to_nat (pages_per_chunk * 1000))).
  rewrite AuditorProps.chunks_of_range by lia.
  unfold ordered_ids.
  rewrite (Permutation_length (merge_sort_Permutation Z.le _)).
  rewrite length_map. reflexivity.
Qed.

Lemma overview_counts_every_staged_row_witness :
  foldr Z.add 0
    (map record_count
       [ {| page_range := (0, 0); record_count := 1000; first_id := 1;
            last_id := 1000; expected_count := 1000 |};
         {| page_range := (1, 1); record_count := 1000; first_id := 1001;
            last_id := 2000; expected_count := 1000 |};
         {| page_range := (2, 2); record_count := 500; first_id := 2001;
            last_id := 2500; expected_count := 1000 |} ])
  = Z.of_nat (length (map staged (seqZ 1 2500))).
Proof.
  apply (overview_counts_every_staged_row 1 (map staged (seqZ 1 2500)));
    [lia | vm_compute; reflexivity].
Defined.

(** X21.  In every density overview, a bucket holds at most the expected
    count, and the only bucket that can hold fewer is the last one: the
    difference the overview shows is 0 for every other bucket, whatever ids
    are missing from the table. *)
Theorem only_the_last_bucket_can_be_short (pages_per_chunk : Z)
    (t : customers_table) (stats : list page_stat) (s : page_stat) :
  get_database_stats_by_page_range pages_per_chunk t = inr stats ->
  s ∈ stats ->
  difference s <= 0 /\ (difference s <> 0 -> last stats = Some s).
Proof. apply AuditorProps.only_last_bucket_can_be_short. Qed.

Lemma only_the_last_bucket_can_be_short_witness :
  let short := {| page_range := (2, 2); record_count := 500;
                  first_id := 2001; last_id := 2500;
                  expected_count := 1000 |} in
  difference short <= 0 /\
  (difference short <> 0 ->
   last [ {| page_range := (0, 0); record_count := 1000; first_id := 1;
             last_id := 1000; expected_count := 1000 |};
          {| page_range := (1, 1); record_count := 1000; first_id := 1001;
             last_id := 2000; expected_count := 1000 |};
          short ] = Some short).
Proof.
  apply (only_the_last_bucket_can_be_short 1 (map staged (seqZ 1 2500))).
  - vm_compute. reflexivity.
  - apply list_elem_of_further, list_elem_of_further, list_elem_of_here.
Defined.


Lemma gaps_are_the_unstaged_ids_in_order_witness :
  2 ∈ find_customer_id_gaps 1 3 [staged 1; staged 3].
Proof.
  apply (gaps_are_the_unstaged_ids_in_order 1 3 [staged 1; staged 3]).
  split; [lia | ]. intros H.
  apply elem_of_cons in H. destruct H as [H | H]; [discriminate | ].
  apply list_elem_of_singleton in H. discriminate.
Defined.

End AuditsProps.


(** ** utils/shopify_migrator.py: what a run sends and counts *)

Module RunsProps.
Import Staging Migrator Runs.

Lemma api_writes_app (a b : list event) :
  api_writes (a ++ b) = api_writes a ++ api_writes b.
Proof. apply filter_app. Qed.

Section Target.
Variable T : target.

(** *** Dry runs *)

Lemma migrate_unit_dry (customers : list (row CustomerKind))
    (staged_orders : list (row OrderKind)) (batch_size : Z)
    (progress : exn + unit) (cratejoy_id : Z) (n : tally)
    (tr : list event) :
  api_writes (snd (migrate_unit T customers staged_orders batch_size true
                     progress cratejoy_id (n, tr)))
  = api_writes tr.
Proof.
  unfold migrate_unit. destruct progress as [e | u].
  - cbn [snd]. rewrite api_writes_app. apply app_nil_r.
  - destruct (_assemble_customer_record customers staged_orders cratejoy_id);
      [ | reflexivity].
    cbn [_migrate_single_customer].
    destruct (batch_size =? 0); cbn [snd]; rewrite !api_writes_app;
      cbn; rewrite ?app_nil_r; reflexivity.
Qed.

Lemma migrate_loop_dry (R : run_env) (customers : list (row CustomerKind))
    (staged_orders : list (row OrderKind)) (batch_size : Z)
    (selected : list Z) :
  forall i st n tr,
    migrate_loop T R customers staged_orders batch_size true i selected st
    = inr (n, tr) ->
    api_writes (snd st) = [] ->
    api_writes tr = [].
Proof.
  induction selected as [ | id selected IH]; intros i [n0 tr0] n tr H H0;
    cbn [migrate_loop] in H.
  - inversion H; subst. exact H0.
  - destruct (negb (is_running R i)); [inversion H; subst; exact H0 | ].
    destruct (stop_callback R i) as [e | [ | ]];
      [discriminate | inversion H; subst; exact H0 | ].
    apply IH in H; [exact H | ].
    rewrite migrate_unit_dry. exact H0.
Qed.

(** X22.  The loop of a dry run sends nothing to the target API: whatever
    the staging tables hold and whatever the callbacks do, the trace of the
    loop over the selected customers has no create-customer, tag,
    create-order or metafield request. *)
Theorem a_dry_run_sends_no_request (R : run_env)
    (customers : list (row CustomerKind))
    (staged_orders : list (row OrderKind)) (batch_size : Z)
    (selected : list Z) (n : tally) (tr : list event) :
  migrate_customers_atomic T R customers staged_orders batch_size true
    selected = inr (n, tr) ->
  api_writes tr = [].
Proof.
  unfold migrate_customers_atomic. intros H.
  apply (migrate_loop_dry _ _ _ _ _ _ _ _ _ H). reflexivity.
Qed.

(** *** The counters *)

Lemma migrate_unit_counts (customers : list (row CustomerKind))
    (staged_orders : list (row OrderKind)) (batch_size : Z) (dry_run : bool)
    (progress : exn + unit) (cratejoy_id : Z) (n : tally)
    (tr : list event) :
  batch_size <> 0 ->
  let n' := fst (migrate_unit T customers staged_orders batch_size dry_run
                   progress cratejoy_id (n, tr)) in
  migrated n <= migrated n' /\ failed n <= failed n' /\
  migrated n' + failed n' = migrated n + failed n + 1.
Proof.
  intros Hb. unfold migrate_unit. destruct progress as [e | u].
  - cbn. lia.
  - destruct (_assemble_customer_record customers staged_orders cratejoy_id);
      [ | cbn; lia].
    destruct (_migrate_single_customer _ _ _ _) as [success tr'].
    destruct (Z.eqb_spec batch_size 0) as [E | _]; [contradiction | ].
    destruct success; cbn; lia.
Qed.

Lemma migrate_loop_counts (R : run_env) (customers : list (row CustomerKind))
    (staged_orders : list (row OrderKind)) (batch_size : Z) (dry_run : bool)
    (selected : list Z) :
  batch_size <> 0 ->
  forall i st n tr,
    migrate_loop T R customers staged_orders batch_size dry_run i selected st
    = inr (n, tr) ->
    migrated (fst st) <= migrated n /\ failed (fst st) <= failed n /\
    migrated n + failed n
    <= migrated (fst st) + failed (fst st) + Z.of_nat (length selected).
Proof.
  intros Hb. induction selected as [ | id selected IH];
    intros i [n0 tr0] n tr H; cbn [migrate_loop] in H; cbn [fst length].
  - inversion H; subst. lia.
  - destruct (negb (is_running R i)); [inversion H; subst; lia | ].
    destruct (stop_callback R i) as [e | [ | ]];
      [discriminate | inversion H; subst; lia | ].
    apply IH in H.
    pose proof (migrate_unit_counts customers staged_orders batch_size
                  dry_run (progress_callback R i) id n0 tr0 Hb) as G.
    cbv zeta in G.
    destruct (migrate_unit _ _ _ _ _ _ _ _) as [n1 tr1].
    cbn [fst] in *. lia.
Qed.

Lemma migrate_loop_undisturbed (R : run_env)
    (customers : list (row CustomerKind))
    (staged_orders : list (row OrderKind)) (batch_size : Z) (dry_run : bool)
    (selected : list Z) :
  batch_size <> 0 ->
  (forall i, is_running R i = true /\ stop_callback R i = inr false) ->
  forall i st,
    exists n tr,
      migrate_loop T R customers staged_orders batch_size dry_run i selected
        st = inr (n, tr) /\
      migrated (fst st) <= migrated n /\ failed (fst st) <= failed n /\
      migrated n + failed n
      = migrated (fst st) + failed (fst st) + Z.of_nat (length selected).
Proof.
  intros Hb HR. induction selected as [ | id selected IH];
    intros i [n0 tr0]; cbn [migrate_loop fst length].
  - exists n0, tr0. split; [reflexivity | lia].
  - destruct (HR i) as [Hrun Hstop]. rewrite Hrun, Hstop. cbn [negb].
    pose proof (migrate_unit_counts customers staged_orders batch_size
                  dry_run (progress_callback R i) id n0 tr0 Hb) as G.
    cbv zeta in G.
    destruct (IH (S i) (migrate_unit T customers staged_orders batch_size
                          dry_run (progress_callback R i) id (n0, tr0)))
      as (n & tr & E & H1 & H2 & H3).
    exists n, tr. split; [exact E | lia].
Qed.

(** X23.  With a non-zero batch size, the loop over the selected customers,
    when it is not stopped, returns and counts every selected customer
    exactly once, as migrated or as failed, whatever the target API, the
    staging tables and the progress callback do. *)
Theorem every_customer_is_counted_once (R : run_env)
    (customers : list (row CustomerKind))
    (staged_orders : list (row OrderKind)) (batch_size : Z) (dry_run : bool)
    (selected : list Z) :
  batch_size <> 0 ->
  (forall i, is_running R i = true /\ stop_callback R i = inr false) ->
  exists n tr,
    migrate_customers_atomic T R customers staged_orders batch_size dry_run
      selected = inr (n, tr) /\
    0 <= migrated n /\ 0 <= failed n /\
    migrated n + failed n = Z.of_nat (length selected).
Proof.
  intros Hb HR. unfold migrate_customers_atomic.
  destruct (migrate_loop_undisturbed R customers staged_orders batch_size
              dry_run selected Hb HR 0%nat ({| migrated := 0; failed := 0 |}, []))
    as (n & tr & E & H1 & H2 & H3).
  exists n, tr. cbn [fst migrated failed] in *. split; [exact E | lia].
Qed.

(** X24.  With a non-zero batch size, the loop over the selected customers,
    stopped or not, counts no customer twice: when it returns, the two
    counters are not negative and add up to at most the number of selected
    customers. *)
Theorem a_run_counts_no_customer_twice (R : run_env)
    (customers : list (row CustomerKind))
    (staged_orders : list (row OrderKind)) (batch_size : Z) (dry_run : bool)
    (selected : list Z) (n : tally) (tr : list event) :
  batch_size <> 0 ->
  migrate_customers_atomic T R customers staged_orders batch_size dry_run
    selected = inr (n, tr) ->
  0 <= migrated n /\ 0 <= failed n /\
  migrated n + failed n <= Z.of_nat (length selected).
Proof.
  intros Hb H. unfold migrate_customers_atomic in H.
  apply (migrate_loop_counts R customers staged_orders batch_size dry_run
           selected Hb) in H.
  cbn [fst migrated failed] in H. lia.
Qed.

(** *** A batch size of zero *)

Lemma migrate_loop_zero_batch (R : run_env)
    (customers : list (row CustomerKind))
    (staged_orders : list (row OrderKind)) (dry_run : bool)
    (selected : list Z) :
  (forall i, is_running R i = true /\ stop_callback R i = inr false /\
             progress_callback R i = inr tt) ->
  (forall id, id ∈ selected -> lookup_row id customers <> None) ->
  forall i st,
    exists n tr,
      migrate_loop T R customers staged_orders 0 dry_run i selected st
      = inr (n, tr) /\
      migrated (fst st) <= migrated n /\
      failed n >= failed (fst st) + Z.of_nat (length selected) /\
      migrated n + failed n
      = migrated (fst st) + failed (fst st) + 2 * Z.of_nat (length selected).
Proof.
  intros HR. induction selected as [ | id selected IH];
    intros Hsel i [n0 tr0]; cbn [migrate_loop fst length].
  - exists n0, tr0. split; [reflexivity | lia].
  - destruct (HR i) as (Hrun & Hstop & Hprog). rewrite Hrun, Hstop, Hprog.
    cbn [negb].
    assert (Hid : lookup_row id customers <> None)
      by (apply Hsel, list_elem_of_here).
    assert (Hrest : forall id', id' ∈ selected ->
                      lookup_row id' customers <> None)
      by (intros id' H'; apply Hsel, list_elem_of_further, H').
    destruct (IH Hrest (S i)
                (migrate_unit T customers staged_orders 0 dry_run (inr tt)
                   id (n0, tr0)))
      as (n & tr & E & H1 & H2 & H3).
    exists n, tr. split; [exact E | ].
    revert H1 H2 H3. unfold migrate_unit, _assemble_customer_record.
    destruct (lookup_row id customers) as [r | ]; [ | congruence].
    destruct (_migrate_single_customer _ _ _ _) as [[ | ] tr'];
      cbn [Z.eqb fst migrated failed]; lia.
Qed.

(** X25.  With a batch size of zero, the progress line of the loop divides
    by zero after the customer was counted, and the handler of the loop
    counts the customer again as failed: a run that is not stopped counts
    every customer it can assemble twice, at least once as failed, also the
    customers it did migrate. *)
Theorem a_zero_batch_size_counts_customers_twice (R : run_env)
    (customers : list (row CustomerKind))
    (staged_orders : list (row OrderKind)) (dry_run : bool)
    (selected : list Z) :
  (forall i, is_running R i = true /\ stop_callback R i = inr false /\
             progress_callback R i = inr tt) ->
  (forall id, id ∈ selected -> lookup_row id customers <> None) ->
  exists n tr,
    migrate_customers_atomic T R customers staged_orders 0 dry_run selected
    = inr (n, tr) /\
    Z.of_nat (length selected) <= failed n /\
    migrated n + failed n = 2 * Z.of_nat (length selected).
Proof.
  intros HR Hsel. unfold migrate_customers_atomic.
  destruct (migrate_loop_zero_batch R customers staged_orders dry_run
              selected HR Hsel 0%nat ({| migrated := 0; failed := 0 |}, []))
    as (n & tr & E & H1 & H2 & H3).
  exists n, tr. cbn [fst migrated failed] in *. split; [exact E | lia].
Qed.

(** *** The requests of one unit *)

Lemma migrate_orders_requests (sid : Z) (os : list Order) :
  forall (k : Z) (tr : list event),
    api_writes (fst (migrate_orders T sid os k tr))
    = api_writes tr ++ map ApiCreateOrder (mapped_orders T sid os).
Proof.
  induction os as [ | o os IH]; intros k tr.
  - cbn. rewrite app_nil_r. reflexivity.
  - cbn [migrate_orders]. unfold mapped_orders. cbn [omap list_omap].
    unfold migrate_order.
    destruct (map_order T o sid) as [e | d].
    + rewrite IH. rewrite api_writes_app. cbn. rewrite app_nil_r.
      reflexivity.
    + destruct (create_order T tr d) as [e | [oid | ]];
        rewrite IH, !api_writes_app; cbn; rewrite app_nil_r, <- app_assoc;
        reflexivity.
Qed.

Lemma add_tags_requests (sid : Z) (tr : list event) :
  api_writes (add_tags T sid tr) = api_writes tr ++ [ApiAddTags sid].
Proof.
  unfold add_tags. destruct (add_customer_tags T tr sid);
    rewrite !api_writes_app; cbn; rewrite ?app_nil_r; reflexivity.
Qed.

Lemma add_metafield_requests (c : Customer) (sid : Z) (tr : list event) :
  api_writes (add_metafield T c sid tr)
  = api_writes tr
    ++ (if has_subscription c then [ApiCreateMetafield sid] else []).
Proof.
  unfold add_metafield. destruct (has_subscription c);
    [ | rewrite app_nil_r; reflexivity].
  destruct (create_customer_metafield T tr sid);
    rewrite !api_writes_app; cbn; rewrite ?app_nil_r; reflexivity.
Qed.

(** X26.  The requests of a unit whose customer is created, in order: the
    customer, the migration tag, one order request per order the mapper can
    map, and a metafield request exactly when the customer carries a
    subscription status other than [none]; failures of the tag, order and
    metafield requests change nothing in what is sent next. *)
Theorem requests_of_a_migrated_unit (u : customer_data) (tr : list event)
    (data : string) (sid : Z) :
  map_customer T (customer u) = inr data ->
  create_customer T tr data = inr (Some sid) ->
  api_writes (snd (_migrate_single_customer T u false tr))
  = api_writes tr
    ++ [ApiCreateCustomer data; ApiAddTags sid]
    ++ map ApiCreateOrder (mapped_orders T sid (orders u))
    ++ (if has_subscription (customer u) then [ApiCreateMetafield sid]
        else []).
Proof.
  intros Hm Hc. unfold _migrate_single_customer. rewrite Hm, Hc.
  pose proof (migrate_orders_requests sid (orders u) 0
                (add_tags T sid
                   ((tr ++ [ApiCreateCustomer data])
                    ++ [LogCreatedCustomer sid]))) as Ho.
  destruct (migrate_orders T sid (orders u) 0 _) as [tr4 k].
  cbn [fst snd] in *.
  rewrite api_writes_app, add_metafield_requests, Ho, add_tags_requests.
  rewrite !api_writes_app. cbn. rewrite !app_nil_r, <- !app_assoc.
  reflexivity.
Qed.

(** X27.  A unit that reports failure has sent at most the request that
    creates the customer: no tag, no order and no metafield request. *)
Theorem a_failed_unit_sent_at_most_the_customer (u : customer_data)
    (dry_run : bool) (tr : list event) :
  fst (_migrate_single_customer T u dry_run tr) = false ->
  api_writes (snd (_migrate_single_customer T u dry_run tr)) = api_writes tr
  \/ exists data,
       map_customer T (customer u) = inr data /\
       api_writes (snd (_migrate_single_customer T u dry_run tr))
       = api_writes tr ++ [ApiCreateCustomer data].
Proof.
  unfold _migrate_single_customer.
  destruct dry_run; [discriminate | ].
  destruct (map_customer T (customer u)) as [e | data].
  - intros _. left. cbn [snd]. rewrite api_writes_app. apply app_nil_r.
  - destruct (create_customer T tr data) as [e | [sid | ]].
    + intros _. right. exists data. split; [reflexivity | ].
      cbn [snd]. rewrite !api_writes_app. cbn. rewrite app_nil_r.
      reflexivity.
    + destruct (migrate_orders T sid (orders u) 0 _) as [tr4 k].
      discriminate.
    + intros _. right. exists data. split; [reflexivity | ].
      cbn [snd]. rewrite !api_writes_app. cbn. rewrite app_nil_r.
      reflexivity.
Qed.

End Target.

Lemma a_dry_run_sends_no_request_witness :
  api_writes [LogDryRun 3] = [].
Proof.
  apply (a_dry_run_sends_no_request second_order_fails undisturbed
           staged_alice staged_orders_of_alice 50 [7]
           {| migrated := 1; failed := 0 |} [LogDryRun 3]).
  reflexivity.
Defined.

Lemma every_customer_is_counted_once_witness :
  exists n tr,
    migrate_customers_atomic second_order_fails undisturbed staged_alice
      staged_orders_of_alice 50 false [7; 8] = inr (n, tr) /\
    0 <= migrated n /\ 0 <= failed n /\
    migrated n + failed n = Z.of_nat (length [7; 8]).
Proof.
  apply (every_customer_is_counted_once second_order_fails undisturbed
           staged_alice staged_orders_of_alice 50 false [7; 8]).
  - discriminate.
  - intros i. split; reflexivity.
Defined.

Lemma a_run_counts_no_customer_twice_witness :
  0 <= 1 /\ 0 <= 1 /\ 1 + 1 <= Z.of_nat (length [7; 8]).
Proof.
  apply (a_run_counts_no_customer_twice second_order_fails undisturbed
           staged_alice staged_orders_of_alice 50 true [7; 8]
           {| migrated := 1; failed := 1 |} [LogDryRun 3]).
  - discriminate.
  - reflexivity.
Defined.

Lemma a_zero_batch_size_counts_customers_twice_witness :
  exists n tr,
    migrate_customers_atomic second_order_fails undisturbed staged_alice
      staged_orders_of_alice 0 true [7] = inr (n, tr) /\
    Z.of_nat (length [7]) <= failed n /\
    migrated n + failed n = 2 * Z.of_nat (length [7]).
Proof.
  apply (a_zero_batch_size_counts_customers_twice second_order_fails
           undisturbed staged_alice staged_orders_of_alice true [7]).
  - intros i. repeat split; reflexivity.
  - intros id Hid. apply list_elem_of_singleton in Hid. subst id.
    discriminate.
Defined.

Lemma requests_of_a_migrated_unit_witness :
  api_writes (snd (_migrate_single_customer second_order_fails three_orders
                     false []))
  = [ApiCreateCustomer "customer"; ApiAddTags 100;
     ApiCreateOrder "order-1"; ApiCreateOrder "order-2";
     ApiCreateOrder "order-3"; ApiCreateMetafield 100].
Proof.
  apply (requests_of_a_migrated_unit second_order_fails three_orders []
           "customer" 100); reflexivity.
Defined.

Lemma a_failed_unit_sent_at_most_the_customer_witness :
  api_writes (snd (_migrate_single_customer customer_rejected three_orders
                     false [])) = api_writes []
  \/ exists data,
       map_customer customer_rejected (customer three_orders) = inr data /\
       api_writes (snd (_migrate_single_customer customer_rejected
                          three_orders false []))
       = api_writes [] ++ [ApiCreateCustomer data].
Proof.
  apply (a_failed_unit_sent_at_most_the_customer customer_rejected
           three_orders false []).
  reflexivity.
Defined.

End RunsProps.


(** ** The collectors: what a healthy run counts *)

Module TotalsProps.
Import Staging Collector.

Section Totals.
Context {K : EntityKind}.
Variable w : world K.
Variables batch_size start_page : Z.
Variable pg : nat -> page K.

Hypothesis Hw :
  forall i, is_running w i = true /\ stop_callback w i = inr false /\
            progress_callback w i = inr tt /\
            commit_ok (session w i) = true /\
            forall m, progress_ok (session w i) m = true.

Lemma healthy_step (i : nat) (s : counters) (t : list (row K)) :
  fetch w i batch_size (current_page s) = inr (pg i) ->
  results (pg i) <> [] ->
  next (pg i) = NextGarbled \/ next (pg i) = NextPage (current_page s + 1) ->
  exists s1 t1,
    collect_step w batch_size start_page i s t = (Continue s1, t1) /\
    current_page s1 = current_page s + 1 /\
    collected s1
    = collected s
      + Z.of_nat (length (staged_rows (session w i) 0 (results (pg i)))) /\
    collected s1 + failed s1
    = collected s + failed s + Z.of_nat (length (results (pg i))).
Proof.
  intros Hf Hne Hnext.
  destruct (Hw i) as (Hr & Hs & Hp & Hc & Hpo).
  unfold collect_step, try_page. rewrite Hr, Hs, Hp, Hf. cbn [negb].
  destruct (results (pg i)) as [ | c cs] eqn:E; [congruence | ].
  unfold process_batch.
  pose proof (StoreProps.process_records_exact (session w i) (c :: cs) Hpo
                0%nat 0 0 (Some t)) as G.
  destruct (process_records (session w i) 0 (c :: cs) (0, 0, Some t))
    as [[bc bf] work].
  rewrite Hc.
  destruct Hnext as [-> | ->]; eexists _, _;
    (split; [reflexivity | ]);
    cbn [current_page collected failed _parse_next_page]; lia.
Qed.

Lemma healthy_loop (n : nat) :
  forall (i : nat) (s : counters) (t : list (row K)),
    (forall k, (k < n)%nat ->
       fetch w (i + k) batch_size (current_page s + Z.of_nat k)
       = inr (pg (i + k)) /\
       results (pg (i + k)) <> [] /\
       (next (pg (i + k)) = NextGarbled \/
        next (pg (i + k)) = NextPage (current_page s + Z.of_nat k + 1))) ->
    (exists r,
       fetch w (i + n) batch_size (current_page s + Z.of_nat n) = inr r /\
       results r = []) ->
    exists s' t',
      collect_loop w batch_size start_page (S n) i s t = Some (inr s', t') /\
      current_page s' = current_page s + Z.of_nat n /\
      collected s'
      = collected s
        + foldr Z.add 0
            (map (fun k => Z.of_nat (length (staged_rows (session w k) 0
                                               (results (pg k)))))
               (seq i n)) /\
      collected s' + failed s'
      = collected s + failed s
        + foldr Z.add 0
            (map (fun k => Z.of_nat (length (results (pg k)))) (seq i n)).
Proof.
  induction n as [ | n IH]; intros i s t Hgood Hend.
  - destruct (Hw i) as (Hr & Hs & Hp & _).
    destruct Hend as (r & Hf & He).
    rewrite Nat.add_0_r in Hf. change (Z.of_nat 0) with 0 in Hf.
    rewrite Z.add_0_r in Hf.
    exists s, t. cbn [collect_loop]. unfold collect_step, try_page.
    rewrite Hr, Hs, Hp, Hf, He. cbn [negb seq map foldr].
    split; [reflexivity | lia].
  - destruct (Hgood 0%nat ltac:(lia)) as (Hf & Hne & Hnext).
    rewrite Nat.add_0_r in Hf, Hne, Hnext.
    change (Z.of_nat 0) with 0 in Hf, Hnext.
    rewrite Z.add_0_r in Hf, Hnext.
    destruct (healthy_step i s t Hf Hne Hnext)
      as (s1 & t1 & Hs1 & Hp1 & Hc1 & Ht1).
    destruct (IH (S i) s1 t1) as (s' & t' & Hrun & Hpage & Hcol & Htot).
    + intros k Hk. destruct (Hgood (S k) ltac:(lia)) as (Hf' & Hrest).
      replace (S i + k)%nat with (i + S k)%nat by lia.
      rewrite Hp1.
      replace (current_page s + 1 + Z.of_nat k)
        with (current_page s + Z.of_nat (S k)) by lia.
      split; [exact Hf' | exact Hrest].
    + destruct Hend as (r & Hf' & He'). exists r.
      replace (S i + n)%nat with (i + S n)%nat by lia.
      rewrite Hp1.
      replace (current_page s + 1 + Z.of_nat n)
        with (current_page s + Z.of_nat (S n)) by lia.
      split; assumption.
    + exists s', t'.
      change (collect_loop w batch_size start_page (S (S n)) i s t)
        with (match collect_step w batch_size start_page i s t with
              | (Continue s0, t0) =>
                  collect_loop w batch_size start_page (S n) (S i) s0 t0
              | (Break s0, t0) => Some (inr s0, t0)
              | (Raise e, t0) => Some (inl e, t0)
              end).
      rewrite Hs1. split; [exact Hrun | ].
      cbn [seq map foldr]. lia.
Qed.

(** X28.  A healthy run counts every record it fetched exactly once. When
    the run is not stopped, its batches commit, its progress callbacks
    return, the [n] pages from the start page on hold records and each
    points to the following page (or carries a [next] that cannot be
    parsed), and the page after them is empty, the run returns on that page;
    [collected] is the number of records with a usable id whose statement
    executed, and [collected + failed] is the number of records on the [n]
    pages. *)
Theorem a_healthy_run_counts_every_record (n : nat) (t : list (row K)) :
  (forall k, (k < n)%nat ->
     fetch w k batch_size (start_page + Z.of_nat k) = inr (pg k) /\
     results (pg k) <> [] /\
     (next (pg k) = NextGarbled \/
      next (pg k) = NextPage (start_page + Z.of_nat k + 1))) ->
  (exists r,
     fetch w n batch_size (start_page + Z.of_nat n) = inr r /\
     results r = []) ->
  exists s' t',
    collect w batch_size start_page (S n) t = Some (inr s', t') /\
    current_page s' = start_page + Z.of_nat n /\
    collected s'
    = foldr Z.add 0
        (map (fun k => Z.of_nat (length (staged_rows (session w k) 0
                                           (results (pg k)))))
           (seq 0 n)) /\
    collected s' + failed s'
    = foldr Z.add 0
        (map (fun k => Z.of_nat (length (results (pg k)))) (seq 0 n)).
Proof.
  intros Hgood Hend. unfold collect.
  destruct (healthy_loop n 0%nat
              {| collected := 0; failed := 0; current_page := start_page |} t)
    as (s' & t' & Hrun & Hpage & Hcol & Htot).
  - intros k Hk. cbn [Nat.add current_page]. apply Hgood, Hk.
  - cbn [Nat.add current_page]. exact Hend.
  - exists s', t'. cbn [collected failed current_page] in *.
    split; [exact Hrun | ]. split; [exact Hpage | ]. split; lia.
Qed.

End Totals.

Lemma a_healthy_run_counts_every_record_witness :
  exists s' t',
    collect_orders Sources.two_order_pages 100 0 3 [] = Some (inr s', t') /\
    current_page s' = 0 + Z.of_nat 2 /\
    collected s' = 2 /\
    collected s' + failed s' = 3.
Proof.
  apply (@a_healthy_run_counts_every_record OrderKind Sources.two_order_pages
           100 0 Sources.order_pages).
  - intros i. repeat split; reflexivity.
  - intros k Hk. destruct k as [ | [ | k]]; [ | | lia];
      (split; [reflexivity | ]; split; [discriminate | right; reflexivity]).
  - eexists. split; reflexivity.
Defined.

(** X29.  A source that is down ends the run: when every fetch fails from
    the first iteration on, the run gives up after exactly 11 pages and
    returns, without an exception, [failed = 11 * batch_size] and the
    staging table as it was. *)
Theorem a_dead_source_ends_the_run_after_eleven_pages {K : EntityKind}
    (w : world K) (batch_size start_page : Z) (fuel : nat)
    (t : list (row K)) :
  (forall i p, is_running w i = true /\ stop_callback w i = inr false /\
               progress_callback w i = inr tt /\
               exists e, fetch w i batch_size p = inl e) ->
  collect w batch_size start_page (11 + fuel) t =
  Some (inr {| collected := 0; failed := 11 * batch_size;
               current_page := start_page + 11 |}, t).
Proof. apply CollectorProps.all_pages_fail. Qed.

Lemma a_dead_source_ends_the_run_after_eleven_pages_witness :
  collect_orders Sources.source_down 100 5 (11 + 0) [] =
  Some (inr {| collected := 0; failed := 11 * 100;
               current_page := 5 + 11 |}, []).
Proof.
  apply (@a_dead_source_ends_the_run_after_eleven_pages OrderKind
           Sources.source_down 100 5 0%nat []).
  intros i p. repeat split. exists RequestException. reflexivity.
Defined.

End TotalsProps.


(** ** verify_data_integrity.py: the gaps it reports *)

Module IntegrityProps.
Import Integrity.

Lemma gaps_of_sorted_spec (l : list Z) :
  StronglySorted Z.lt l ->
  forall a b,
    (a, b) ∈ gaps_of_sorted l <->
    a ∈ l /\ b ∈ l /\ b - a > 1000 /\
    forall x, x ∈ l -> ~ (a < x < b).
Proof.
  induction 1 as [ | a0 l Hs IH Hall]; intros a b.
  - cbn. split.
    + intros H. apply elem_of_nil in H. destruct H.
    + intros [H _]. apply elem_of_nil in H. destruct H.
  - rewrite Forall_forall in Hall.
    destruct l as [ | b0 rest].
    + cbn [gaps_of_sorted]. split.
      * intros H. apply elem_of_nil in H. destruct H.
      * intros (Ha & Hb & Hd & _).
        apply list_elem_of_singleton in Ha, Hb. lia.
    + assert (Hab : a0 < b0) by (apply Hall, list_elem_of_here).
      assert (Hlow : forall x, x ∈ b0 :: rest -> b0 <= x).
      { intros x Hx. apply elem_of_cons in Hx. destruct Hx as [-> | Hx];
          [lia | ].
        apply StronglySorted_inv in Hs. destruct Hs as [_ Hb0].
        rewrite Forall_forall in Hb0. specialize (Hb0 x Hx). lia. }
      assert (Hhead : (a, b) ∈ gaps_of_sorted (a0 :: b0 :: rest) <->
                      (a = a0 /\ b = b0 /\ b0 - a0 > 1000) \/
                      (a, b) ∈ gaps_of_sorted (b0 :: rest)).
      { change (gaps_of_sorted (a0 :: b0 :: rest))
          with (if b0 - a0 >? 1000
                then (a0, b0) :: gaps_of_sorted (b0 :: rest)
                else gaps_of_sorted (b0 :: rest)).
        destruct (Z.gtb_spec (b0 - a0) 1000) as [Hg | Hg].
        - rewrite elem_of_cons. split.
          + intros [E | H]; [inversion E; subst; left; lia | right; exact H].
          + intros [(-> & -> & _) | H]; [left; reflexivity | right; exact H].
        - split; [intros H; right; exact H | ].
          intros [(_ & _ & Hd) | H]; [lia | exact H]. }
      rewrite Hhead, IH. clear Hhead IH. split.
      * intros [(-> & -> & Hd) | (Ha & Hb & Hd & Hnone)].
        -- split; [apply list_elem_of_here | ].
           split; [apply list_elem_of_further, list_elem_of_here | ].
           split; [exact Hd | ].
           intros x Hx Hbetween. apply elem_of_cons in Hx.
           destruct Hx as [-> | Hx]; [lia | ].
           specialize (Hlow x Hx). lia.
        -- split; [apply list_elem_of_further, Ha | ].
           split; [apply list_elem_of_further, Hb | ].
           split; [exact Hd | ].
           intros x Hx Hbetween. apply elem_of_cons in Hx.
           destruct Hx as [-> | Hx].
           ++ specialize (Hlow a Ha). lia.
           ++ apply (Hnone x Hx Hbetween).
      * intros (Ha & Hb & Hd & Hnone).
        apply elem_of_cons in Ha. destruct Ha as [-> | Ha].
        -- left. apply elem_of_cons in Hb. destruct Hb as [-> | Hb]; [lia | ].
           pose proof (Hlow b Hb) as Hbb.
           assert (~ (a0 < b0 < b))
             by (apply Hnone, list_elem_of_further, list_elem_of_here).
           lia.
        -- right. pose proof (Hlow a Ha) as Haa.
           apply elem_of_cons in Hb. destruct Hb as [-> | Hb]; [lia | ].
           split; [exact Ha | ]. split; [exact Hb | ].
           split; [exact Hd | ].
           intros x Hx. apply Hnone, list_elem_of_further, Hx.
Qed.

(** X30.  The integrity report lists a pair [(a, b)] of collected ids as a
    gap exactly when [b] is the next collected id after [a] and lies more
    than 1000 above it: a hole of up to 999 missing ids between two
    collected ids is not reported. *)
Theorem id_gaps_are_the_wide_holes (collected_ids : gset Z) (a b : Z) :
  (a, b) ∈ analyze_id_gaps collected_ids <->
  a ∈ collected_ids /\ b ∈ collected_ids /\ b - a > 1000 /\
  forall x, x ∈ collected_ids -> ~ (a < x < b).
Proof.
  unfold analyze_id_gaps.
  destruct (decide (collected_ids = ∅)) as [-> | Hne].
  - split.
    + intros H. apply elem_of_nil in H. destruct H.
    + intros [H _]. apply not_elem_of_empty in H. destruct H.
  - rewrite gaps_of_sorted_spec.
    + rewrite !merge_sort_Permutation, !elem_of_elements.
      split; intros (Ha & Hb & Hd & Hnone);
        (split; [exact Ha | ]; split; [exact Hb | ]; split; [exact Hd | ]);
        intros x Hx.
      * apply Hnone. rewrite merge_sort_Permutation, elem_of_elements.
        exact Hx.
      * apply Hnone. rewrite merge_sort_Permutation, elem_of_elements in Hx.
        exact Hx.
    + apply AuditsProps.strict_of_sorted_nodup.
      * apply StronglySorted_merge_sort; apply _.
      * rewrite merge_sort_Permutation. apply NoDup_elements.
Qed.


Lemma id_gaps_are_the_wide_holes_witness :
  (1, 2000) ∈ analyze_id_gaps ({[1]} ∪ {[2000]}).
Proof.
  apply (id_gaps_are_the_wide_holes ({[1]} ∪ {[2000]}) 1 2000).
  split; [apply elem_of_union; left; apply elem_of_singleton; reflexivity | ].
  split; [apply elem_of_union; right; apply elem_of_singleton; reflexivity | ].
  split; [lia | ].
  intros x Hx. apply elem_of_union in Hx.
  destruct Hx as [Hx | Hx]; apply elem_of_singleton in Hx; lia.
Defined.

End IntegrityProps.
